(** * App Store screenshot pipeline: framer, combiner, splitter

    A shallow embedding of the geometry and control flow of the three
    pipeline stages ([01_input_framed/framer.ts], [02_input_combined/combiner.ts],
    [03_splitter/splitter.ts]) and of the cleanup script, together with the
    properties stated about them.

    Conventions of the embedding.
    - Pixel quantities, font sizes and offsets are integers ([Z]): image
      metadata is integral and the command line reads these settings with
      [parseInt].
    - The scale factors of the combiner are IEEE 754 doubles
      ([Js.double]), and the scaled size of a framed image is the rounded
      double product, as in the code: [1285 * 0.7] is [899.4999999999999]
      and rounds to [899].
    - The other fractional numbers ([fontSize * 1.2], the aspect ratio of
      the splitter, halves of integers) are exact rationals ([Q]); the
      literals [1.2], [0.2], [0.6] and [0.5] denote [6/5], [1/5], [3/5] and
      [1/2].
    - Strings are [string]; a character is an [ascii] code.
    - An [async] function that may throw is a computation in the monad
      [eff]: it carries the files written so far and ends in a thrown error
      or in a value.
    - The bitmap library is modelled by the geometry handed to it (sizes
      and offsets) and by the rules under which it rejects a request
      (module [Sharp]); pixels are not modelled. Failures of the file
      system while writing (permissions, a full disk) and exhaustion of
      memory are not modelled. *)

From Stdlib Require Import ZArith QArith Qround Lqa String Ascii List Sorted Lia Bool.
From Stdlib Require Import SpecFloat.
From stdpp Require Import gmap strings list pretty.
From Equations Require Import Equations.

Open Scope Z_scope.

(** ** JavaScript numeric primitives *)

Module Js.

(** [Math.floor], [Math.ceil] and [Math.round] (ties go up). *)
Definition Math_floor (x : Q) : Z := Qfloor x.
Definition Math_ceil (x : Q) : Z := Qceiling x.
Definition Math_round (x : Q) : Z := Qfloor (x + (1 # 2)).

(** The result of a division whose divisor may be zero, after
    [Math.floor]: a finite integer, an infinity or [NaN]. *)
Inductive num : Type :=
  | Fin (z : Z)
  | PosInf
  | NegInf
  | NaN.

(** [Math.floor(a / b)] on rationals. *)
Definition floor_div (a b : Q) : num :=
  if Qeq_bool b 0 then
    match Qcompare a 0 with
    | Gt => PosInf
    | Lt => NegInf
    | Eq => NaN
    end
  else Fin (Math_floor (a / b)).

(** [n > m] for a string length [n]; a comparison with [NaN] is false. *)
Definition length_gt (n : nat) (m : num) : bool :=
  match m with
  | Fin z => z <? Z.of_nat n
  | PosInf => false
  | NegInf => true
  | NaN => false
  end.

(** An IEEE 754 binary64 number. *)
Definition double : Type := spec_float.

Definition PREC : Z := 53.
Definition EMAX : Z := 1024.

(** The double nearest to an integer. *)
Definition double_of_Z (z : Z) : double :=
  match z with
  | Z0 => S754_zero false
  | Zpos _ => binary_normalize PREC EMAX z 0 false
  | Zneg _ => binary_normalize PREC EMAX z 0 true
  end.

(** [x * y] and [x / y] on doubles, rounded to nearest, ties to even. *)
Definition double_mul (x y : double) : double := SFmul PREC EMAX x y.
Definition double_div (x y : double) : double := SFdiv PREC EMAX x y.

(** The double a decimal literal denotes: the one nearest to
    [num / den], for a literal such as [0.9] read as [9 / 10]. *)
Definition decimal (num den : Z) : double :=
  double_div (double_of_Z num) (double_of_Z den).

(** [x === y] on doubles: [NaN] equals nothing. *)
Definition double_eqb (x y : double) : bool := SFeqb x y.

(** [Math.round] of a double, ties going up: [None] when the result is
    no integer ([NaN] or an infinity). *)
Definition Math_round_double (x : double) : option Z :=
  match x with
  | S754_zero _ => Some 0
  | S754_finite s m e =>
      let sm := if s then Z.neg m else Z.pos m in
      if 0 <=? e then Some (sm * 2 ^ e)
      else Some ((2 * sm + 2 ^ (- e)) / 2 ^ (1 - e))
  | S754_infinity _ => None
  | S754_nan => None
  end.

End Js.

(** ** JavaScript string primitives *)

Module Str.

(** A string is truthy exactly when it is not empty. *)
Definition truthy (s : string) : bool :=
  match s with
  | EmptyString => false
  | String _ _ => true
  end.

Definition lower_char (c : ascii) : ascii :=
  let n := nat_of_ascii c in
  if ((65 <=? n)%nat && (n <=? 90)%nat)%bool then ascii_of_nat (n + 32) else c.

(** [s.toLowerCase()] on the letters [A]..[Z]. *)
Fixpoint toLowerCase (s : string) : string :=
  match s with
  | EmptyString => EmptyString
  | String c s' => String (lower_char c) (toLowerCase s')
  end.

(** [s.startsWith(p)]. *)
Definition startsWith (p s : string) : bool := String.prefix p s.

(** [s.includes(sub)]. *)
Fixpoint includes (sub s : string) : bool :=
  String.prefix sub s ||
  match s with
  | EmptyString => false
  | String _ s' => includes sub s'
  end.

(** [s.split(sep)] for a one-character separator: never the empty list. *)
Fixpoint split (sep : ascii) (s : string) : list string :=
  match s with
  | EmptyString => [EmptyString]
  | String c s' =>
      if Ascii.eqb c sep then EmptyString :: split sep s'
      else
        match split sep s' with
        | [] => [String c EmptyString]
        | w :: ws => String c w :: ws
        end
  end.

(** [parts.join(sep)]. *)
Definition join (sep : string) (parts : list string) : string :=
  String.concat sep parts.

(** [s.replace(/&/g, '&amp;').replace(/</g, '&lt;').replace(/>/g, '&gt;')].
    The two later replacements do not touch what the first produced,
    as [&amp;] holds neither [<] nor [>]. *)
Fixpoint escapeXml (s : string) : string :=
  match s with
  | EmptyString => EmptyString
  | String c s' =>
      if Ascii.eqb c "&" then "&amp;" +:+ escapeXml s'
      else if Ascii.eqb c "<" then "&lt;" +:+ escapeXml s'
      else if Ascii.eqb c ">" then "&gt;" +:+ escapeXml s'
      else String c (escapeXml s')
  end.

(** White space removed by [trim]: tab, line feed, vertical tab, form
    feed, carriage return, space and no-break space. *)
Definition is_space (c : ascii) : bool :=
  let n := nat_of_ascii c in
  ((9 <=? n)%nat && (n <=? 13)%nat) || (n =? 32)%nat || (n =? 160)%nat.

Fixpoint trimStart (s : string) : string :=
  match s with
  | EmptyString => EmptyString
  | String c s' => if is_space c then trimStart s' else s
  end.

Fixpoint trimEnd (s : string) : string :=
  match s with
  | EmptyString => EmptyString
  | String c s' =>
      match trimEnd s' with
      | EmptyString => if is_space c then EmptyString else String c EmptyString
      | t => String c t
      end
  end.

Definition trim (s : string) : string := trimEnd (trimStart s).

Definition LF : ascii := ascii_of_nat 10.
Definition CR : ascii := ascii_of_nat 13.
Definition backslash : ascii := ascii_of_nat 92.

(** Prepend a character to the first part of a split. *)
Definition cons_first (c : ascii) (parts : list string) : list string :=
  match parts with
  | [] => [String c EmptyString]
  | w :: ws => String c w :: ws
  end.

(** [s.split(/\r?\n|\\n/)]: the separators are a line feed, a carriage
    return followed by a line feed, and a backslash followed by [n]. *)
Fixpoint splitBreaks (s : string) : list string :=
  match s with
  | EmptyString => [EmptyString]
  | String c s' =>
      if Ascii.eqb c LF then EmptyString :: splitBreaks s'
      else
        match s' with
        | String d s'' =>
            if (Ascii.eqb c CR && Ascii.eqb d LF)
               || (Ascii.eqb c backslash && Ascii.eqb d "n")
            then
              EmptyString :: splitBreaks s''
            else cons_first c (splitBreaks s')
        | EmptyString => cons_first c (splitBreaks s')
        end
  end.

(** [s.replace(pat, '')] for a string pattern: the first occurrence is
    removed. *)
Fixpoint removeFirst (pat s : string) : string :=
  if String.prefix pat s then String.substring (String.length pat) (String.length s) s
  else
    match s with
    | EmptyString => EmptyString
    | String c s' => String c (removeFirst pat s')
    end.

Definition digit10 (c : ascii) : option Z :=
  let n := nat_of_ascii c in
  if ((48 <=? n)%nat && (n <=? 57)%nat)%bool then Some (Z.of_nat n - 48) else None.

Definition digit16 (c : ascii) : option Z :=
  let n := nat_of_ascii c in
  if ((48 <=? n)%nat && (n <=? 57)%nat)%bool then Some (Z.of_nat n - 48)
  else if ((97 <=? n)%nat && (n <=? 102)%nat)%bool then Some (Z.of_nat n - 87)
  else if ((65 <=? n)%nat && (n <=? 70)%nat)%bool then Some (Z.of_nat n - 55)
  else None.

(** The value of the longest prefix of digits, [acc] so far. *)
Fixpoint digits (radix : Z) (digit : ascii -> option Z) (s : string)
    (acc : option Z) : option Z :=
  match s with
  | EmptyString => acc
  | String c s' =>
      match digit c with
      | Some d => digits radix digit s' (Some (default 0 acc * radix + d))
      | None => acc
      end
  end.

(** [parseInt(s)] without a radix: leading white space, a sign, a [0x]
    prefix for base 16, then digits; [None] is [NaN]. *)
Definition parseInt (s : string) : option Z :=
  let s := trimStart s in
  let '(sign, s) :=
    match s with
    | String "-" s' => (-1, s')
    | String "+" s' => (1, s')
    | _ => (1, s)
    end in
  let magnitude :=
    match s with
    | String "0" (String "x" s') => digits 16 digit16 s' None
    | String "0" (String "X" s') => digits 16 digit16 s' None
    | _ => digits 10 digit10 s None
    end in
  match magnitude with
  | Some m => Some (sign * m)
  | None => None
  end.

End Str.

(** ** Computations that write files and may throw *)

Module Eff.

Section Eff.
Context {W : Type}.

(** The files written before the outcome, and the outcome: [inl msg]
    for a thrown [Error(msg)], [inr a] for a returned value. *)
Definition eff (A : Type) : Type := (list W * (string + A))%type.

Definition ret {A} (a : A) : eff A := ([], inr a).
Definition throw {A} (msg : string) : eff A := ([], inl msg).
Definition write (w : W) : eff unit := ([w], inr tt).

Definition bind {A B} (m : eff A) (k : A -> eff B) : eff B :=
  match m with
  | (ws, inl e) => (ws, inl e)
  | (ws, inr a) => let '(ws', r) := k a in (ws ++ ws', r)
  end.

Definition written {A} (m : eff A) : list W := fst m.
Definition outcome {A} (m : eff A) : string + A := snd m.

Definition succeeded {A} (m : eff A) : bool :=
  match snd m with
  | inl _ => false
  | inr _ => true
  end.

(** [for (const x of xs) { await body(x) }]. *)
Fixpoint for_each {A} (body : A -> eff unit) (xs : list A) : eff unit :=
  match xs with
  | [] => ret tt
  | x :: xs' => bind (body x) (fun _ => for_each body xs')
  end.
End Eff.

Arguments eff : clear implicits.

End Eff.

Notation "x <- m ;; k" := (Eff.bind m (fun x => k))
  (at level 100, m at next level, right associativity).
Notation "m ;;; k" := (Eff.bind m (fun _ => k))
  (at level 100, right associativity).

(** ** The rules of the bitmap library

    What makes [sharp] reject a request, as far as the three stages can
    meet it. *)

Module Sharp.

(** The default [limitInputPixels] of an input opened without options:
    [0x3FFF * 0x3FFF] pixels. *)
Definition INPUT_PIXEL_LIMIT : Z := 268402689.

(** [Number.isInteger] of a rational. *)
Definition is_integer (q : Q) : bool := Qeq_bool q (inject_Z (Qfloor q)).

(** [sharp(buffer)] for a buffer that holds an image of the given size:
    the size is positive and within the pixel limit. *)
Definition opens (width height : Z) : bool :=
  (0 <? width) && (0 <? height) && (width * height <=? INPUT_PIXEL_LIMIT).

(** [resize(width, height)] takes positive integers. *)
Definition resizes (width height : Z) : bool := (0 <? width) && (0 <? height).

(** [extract({ left, top, width, height })] from an image of the given
    size: no number is negative, and the region is not empty and lies
    inside the image. *)
Definition extracts (imageWidth imageHeight left top width height : Z) : bool :=
  (0 <=? left) && (0 <=? top) && (0 <? width) && (0 <? height)
  && (left + width <=? imageWidth) && (top + height <=? imageHeight).

(** One entry of [composite([...])]: whether its input buffer can be
    parsed, the size of the image in it, and its offsets. *)
Record Overlay : Type := mkOverlay {
  wellFormed : bool;
  o_width : Z;
  o_height : Z;
  o_top : Q;
  o_left : Q
}.

(** [composite] checks when it is called that the offsets are integers. *)
Definition integer_offsets (o : Overlay) : bool :=
  is_integer (o_top o) && is_integer (o_left o).

(** An overlay is then accepted on an image of the given size when its
    input opens and it is no larger than the image in either direction. *)
Definition accepts (imageWidth imageHeight : Z) (o : Overlay) : bool :=
  wellFormed o && opens (o_width o) (o_height o)
  && (o_width o <=? imageWidth) && (o_height o <=? imageHeight).

Definition composites (imageWidth imageHeight : Z) (overlays : list Overlay) : bool :=
  forallb integer_offsets overlays && forallb (accepts imageWidth imageHeight) overlays.

(** A character that may stand in an XML document: no control character
    but tab, line feed and carriage return. *)
Definition xml_char (c : ascii) : bool :=
  let n := nat_of_ascii c in
  (32 <=? n)%nat || (n =? 9)%nat || (n =? 10)%nat || (n =? 13)%nat.

Fixpoint xml_text (s : string) : bool :=
  match s with
  | EmptyString => true
  | String c s' => xml_char c && xml_text s'
  end.

(** The string starts with the end of a CDATA section. *)
Definition cdata_end (s : string) : bool :=
  match s with
  | String a (String b (String c _)) =>
      Ascii.eqb a "]" && Ascii.eqb b "]" && Ascii.eqb c ">"
  | _ => false
  end.

(** Text that can be put into an element as it is: XML characters, with
    no [<], no [&] and no end of a CDATA section. *)
Fixpoint plain_text (s : string) : bool :=
  match s with
  | EmptyString => true
  | String c s' =>
      xml_char c && negb (Ascii.eqb c "<") && negb (Ascii.eqb c "&")
      && negb (cdata_end s) && plain_text s'
  end.

End Sharp.

Inductive DeviceType : Type := iphone | ipad.

#[global] Instance DeviceType_eq_dec : EqDecision DeviceType.
Proof. solve_decision. Defined.

Definition deviceTypeName (d : DeviceType) : string :=
  match d with
  | iphone => "iphone"
  | ipad => "ipad"
  end.

(** ** The batch driver shared by the three [main] functions

    Each [main] walks its work list in chunks of a fixed size, maps every
    item of the chunk to a promise whose body is wrapped in [try]/[catch]
    (so the promise resolves to [{ success }] and never rejects), awaits
    [Promise.all] and tallies the results. *)

Module Batch.

Record Tally : Type := mkTally {
  processed : nat;
  failed : nat;
  (** The item outcomes in the order they were tallied. *)
  results : list bool
}.

Definition tally_one (t : Tally) (success : bool) : Tally :=
  if success
  then mkTally (S (processed t)) (failed t) (results t ++ [success])
  else mkTally (processed t) (S (failed t)) (results t ++ [success]).

(** [items.slice(i, j)]. *)
Definition slice {A} (items : list A) (i j : nat) : list A :=
  take (j - i) (drop i items).

Section Driver.
Context {Item : Type}.
(** One work item, with its own [try]/[catch]: [true] for
    [{ success: true }]. *)
Variable attempt : Item -> bool.
Variable BATCH_SIZE : positive.

(** [for (let i = 0; i < items.length; i += BATCH_SIZE) { ... }]. *)
Equations? batches (items : list Item) (i : nat) (t : Tally) : Tally
  by wf (length items - i)%nat lt :=
  batches items i t with lt_dec i (length items) => {
    | left _ =>
        let batch := slice items i (i + Pos.to_nat BATCH_SIZE) in
        let batchResults := map attempt batch in
        batches items (i + Pos.to_nat BATCH_SIZE)
          (fold_left tally_one batchResults t)
    | right _ => t }.
Proof. lia. Qed.

Definition run (items : list Item) : Tally :=
  batches items 0%nat (mkTally 0 0 []).
End Driver.

(** What a [main] leaves as process exit status. *)
Record Exit : Type := mkExit { tally : Tally; exitCode : Z }.

End Batch.

(** ** Stage 1: the framer *)

Module Framer.

Definition FRAMER_BATCH_SIZE : positive := 32.

Record Offset : Type := mkOffset { top : Z; left : Z }.
Record Padding : Type := mkPadding { horizontal : Z; vertical : Z }.
Record HomeIndicator : Type := mkHomeIndicator {
  hi_width : Z; hi_height : Z; hi_borderRadius : Z; hi_opacity : Q }.
Record Shadow : Type := mkShadow {
  dx : Z; dy : Z; stdDeviation : Z; sh_opacity : Q }.

(** [edgeMargin?: number]: [None] when the key is absent or [undefined]. *)
Record FrameSettings : Type := mkFrameSettings {
  imageBorderRadius : Z;
  frameBorderRadius : Z;
  edgeMargin : option Z;
  framePadding : Padding;
  screenshotOffset : Offset;
  homeIndicator : HomeIndicator;
  shadow : Shadow
}.

Definition defaultFrameSettings : FrameSettings := {|
  imageBorderRadius := 110;
  frameBorderRadius := 140;
  edgeMargin := Some 30;
  framePadding := mkPadding 90 90;
  screenshotOffset := mkOffset 40 40;
  homeIndicator := mkHomeIndicator 200 6 3 (8 # 10);
  shadow := mkShadow 0 4 8 (3 # 10)
|}.

(** [Partial<FrameSettings>]: [None] for an absent key. For [edgeMargin]
    a present key may carry [undefined] ([Some None]), which the spread
    copies over the default. *)
Record PartialFrameSettings : Type := mkPartial {
  p_imageBorderRadius : option Z;
  p_frameBorderRadius : option Z;
  p_edgeMargin : option (option Z);
  p_framePadding : option Padding;
  p_screenshotOffset : option Offset;
  p_homeIndicator : option HomeIndicator;
  p_shadow : option Shadow
}.

Definition noOverrides : PartialFrameSettings :=
  mkPartial None None None None None None None.

(** [{ ...defaultFrameSettings, ...settings }]. *)
Definition mergeSettings (settings : PartialFrameSettings) : FrameSettings := {|
  imageBorderRadius :=
    default (imageBorderRadius defaultFrameSettings) (p_imageBorderRadius settings);
  frameBorderRadius :=
    default (frameBorderRadius defaultFrameSettings) (p_frameBorderRadius settings);
  edgeMargin := default (edgeMargin defaultFrameSettings) (p_edgeMargin settings);
  framePadding := default (framePadding defaultFrameSettings) (p_framePadding settings);
  screenshotOffset :=
    default (screenshotOffset defaultFrameSettings) (p_screenshotOffset settings);
  homeIndicator := default (homeIndicator defaultFrameSettings) (p_homeIndicator settings);
  shadow := default (shadow defaultFrameSettings) (p_shadow settings)
|}.

(** The numbers [createDeviceBackground] puts into its SVG: the size of
    the [<svg>] element and the origin of the screen rectangle. *)
Record DeviceBackground : Type := mkBackground {
  frameWidth : Z;
  frameHeight : Z;
  screenX : Z;
  screenY : Z
}.

Definition createDeviceBackground (screenshotWidth screenshotHeight : Z)
    (deviceType : DeviceType) (settings : FrameSettings) : DeviceBackground :=
  let margin :=
    match edgeMargin settings with
    | Some m => m
    | None => left (screenshotOffset settings)
    end in
  {| frameWidth := screenshotWidth + margin * 2;
     frameHeight := screenshotHeight + margin * 2;
     screenX := margin;
     screenY := margin |}.

(** [createDeviceBezels] sizes its SVG in the same way. *)
Definition createDeviceBezels (screenshotWidth screenshotHeight : Z)
    (deviceType : DeviceType) (settings : FrameSettings) : DeviceBackground :=
  let margin :=
    match edgeMargin settings with
    | Some m => m
    | None => left (screenshotOffset settings)
    end in
  {| frameWidth := screenshotWidth + margin * 2;
     frameHeight := screenshotHeight + margin * 2;
     screenX := margin;
     screenY := margin |}.

Definition getScreenshotOffset (deviceType : DeviceType)
    (screenshotWidth screenshotHeight : Z) (isTop : bool)
    (settings : FrameSettings) : Z :=
  match edgeMargin settings with
  | Some m => m
  | None =>
      if isTop then top (screenshotOffset settings)
      else left (screenshotOffset settings)
  end.

(** The framed image: the canvas is the background layer; the screenshot
    is composited at [(shotLeft, shotTop)] and the bezel layer at the
    origin. *)
Record Framed : Type := mkFramed {
  canvasWidth : Z;
  canvasHeight : Z;
  shotTop : Z;
  shotLeft : Z;
  bezelWidth : Z;
  bezelHeight : Z;
  rounded : bool
}.

Record FrameOptions : Type := mkFrameOptions {
  inputPath : string;
  deviceType : DeviceType;
  settings : PartialFrameSettings
}.

(** The input tree: the metadata of the bitmap at a path, [None] when
    the file cannot be read as an image. *)
Definition Screenshots : Type := string -> option (Z * Z).

(** The mask, when the image border radius is positive, is an SVG of the
    size of the screenshot, composited onto it. Background and bezels are
    SVGs of the frame size; the background is opened from its buffer, as
    is the framed image when it is saved. *)
Definition frameScreenshot (inputs : Screenshots) (options : FrameOptions)
    : Eff.eff (string * Framed) Framed :=
  let frameSettings := mergeSettings (settings options) in
  match inputs (inputPath options) with
  | None => Eff.throw "Input file is missing or of an unsupported image format"
  | Some (w, h) =>
      let background := createDeviceBackground w h (deviceType options) frameSettings in
      let bezels := createDeviceBezels w h (deviceType options) frameSettings in
      let framedImage := {|
        canvasWidth := frameWidth background;
        canvasHeight := frameHeight background;
        shotTop := getScreenshotOffset (deviceType options) w h true frameSettings;
        shotLeft := getScreenshotOffset (deviceType options) w h false frameSettings;
        bezelWidth := frameWidth bezels;
        bezelHeight := frameHeight bezels;
        rounded := 0 <? imageBorderRadius frameSettings |} in
      if rounded framedImage
         && negb (Sharp.composites w h [Sharp.mkOverlay true w h 0 0])
      then Eff.throw "Input buffer has corrupt header"
      else if negb (Sharp.opens (canvasWidth framedImage) (canvasHeight framedImage))
      then Eff.throw "Input buffer has corrupt header"
      else if negb (Sharp.composites (canvasWidth framedImage) (canvasHeight framedImage)
                      [Sharp.mkOverlay true w h
                         (inject_Z (shotTop framedImage)) (inject_Z (shotLeft framedImage));
                       Sharp.mkOverlay true (bezelWidth framedImage)
                         (bezelHeight framedImage) 0 0])
      then Eff.throw "Image to composite must have same dimensions or smaller"
      else
        Eff.write (inputPath options, framedImage) ;;;
        Eff.ret framedImage
  end.

(** The device type [main] derives from the third directory above the
    file is supplied with each file. *)
Definition attempt (inputs : Screenshots) (file : string * DeviceType) : bool :=
  Eff.succeeded
    (frameScreenshot inputs (mkFrameOptions (fst file) (snd file) noOverrides)).

(** [main] without arguments, once the PNG files are found: tally the
    batches, print the summary, and return. No branch of this path calls
    [process.exit] after the batches, so the process ends with status 0. *)
Definition main (inputs : Screenshots) (filteredFiles : list (string * DeviceType))
    : Batch.Exit :=
  match filteredFiles with
  | [] => Batch.mkExit (Batch.mkTally 0 0 []) 0
  | _ =>
      let t := Batch.run (attempt inputs) FRAMER_BATCH_SIZE filteredFiles in
      Batch.mkExit t 0
  end.

End Framer.

(** ** Stage 3: the splitter *)

Module Splitter.

Definition SPLITTER_BATCH_SIZE : positive := 16.

Record DeviceConfig : Type := mkDeviceConfig {
  name : string;
  width : Z;
  height : Z;
  outputPath : string
}.

Definition DEFAULT_DEVICE_CONFIGS : list DeviceConfig := [
  mkDeviceConfig "iphone 6.5 inch" 1242 2688 "iphone 6.5 inch (1242x2688)";
  mkDeviceConfig "iphone 6.9 inch" 1320 2868 "iphone 6.9 inch (1320x2868)";
  mkDeviceConfig "ipad 13 inch" 2752 2064 "ipad 13 inch (2752x2064)"
].

(** [sharp.Metadata]: either dimension may be absent. *)
Record Metadata : Type := mkMetadata {
  m_width : option Z;
  m_height : option Z
}.

Record Rect : Type := mkRect {
  r_left : Z;
  r_top : Z;
  r_width : Z;
  r_height : Z
}.

(** One written [slot_n.png]: where it goes, the resize applied to the
    composite, the crop applied after it (if any) and the region
    extracted for the slot. *)
Record SlotFile : Type := mkSlotFile {
  config : DeviceConfig;
  sf_locale : string;
  slotNumber : Z;
  resizedWidth : Z;
  resizedHeight : Z;
  crop : option Rect;
  extract : Rect
}.

(** The combined composites on disk: the metadata of
    [<inputPath>/<deviceType>/<locale>/combined.png], [None] when the
    file is absent. *)
Definition Combined : Type := DeviceType -> string -> option Metadata.

Record SplitterOptions : Type := mkSplitterOptions {
  deviceConfigs : list DeviceConfig;
  locale : string;
  deviceType : DeviceType
}.

(** [resize] checks its arguments when it is called and the crop checks
    its region; each slot is then extracted from the resized image and
    its buffer opened to be saved. *)
Definition processDeviceConfig (metaWidth metaHeight : Z)
    (deviceConfig : DeviceConfig) (locale : string) : Eff.eff SlotFile unit :=
  let targetWidth := width deviceConfig in
  let targetHeight := height deviceConfig in
  let resizedWidth := targetWidth * 4 in
  let aspectRatio := (inject_Z metaHeight / inject_Z metaWidth)%Q in
  let resizedHeight := Js.Math_round (inject_Z resizedWidth * aspectRatio) in
  if negb (Sharp.resizes resizedWidth resizedHeight) then
    Eff.throw "Expected positive integer for width or height"
  else
    let cropped := targetHeight <? resizedHeight in
    if cropped && negb (0 <=? targetHeight) then
      Eff.throw "Expected integer for height"
    else
      let finalHeight := if cropped then targetHeight else resizedHeight in
      let cropRect :=
        if cropped then Some (mkRect 0 0 resizedWidth targetHeight) else None in
      let quarterWidth := targetWidth in
      Eff.for_each
        (fun i =>
           let slotNumber := i + 1 in
           let left := i * quarterWidth in
           if negb (Sharp.extracts resizedWidth resizedHeight left 0 quarterWidth finalHeight)
           then Eff.throw "extract_area: bad extract area"
           else if negb (Sharp.opens quarterWidth finalHeight)
           then Eff.throw "Input image exceeds pixel limit"
           else
             Eff.write {|
               config := deviceConfig;
               sf_locale := locale;
               slotNumber := slotNumber;
               resizedWidth := resizedWidth;
               resizedHeight := resizedHeight;
               crop := cropRect;
               extract := mkRect left 0 quarterWidth finalHeight |})
        [0; 1; 2; 3].

(** [!x] for an optional number: [undefined] and [0] are falsy. *)
Definition falsy (x : option Z) : bool :=
  match x with
  | None => true
  | Some z => z =? 0
  end.

(** The device configs whose name mentions the device type. *)
Definition filteredConfigs (options : SplitterOptions) : list DeviceConfig :=
  match deviceType options with
  | iphone =>
      List.filter (fun config => Str.includes "iphone" (Str.toLowerCase (name config)))
        (deviceConfigs options)
  | ipad =>
      List.filter (fun config => Str.includes "ipad" (Str.toLowerCase (name config)))
        (deviceConfigs options)
  end.

Definition splitScreenshots (disk : Combined) (options : SplitterOptions)
    : Eff.eff SlotFile unit :=
  match disk (deviceType options) (locale options) with
  | None =>
      Eff.throw ("Combined image not found: " +:+ deviceTypeName (deviceType options)
                 +:+ "/" +:+ locale options +:+ "/combined.png")
  | Some metadata =>
      if falsy (m_width metadata) || falsy (m_height metadata) then
        Eff.throw "Invalid combined image: missing width or height metadata"
      else
        let w := default 0 (m_width metadata) in
        let h := default 0 (m_height metadata) in
        if (w <? 1000) || (h <? 1000) then
          Eff.throw ("Combined image too small: " +:+ pretty w +:+ "x" +:+ pretty h
                     +:+ ". Expected at least 1000x1000.")
        else
          Eff.for_each
            (fun deviceConfig => processDeviceConfig w h deviceConfig (locale options))
            (filteredConfigs options)
  end.

Definition attempt (disk : Combined) (targetDevice : option DeviceType)
    (locale : string) : bool :=
  Eff.succeeded
    (splitScreenshots disk
       (mkSplitterOptions DEFAULT_DEVICE_CONFIGS locale (default iphone targetDevice))).

(** [main] without further arguments: [--locale] must name an available
    locale; the batches are tallied and the process exits with status 1
    when an item failed. *)
Definition main (disk : Combined) (allLocales : list string)
    (targetLocale : option string) (targetDevice : option DeviceType)
    : Batch.Exit :=
  let locales :=
    match targetLocale with
    | Some l => [l]
    | None => allLocales
    end in
  match targetLocale with
  | Some l =>
      if bool_decide (l ∈ allLocales) then
        let t := Batch.run (attempt disk targetDevice) SPLITTER_BATCH_SIZE locales in
        Batch.mkExit t (if (0 <? Batch.failed t)%nat then 1 else 0)
      else Batch.mkExit (Batch.mkTally 0 0 []) 1
  | None =>
      let t := Batch.run (attempt disk targetDevice) SPLITTER_BATCH_SIZE locales in
      Batch.mkExit t (if (0 <? Batch.failed t)%nat then 1 else 0)
  end.

End Splitter.

(** ** Stage 2: the combiner *)

Module Combiner.

Definition COMBINER_BATCH_SIZE : positive := 12.

(** *** Translation files and [loadTitles] *)

(** A value produced by [JSON.parse]. *)
#[warnings="-register-all"] Inductive json : Type :=
  | JNull
  | JBool (b : bool)
  | JNum (q : Q)
  | JStr (s : string)
  | JArr (xs : list json)
  | JObj (m : gmap string json).

(** JavaScript truthiness of a parsed value. *)
Definition truthy (v : json) : bool :=
  match v with
  | JNull => false
  | JBool b => b
  | JNum q => negb (Qeq_bool q 0)
  | JStr s => Str.truthy s
  | JArr _ => true
  | JObj _ => true
  end.

(** [00_input/translations/<locale>.json] as [loadTitles] meets it. *)
Inductive TranslationFile : Type :=
  | Missing
  | Unparseable
  | Parsed (translations : json).

Definition Translations : Type := string -> TranslationFile.

(** [translations[slotKey]]: [inl] for the [TypeError] raised on [null],
    [inr None] for [undefined]. Only an object has own properties named
    like a slot key. *)
Definition getProperty (translations : json) (slotKey : string)
    : unit + option json :=
  match translations with
  | JNull => inl tt
  | JObj m => inr (m !! slotKey)
  | _ => inr None
  end.

(** [`slot_${i}`] and [`Screenshot ${i}`]. *)
Definition slotKey (i : Z) : string := "slot_" +:+ pretty i.
Definition placeholder (i : Z) : json := JStr ("Screenshot " +:+ pretty i).

Definition defaultTitles : list json :=
  [JStr "Screenshot 1"; JStr "Screenshot 2"; JStr "Screenshot 3"; JStr "Screenshot 4"].

(** The body of [for (let i = 1; i <= 4; i++)]: [None] when a property
    access throws. *)
Fixpoint extractTitles (translations : json) (slots : list Z) (titles : list json)
    : option (list json) :=
  match slots with
  | [] => Some titles
  | i :: slots' =>
      match getProperty translations (slotKey i) with
      | inl _ => None
      | inr (Some v) =>
          if truthy v then extractTitles translations slots' (titles ++ [v])
          else extractTitles translations slots' (titles ++ [placeholder i])
      | inr None => extractTitles translations slots' (titles ++ [placeholder i])
      end
  end.

(** [loadTitles] catches every error of its body and never throws. *)
Definition loadTitles (files : Translations) (locale : string) : list json :=
  match files locale with
  | Parsed translations =>
      match extractTitles translations [1; 2; 3; 4] [] with
      | Some titles => titles
      | None => defaultTitles
      end
  | Missing | Unparseable => defaultTitles
  end.

(** *** [generateTitleSvg] *)

Inductive MaxLines : Type := Lines1 | Lines2.

(** The word-wrap loop over [words[i..]]: returns [breakIndex]. *)
Fixpoint wrapLoop (maxCharsPerLine : Js.num) (words : list string) (i : nat)
    (currentLine : string) (breakIndex : nat) : nat :=
  match words with
  | [] => breakIndex
  | word :: rest =>
      let testLine :=
        currentLine +:+ (if Str.truthy currentLine then " " else "") +:+ word in
      if Js.length_gt (String.length testLine) maxCharsPerLine
         && Str.truthy currentLine
      then i
      else wrapLoop maxCharsPerLine rest (S i) testLine (S i)
  end.

(** The two lines of a title before the [maxLines] cap. *)
Definition titleLines (text : string) (fontSize width : Z) : string * string :=
  let manualParts := List.filter Str.truthy (Str.splitBreaks text) in
  let maxCharsPerLine :=
    Js.floor_div (inject_Z width) (inject_Z fontSize * (6 # 10)) in
  if (1 <? length manualParts)%nat then
    (Str.escapeXml (Str.trim (hd EmptyString manualParts)),
     Str.escapeXml (Str.trim (Str.join " " (tl manualParts))))
  else
    let escapedText := Str.escapeXml text in
    if Js.length_gt (String.length escapedText) maxCharsPerLine then
      let words := Str.split " " escapedText in
      let breakIndex := wrapLoop maxCharsPerLine words 0 EmptyString 0 in
      if ((0 <? breakIndex)%nat && (breakIndex <? length words)%nat)%bool then
        (Str.join " " (take breakIndex words), Str.join " " (drop breakIndex words))
      else (escapedText, EmptyString)
    else (escapedText, EmptyString).

(** What [generateTitleSvg] renders: the text of the two [<text>]
    elements, their baselines and the height of the [<svg>]. *)
Record TitleSvg : Type := mkTitleSvg {
  line1 : string;
  line2 : string;
  svgWidth : Z;
  svgHeight : Z;
  textY1 : Z;
  textY2 : Q
}.

Definition generateTitleSvg (text : string) (fontSize shadowOffset width : Z)
    (maxLines : MaxLines) : TitleSvg :=
  let '(line1, line2) := titleLines text fontSize width in
  let line2 :=
    match maxLines with
    | Lines1 => EmptyString
    | Lines2 => line2
    end in
  let lineHeight := (inject_Z fontSize * (12 # 10))%Q in
  let renderedLines := if Str.truthy line2 then 2 else 1 in
  let contentHeight := (lineHeight * inject_Z renderedLines)%Q in
  let pad := Js.Math_ceil (inject_Z fontSize * (2 # 10)) + Z.abs shadowOffset in
  let svgHeight := Js.Math_ceil (contentHeight + inject_Z pad * 2) in
  let isTwoLines := renderedLines =? 2 in
  let textY1 :=
    Js.Math_ceil
      (inject_Z pad + (if isTwoLines then lineHeight / 2 else contentHeight / 2)) in
  let textY2 := (inject_Z textY1 + lineHeight)%Q in
  {| line1 := line1; line2 := line2; svgWidth := width; svgHeight := svgHeight;
     textY1 := textY1; textY2 := textY2 |}.

(** *** Framed screenshots on disk *)

(** The [framed.png] of a slot directory: absent, present but not an
    image the library can decode, or an image of a given size. *)
Inductive FramedFile : Type :=
  | NoFile
  | Undecodable
  | Image (width height : Z).

(** An entry of [<framedScreenshotsPath>/<deviceType>/<locale>/]: its
    name, what [fs.stat] says of it ([None] when [fs.stat] rejects, as for
    a dangling link; otherwise whether it is a directory), and the
    [framed.png] in it. *)
Record DirEntry : Type := mkDirEntry {
  entryName : string;
  stat : option bool;
  framed : FramedFile
}.

(** [None] when the directory cannot be read. *)
Definition FramedTree : Type := DeviceType -> string -> option (list DirEntry).

(** The sort key of a found path: [parseInt] of the slot directory name
    without its [slot_]. *)
Definition slotOf (e : DirEntry) : option Z :=
  Str.parseInt (Str.removeFirst "slot_" (entryName e)).

(** [slotA - slotB]; a [NaN] difference counts as [0] for [sort]. *)
Definition compareSlots (a b : DirEntry) : Z :=
  match slotOf a, slotOf b with
  | Some slotA, Some slotB => slotA - slotB
  | _, _ => 0
  end.

Fixpoint insertSorted (x : DirEntry) (sorted : list DirEntry) : list DirEntry :=
  match sorted with
  | [] => [x]
  | y :: rest =>
      if compareSlots x y <? 0 then x :: y :: rest
      else y :: insertSorted x rest
  end.

(** [paths.sort(compare)]: a stable sort. *)
Definition sortBySlot (paths : list DirEntry) : list DirEntry :=
  fold_left (fun sorted x => insertSorted x sorted) paths [].

(** [fs.access(framedPath)] resolves when the file exists. *)
Definition accessible (file : FramedFile) : bool :=
  match file with
  | NoFile => false
  | _ => true
  end.

(** The loop over [slotDirs]: [None] when an [fs.stat] rejects, which
    ends the loop in the outer [catch]. *)
Fixpoint collectSlots (slotDirs : list DirEntry) (screenshotPaths : list DirEntry)
    : option (list DirEntry) :=
  match slotDirs with
  | [] => Some screenshotPaths
  | slotDir :: rest =>
      match stat slotDir with
      | None => None
      | Some isDirectory =>
          if isDirectory && Str.startsWith "slot_" (entryName slotDir) then
            if accessible (framed slotDir)
            then collectSlots rest (screenshotPaths ++ [slotDir])
            else collectSlots rest screenshotPaths
          else collectSlots rest screenshotPaths
      end
  end.

Definition findFramedScreenshots (tree : FramedTree) (deviceType : DeviceType)
    (locale : string) : list DirEntry :=
  match tree deviceType locale with
  | None => []
  | Some slotDirs =>
      match collectSlots slotDirs [] with
      | Some screenshotPaths => sortBySlot screenshotPaths
      | None => []
      end
  end.

(** *** Canvas layout *)

Record FramedImage : Type := mkFramedImage {
  originalWidth : Z;
  originalHeight : Z;
  fi_width : Z;
  fi_height : Z
}.

Record CanvasDimensions : Type := mkCanvasDimensions {
  canvasWidth : Z;
  canvasHeight : Z;
  imageWidth : Z;
  imageHeight : Z;
  quarterWidth : Z
}.

(** [a || b] on numbers. *)
Definition orElse (a b : Z) : Z := if a =? 0 then b else a.

(** The title height [calculateCanvasDimensions] reserves. *)
Definition canvasTitleHeight (titleFontSize titleSpacing : Z)
    (singleLineTitles : bool) : Z :=
  let lines := if singleLineTitles then 1 else 2 in
  let pad := Js.Math_ceil (inject_Z titleFontSize * (2 # 10)) + 1 in
  Js.Math_ceil (inject_Z titleFontSize * (12 # 10) * inject_Z lines + inject_Z pad * 2)
  + titleSpacing.

(** [None] for the [TypeError] of [framedImages[0]] on an empty array. *)
Definition calculateCanvasDimensions (framedImages : list FramedImage)
    (spacing bgWidth bgHeight titleFontSize titleSpacing : Z)
    (centerInQuarters singleLineTitles : bool) : option CanvasDimensions :=
  match framedImages with
  | [] => None
  | first :: _ =>
      let imageWidth := orElse (originalWidth first) (fi_width first) in
      let imageHeight := orElse (originalHeight first) (fi_height first) in
      let titleHeight := canvasTitleHeight titleFontSize titleSpacing singleLineTitles in
      let n := Z.of_nat (length framedImages) in
      let totalWidth := imageWidth * n + spacing * (n + 1) in
      let totalHeight := imageHeight + titleHeight + spacing * 2 in
      let canvasWidth := Z.max bgWidth totalWidth in
      let canvasHeight := Z.max bgHeight totalHeight in
      let quarterWidth := Js.Math_floor (inject_Z canvasWidth / inject_Z n) in
      Some {| canvasWidth := canvasWidth; canvasHeight := canvasHeight;
              imageWidth := imageWidth; imageHeight := imageHeight;
              quarterWidth := quarterWidth |}
  end.

(** *** [combineScreenshots] *)

Record CombineOptions : Type := mkCombineOptions {
  spacing : Z;
  deviceType : DeviceType;
  locale : string;
  titles : option (list string);
  titleFontSize : Z;
  titleColor : string;
  titleShadowColor : string;
  titleShadowOffset : Z;
  titleSpacing : Z;
  centerInQuarters : bool;
  iPhoneScaleFactor : Js.double;
  iPadScaleFactor : Js.double
}.

(** [defaultSettings], for a locale and a device type. *)
Definition defaultOptions (deviceType : DeviceType) (locale : string)
    : CombineOptions := {|
  spacing := 50;
  deviceType := deviceType;
  locale := locale;
  titles := None;
  titleFontSize := 130;
  titleColor := "#ffffff";
  titleShadowColor := "#000000";
  titleShadowOffset := 1;
  titleSpacing := 100;
  centerInQuarters := true;
  iPhoneScaleFactor := Js.decimal 9 10;
  iPadScaleFactor := Js.decimal 86 100
|}.

Inductive LayerKind : Type :=
  | TitleLayer (svg : TitleSvg)
  | ImageLayer (image : FramedImage).

(** One entry of [compositeOperations]. *)
Record Layer : Type := mkLayer {
  input : LayerKind;
  l_top : Q;
  l_left : Z
}.

(** The written [combined.png]. *)
Record Composite : Type := mkComposite {
  c_deviceType : DeviceType;
  c_locale : string;
  c_width : Z;
  c_height : Z;
  backgroundResized : bool;
  layers : list Layer
}.

Record Disk : Type := mkDisk {
  translations : Translations;
  (** The size of the background image, [None] when it cannot be read. *)
  background : option (Z * Z);
  framedTree : FramedTree
}.

(** The body of [framedScreenshotPaths.map(async ...)]: [metadata]
    rejects for a file that cannot be decoded, the scaled size is the
    rounded double product, and [resize] checks it. *)
Definition loadFramedImage (scaleFactor : Js.double) (file : FramedFile)
    : string + FramedImage :=
  match file with
  | Image w h =>
      if Js.double_eqb scaleFactor (Js.double_of_Z 1) then inr (mkFramedImage w h w h)
      else
        match Js.Math_round_double (Js.double_mul (Js.double_of_Z w) scaleFactor),
              Js.Math_round_double (Js.double_mul (Js.double_of_Z h) scaleFactor) with
        | Some scaledWidth, Some scaledHeight =>
            if Sharp.resizes scaledWidth scaledHeight
            then inr (mkFramedImage w h scaledWidth scaledHeight)
            else inl "Expected positive integer for width or height"
        | _, _ => inl "Expected positive integer for width or height"
        end
  | NoFile | Undecodable => inl "Input file is missing or of an unsupported image format"
  end.

(** The title layers, in slot order; a title that is not a string makes
    [text.split] throw. *)
Fixpoint titleLayers (options : CombineOptions) (dims : CanvasDimensions)
    (titleHeight : Q) (finalTitles : list json) (index : nat) (count : nat)
    : Eff.eff Composite (list Layer) :=
  match count with
  | O => Eff.ret []
  | S count' =>
      let singleLineTitles := bool_decide (deviceType options = ipad) in
      let titleText :=
        match finalTitles !! index with
        | Some v => if truthy v then v else placeholder (Z.of_nat index + 1)
        | None => placeholder (Z.of_nat index + 1)
        end in
      match titleText with
      | JStr text =>
          let svg :=
            generateTitleSvg text (titleFontSize options) (titleShadowOffset options)
              (imageWidth dims) (if singleLineTitles then Lines1 else Lines2) in
          let leftPosition :=
            if centerInQuarters options then
              Js.Math_round
                (inject_Z (Z.of_nat index * quarterWidth dims)
                 + inject_Z (quarterWidth dims) / 2
                 - inject_Z (imageWidth dims) / 2)
            else Z.of_nat index * (imageWidth dims + spacing options) + spacing options in
          let top :=
            spacing options
            + Z.max 0 (Js.Math_round ((titleHeight - inject_Z (svgHeight svg)) / 2)) in
          rest <- titleLayers options dims titleHeight finalTitles (S index) count' ;;
          Eff.ret (mkLayer (TitleLayer svg) (inject_Z top) leftPosition :: rest)
      | _ => Eff.throw "TypeError: text.split is not a function"
      end
  end.

Definition imageLayer (options : CombineOptions) (dims : CanvasDimensions)
    (titleHeight : Q) (index : nat) (framedImage : FramedImage) : Layer :=
  let leftPosition :=
    if centerInQuarters options then
      let quarterCenter :=
        (inject_Z (Z.of_nat index * quarterWidth dims)
         + inject_Z (quarterWidth dims) / 2)%Q in
      Js.Math_round (quarterCenter - inject_Z (fi_width framedImage) / 2)
    else
      let originalWidth := originalWidth framedImage in
      let spaceStart := Z.of_nat index * (originalWidth + spacing options) + spacing options in
      Js.Math_round
        (inject_Z spaceStart + inject_Z (originalWidth - fi_width framedImage) / 2) in
  mkLayer (ImageLayer framedImage) (inject_Z (spacing options) + titleHeight) leftPosition.

(** The title height [combineScreenshots] positions the layers with:
    [(titleFontSize * (1.2 * linesForSvg)) + titleSpacing]. *)
Definition layoutTitleHeight (titleFontSize titleSpacing : Z)
    (singleLineTitles : bool) : Q :=
  let linesForSvg := if singleLineTitles then 1 else 2 in
  (inject_Z titleFontSize * ((12 # 10) * inject_Z linesForSvg)
   + inject_Z titleSpacing)%Q.

(** [titles || await loadTitles(locale)]. *)
Definition finalTitles (disk : Disk) (options : CombineOptions) : list json :=
  match titles options with
  | Some ts => map JStr ts
  | None => loadTitles (translations disk) (locale options)
  end.

(** [Promise.all] over the framed images: it rejects when a load rejects. *)
Fixpoint loadFramedImages (scaleFactor : Js.double) (paths : list DirEntry)
    : Eff.eff Composite (list FramedImage) :=
  match paths with
  | [] => Eff.ret []
  | filePath :: rest =>
      match loadFramedImage scaleFactor (framed filePath) with
      | inl msg => Eff.throw msg
      | inr framedImage =>
          others <- loadFramedImages scaleFactor rest ;;
          Eff.ret (framedImage :: others)
      end
  end.

(** A layer as [composite] meets it. The SVG of a title holds the two
    lines as element content and the two colours in its style sheet; the
    buffer of a framed image is the PNG made when it was loaded. *)
Definition overlayOf (options : CombineOptions) (l : Layer) : Sharp.Overlay :=
  match input l with
  | TitleLayer svg =>
      Sharp.mkOverlay
        (Sharp.xml_text (line1 svg) && Sharp.xml_text (line2 svg)
         && Sharp.plain_text (titleColor options)
         && Sharp.plain_text (titleShadowColor options))
        (svgWidth svg) (svgHeight svg) (l_top l) (inject_Z (l_left l))
  | ImageLayer image =>
      Sharp.mkOverlay true (fi_width image) (fi_height image) (l_top l)
        (inject_Z (l_left l))
  end.

Definition combineScreenshots (disk : Disk) (options : CombineOptions)
    : Eff.eff Composite unit :=
  let scaleFactor :=
    match deviceType options with
    | ipad => iPadScaleFactor options
    | iphone => iPhoneScaleFactor options
    end in
  let finalTitles := finalTitles disk options in
  match background disk with
  | None => Eff.throw "Input file is missing"
  | Some (bgWidth, bgHeight) =>
      let framedScreenshotPaths :=
        findFramedScreenshots (framedTree disk) (deviceType options) (locale options) in
      if (length framedScreenshotPaths =? 0)%nat then
        Eff.throw ("No framed screenshots found in: "
                   +:+ deviceTypeName (deviceType options) +:+ "/" +:+ locale options)
      else
        framedImages <- loadFramedImages scaleFactor framedScreenshotPaths ;;
        let singleLineTitles := bool_decide (deviceType options = ipad) in
        match calculateCanvasDimensions framedImages (spacing options) bgWidth bgHeight
                (titleFontSize options) (titleSpacing options)
                (centerInQuarters options) singleLineTitles with
        | None => Eff.throw "TypeError: cannot read properties of undefined"
        | Some dims =>
            let resize :=
              (bgWidth <? canvasWidth dims) || (bgHeight <? canvasHeight dims) in
            if resize && negb (Sharp.resizes (canvasWidth dims) (canvasHeight dims))
            then Eff.throw "Expected positive integer for width or height"
            else
              let titleHeight :=
                layoutTitleHeight (titleFontSize options) (titleSpacing options)
                  singleLineTitles in
              titleOps <- titleLayers options dims titleHeight finalTitles 0
                            (length framedImages) ;;
              let imageOps := imap (imageLayer options dims titleHeight) framedImages in
              let combined := {|
                c_deviceType := deviceType options;
                c_locale := locale options;
                c_width := if resize then canvasWidth dims else bgWidth;
                c_height := if resize then canvasHeight dims else bgHeight;
                backgroundResized := resize;
                layers := titleOps ++ imageOps |} in
              if negb (forallb Sharp.integer_offsets
                         (map (overlayOf options) (layers combined)))
              then Eff.throw "Expected integer for top"
              else if negb (Sharp.composites (c_width combined) (c_height combined)
                              (map (overlayOf options) (layers combined)))
              then Eff.throw "Image to composite must have same dimensions or smaller"
              else if negb (Sharp.opens (c_width combined) (c_height combined))
              then Eff.throw "Input image exceeds pixel limit"
              else Eff.write combined
        end
  end.

Definition attempt (disk : Disk) (targetDevice : option DeviceType)
    (locale : string) : bool :=
  Eff.succeeded
    (combineScreenshots disk (defaultOptions (default iphone targetDevice) locale)).

(** [main] without further arguments: every available locale is
    combined, and the process exits with status 1 when an item failed. *)
Definition main (disk : Disk) (locales : list string)
    (targetDevice : option DeviceType) : Batch.Exit :=
  let t := Batch.run (attempt disk targetDevice) COMBINER_BATCH_SIZE locales in
  Batch.mkExit t (if (0 <? Batch.failed t)%nat then 1 else 0).

End Combiner.


(** ** [Array.prototype.sort] *)

Module Sorting.

(** [x] goes in front of the first element it is to precede. *)
Fixpoint insertBy {A} (before : A -> A -> bool) (x : A) (sorted : list A) : list A :=
  match sorted with
  | [] => [x]
  | y :: rest =>
      if before x y then x :: y :: rest
      else y :: insertBy before x rest
  end.

(** [array.sort(...)] as a stable sort, for [before x y] the test that
    [x] is to precede [y]. *)
Definition sortBy {A} (before : A -> A -> bool) (items : list A) : list A :=
  fold_left (fun sorted x => insertBy before x sorted) items [].

End Sorting.

(** ** [getAvailableLocales] of the combiner and of the splitter *)

Module Locales.

(** [s.endsWith(suffix)]. *)
Definition endsWith (suffix s : string) : bool :=
  (String.length suffix <=? String.length s)%nat
  && String.eqb
       (String.substring (String.length s - String.length suffix)
          (String.length suffix) s)
       suffix.

(** An entry of [00_input/translations]. *)
Record Dirent : Type := mkDirent {
  name : string;
  isFile : bool
}.

(** The directory listing is [None] when [readdir] fails. The default
    [sort()] orders strings by their character codes. *)
Definition getAvailableLocales (translationsDir : option (list Dirent)) : list string :=
  match translationsDir with
  | Some entries =>
      Sorting.sortBy String.ltb
        (map (fun entry => Str.removeFirst ".json" (name entry))
             (List.filter (fun entry => isFile entry && endsWith ".json" (name entry))
                entries))
  | None => ["en"]
  end.

End Locales.


(** ** [findPngFiles] of the framer *)

Module Scan.

(** A path is the list of its segments; [path.join(currentPath, entry.name)]
    appends one segment. *)
Definition Path : Type := list string.

(** What [readdir] meets: a directory cannot be read or lists its named
    entries; an entry is a regular file, a directory, or neither. *)
Inductive Dir : Type :=
| Unreadable
| Listing (entries : list (string * Entry))
with Entry : Type :=
| File
| Sub (d : Dir)
| Other.

(** The paths pushed on [pngFiles] and the paths of the directories the
    scan warned about, both in the order of the scan. *)
Record Scanned : Type := mkScanned {
  pngFiles : list Path;
  warnings : list Path
}.

Definition gather (results : list Scanned) : Scanned :=
  mkScanned (concat (map pngFiles results)) (concat (map warnings results)).

Fixpoint scanDirectory (currentPath : Path) (dir : Dir) {struct dir} : Scanned :=
  match dir with
  | Unreadable => mkScanned [] [currentPath]
  | Listing entries =>
      gather
        (map (fun named : string * Entry =>
                let (name, entry) := named in
                let fullPath := currentPath ++ [name] in
                match entry with
                | Sub d =>
                    if negb (String.eqb name "output")
                    then scanDirectory fullPath d
                    else mkScanned [] []
                | File =>
                    if Locales.endsWith ".png" (Str.toLowerCase name)
                    then mkScanned [fullPath] []
                    else mkScanned [] []
                | Other => mkScanned [] []
                end)
             entries)
  end.

Definition findPngFiles (dirPath : Path) (dir : Dir) : list Path :=
  pngFiles (scanDirectory dirPath dir).

End Scan.

(** ** The cleanup script *)

Module Cleanup.

(** An [fs] call resolves, or rejects with an error that carries a code. *)
Inductive FsResult : Type :=
| Resolves
| Rejects (code : string).

(** What [fs.access] and [fs.rm] do for a directory. *)
Record Directory : Type := mkDirectory {
  access : FsResult;
  rm : FsResult
}.

Inductive Line : Type :=
| Deleted (dirPath : string)
| AlreadyClean (dirPath : string)
| ErrorDeleting (dirPath : string).

Definition deleteDirectory (fs : string -> Directory) (dirPath : string)
    : Eff.eff Line unit :=
  let attempt :=
    match access (fs dirPath) with
    | Rejects code => inl code
    | Resolves =>
        match rm (fs dirPath) with
        | Rejects code => inl code
        | Resolves => inr tt
        end
    end in
  match attempt with
  | inr _ => Eff.write (Deleted dirPath)
  | inl code =>
      if String.eqb code "ENOENT" then Eff.write (AlreadyClean dirPath)
      else Eff.write (ErrorDeleting dirPath) ;;; Eff.throw code
  end.

(** The three directories, relative to the parent of the script's own. *)
Definition directoriesToClean : list string :=
  ["01_input_framed/framed_screenshots";
   "02_input_combined/combined_screenshots";
   "output"].

Record Counters : Type := mkCounters {
  cleaned : Z;
  errors : Z;
  lines : list Line
}.

(** One turn of the loop. The listing of the [output] directory it
    prints first sits in a [try] of its own with an empty [catch], and
    changes neither counter. *)
Definition turn (fs : string -> Directory) (c : Counters) (dir : string) : Counters :=
  let deleted := deleteDirectory fs dir in
  match Eff.outcome deleted with
  | inr _ => mkCounters (cleaned c + 1) (errors c) (lines c ++ Eff.written deleted)
  | inl _ => mkCounters (cleaned c) (errors c + 1) (lines c ++ Eff.written deleted)
  end.

Definition loop (fs : string -> Directory) (dirs : list string) : Counters :=
  fold_left (turn fs) dirs (mkCounters 0 0 []).

(** The counters at the summary and the status the process ends with. *)
Definition cleanup (fs : string -> Directory) : Counters * Z :=
  let c := loop fs directoriesToClean in
  (c, if 0 <? errors c then 1 else 0).

(** [cleanup] throws nothing, so the [catch] of [main] is never entered. *)
Definition main (fs : string -> Directory) : Z := snd (cleanup fs).

End Cleanup.

(** * Specification predicates *)

(** [rects] cover [start, stop) from left to right, each beginning where
    the one before it ends. *)
Fixpoint tiles (start : Z) (rects : list Splitter.Rect) (stop : Z) : Prop :=
  match rects with
  | [] => start = stop
  | r :: rest =>
      Splitter.r_left r = start /\ tiles (start + Splitter.r_width r) rest stop
  end.

Definition sumZ (l : list Z) : Z := fold_right Z.add 0 l.

(** What the minimum-size check of the splitter is to reject: a missing
    dimension, or one below 1000 (zero included). *)
Definition below_minimum (metadata : Splitter.Metadata) : Prop :=
  match Splitter.m_width metadata, Splitter.m_height metadata with
  | Some W, Some H => W < 1000 \/ H < 1000
  | _, _ => True
  end.


(** A directory of [n] framed 1230 x 2592 screenshots, [slot_1] .. [slot_n]. *)
Definition framedSlots (n : nat) : list Combiner.DirEntry :=
  map (fun i =>
         Combiner.mkDirEntry ("slot_" +:+ pretty i) (Some true) (Combiner.Image 1230 2592))
      (seq 1 n).

(** A disk with a 2580 x 1398 background, no translation file and [n]
    framed screenshots for every device type and locale. *)
Definition diskWith (n : nat) : Combiner.Disk :=
  Combiner.mkDisk (fun _ => Combiner.Missing) (Some (2580, 1398))
    (fun _ _ => Some (framedSlots n)).

Definition isImageLayer (l : Combiner.Layer) : bool :=
  match Combiner.input l with
  | Combiner.ImageLayer _ => true
  | Combiner.TitleLayer _ => false
  end.

Definition imageLayerCount (c : Combiner.Composite) : nat :=
  length (List.filter isImageLayer (Combiner.layers c)).

Definition titleLayerCount (c : Combiner.Composite) : nat :=
  length (List.filter (fun l => negb (isImageLayer l)) (Combiner.layers c)).

(** The title of slot [i] for a translation object [m]. *)
Definition slotTitle (m : gmap string Combiner.json) (i : Z) : Combiner.json :=
  match m !! Combiner.slotKey i with
  | Some v => if Combiner.truthy v then v else Combiner.placeholder i
  | None => Combiner.placeholder i
  end.

Definition nonEmptyString (v : Combiner.json) : Prop :=
  exists s, v = Combiner.JStr s /\ s <> EmptyString.

(** The text has an explicit line break: a line feed, or a backslash
    followed by [n]. *)
Definition hasExplicitBreak (text : string) : bool :=
  Str.includes (String Str.LF EmptyString) text
  || Str.includes (String Str.backslash "n") text.

Fixpoint noSpace (s : string) : bool :=
  match s with
  | EmptyString => true
  | String c s' => negb (Ascii.eqb c " ") && noSpace s'
  end.

(** The text has none of the characters [escapeXml] rewrites. *)
Fixpoint noMarkup (s : string) : bool :=
  match s with
  | EmptyString => true
  | String c s' =>
      negb (Ascii.eqb c "&") && negb (Ascii.eqb c "<") && negb (Ascii.eqb c ">")
      && noMarkup s'
  end.

(** The numbers of [true] and of [false] outcomes in a list of results. *)
Definition successes (rs : list bool) : nat := length (List.filter (fun b => b) rs).
Definition failures (rs : list bool) : nat := length (List.filter negb rs).

(** ** Example inputs *)

(** A 1170 x 2532 screenshot and the options that frame it with
    [edgeMargin = 30]. *)
Definition shot1170 : Framer.Screenshots := fun _ => Some (1170, 2532).

Definition frameWithMargin30 : Framer.FrameOptions :=
  Framer.mkFrameOptions "screenshots/iphone/en/slot_1/shot.png" iphone
    (Framer.mkPartial None None (Some (Some 30)) None None None None).

(** A combined image of the given size for every device type and locale. *)
Definition combinedOf (w h : Z) : Splitter.Combined :=
  fun _ _ => Some (Splitter.mkMetadata (Some w) (Some h)).

Definition splitIphoneEn : Splitter.SplitterOptions :=
  Splitter.mkSplitterOptions Splitter.DEFAULT_DEVICE_CONFIGS "en" iphone.

(** Translation files whose content is the given object, for every locale. *)
Definition translationsOf (m : gmap string Combiner.json) : Combiner.Translations :=
  fun _ => Combiner.Parsed (Combiner.JObj m).

Definition onlySlots1And3 : gmap string Combiner.json :=
  <["slot_1" := Combiner.JStr "Bonjour"]> (<["slot_3" := Combiner.JStr "Salut"]> ∅).

Definition emptySlot2 : gmap string Combiner.json :=
  <["slot_1" := Combiner.JStr "Bonjour"]> (<["slot_2" := Combiner.JStr ""]> ∅).

Definition numberInSlot1 : gmap string Combiner.json :=
  <["slot_1" := Combiner.JNum 7]> ∅.


(** A combined image the splitter accepts: present, with both dimensions
    known and at least 1000. *)
Definition acceptable (m : option Splitter.Metadata) : Prop :=
  exists W H,
    m = Some (Splitter.mkMetadata (Some W) (Some H)) /\ 1000 <= W /\ 1000 <= H.

(** A device config the splitter can serve from a [W] x [H] composite:
    its target size is positive, the resized composite is at least one
    pixel high ([4 T H / W >= 1]), and a slot is within the pixel limit. *)
Definition validConfig (W H : Z) (cfg : Splitter.DeviceConfig) : Prop :=
  0 < Splitter.width cfg
  /\ 0 < Splitter.height cfg
  /\ W <= 4 * Splitter.width cfg * H
  /\ Splitter.width cfg * Splitter.height cfg <= Sharp.INPUT_PIXEL_LIMIT.

(** The device config is selected for the device type: its lower-cased
    name mentions it. *)
Definition selected (options : Splitter.SplitterOptions) (cfg : Splitter.DeviceConfig)
    : Prop :=
  In cfg (Splitter.deviceConfigs options)
  /\ Str.includes (deviceTypeName (Splitter.deviceType options))
       (Str.toLowerCase (Splitter.name cfg)) = true.

(** [files] are the four slots of [cfg] for [locale], as the
    specification describes them: taken from the composite resized to
    width [4 T], each [T] wide, at left offsets [0], [T], [2 T], [3 T]. *)
Definition fourSlots (cfg : Splitter.DeviceConfig) (locale : string)
    (files : list Splitter.SlotFile) : Prop :=
  let T := Splitter.width cfg in
  Forall (fun f => Splitter.config f = cfg /\ Splitter.sf_locale f = locale) files
  /\ map Splitter.slotNumber files = [1; 2; 3; 4]
  /\ map Splitter.resizedWidth files = [4 * T; 4 * T; 4 * T; 4 * T]
  /\ map (fun f => Splitter.r_left (Splitter.extract f)) files = [0; T; 2 * T; 3 * T]
  /\ map (fun f => Splitter.r_width (Splitter.extract f)) files = [T; T; T; T]
  /\ tiles 0 (map Splitter.extract files) (4 * T)
  /\ sumZ (map (fun f => Splitter.r_width (Splitter.extract f)) files) = 4 * T
  /\ Forall (fun f =>
               0 <= Splitter.r_left (Splitter.extract f)
               /\ Splitter.r_left (Splitter.extract f)
                  + Splitter.r_width (Splitter.extract f)
                  <= Splitter.resizedWidth f)
            files.

(** The narrowest of the default device configs for a device type. *)
Definition narrowestDefault (deviceType : DeviceType) : Z :=
  match deviceType with
  | iphone => 1242
  | ipad => 2752
  end.

(** A combined image the splitter can split for the default device
    configs: present, at least 1000 x 1000, and not so flat that the
    height of the resized image rounds to zero. *)
Definition splittable (deviceType : DeviceType) (m : option Splitter.Metadata) : Prop :=
  exists W H,
    m = Some (Splitter.mkMetadata (Some W) (Some H))
    /\ 1000 <= W /\ 1000 <= H
    /\ W <= 8 * narrowestDefault deviceType * H.

(** The work items the framer can read. *)
Definition readable (inputs : Framer.Screenshots) (file : string * DeviceType) : bool :=
  bool_decide (is_Some (inputs (fst file))).


(** Options that override only the screenshot offset. *)
Definition frameWithOffset100 : Framer.FrameOptions :=
  Framer.mkFrameOptions "screenshots/iphone/en/slot_1/shot.png" iphone
    (Framer.mkPartial None None None None (Some (Framer.mkOffset 100 100)) None None).

(** Options that unset [edgeMargin] and give offsets [top = 40], [left = 25]. *)
Definition frameWithoutMargin : Framer.FrameOptions :=
  Framer.mkFrameOptions "screenshots/iphone/en/slot_1/shot.png" iphone
    (Framer.mkPartial None None (Some None) None (Some (Framer.mkOffset 40 25)) None None).

(** Options that set [edgeMargin = 45]. *)
Definition frameWithMargin45 : Framer.FrameOptions :=
  Framer.mkFrameOptions "screenshots/iphone/en/slot_1/shot.png" iphone
    (Framer.mkPartial None None (Some (Some 45)) None None None None).

(** Options that set [edgeMargin = -5]. *)
Definition frameWithNegativeMargin : Framer.FrameOptions :=
  Framer.mkFrameOptions "screenshots/iphone/en/slot_1/shot.png" iphone
    (Framer.mkPartial None None (Some (Some (-5))) None None None None).

(** The margin the settings of the caller ask for, in the words of the
    specification: [edgeMargin] when it is set, else the left screenshot
    offset. A caller that does not mention [edgeMargin] gets the 30 of the
    default settings; one that unsets it gets the left screenshot offset,
    their own or the default 40. *)
Definition specMargin (caller : Framer.PartialFrameSettings) : Z :=
  match Framer.p_edgeMargin caller with
  | Some (Some edgeMargin) => edgeMargin
  | Some None =>
      match Framer.p_screenshotOffset caller with
      | Some offset => Framer.left offset
      | None => 40
      end
  | None => 30
  end.

(** The margin of the merged settings. *)
Definition marginOf (settings : Framer.FrameSettings) : Z :=
  match Framer.edgeMargin settings with
  | Some edgeMargin => edgeMargin
  | None => Framer.left (Framer.screenshotOffset settings)
  end.

(** A screenshot of [w] x [h] can be framed with margin [m]: it has a
    positive size, the margin is not negative, and the framed image is
    within the pixel limit. *)
Definition frameableWith (w h m : Z) : Prop :=
  0 < w /\ 0 < h /\ 0 <= m /\ (w + 2 * m) * (h + 2 * m) <= Sharp.INPUT_PIXEL_LIMIT.

(** The work items the framer can frame with the default margin of 30. *)
Definition frameable (inputs : Framer.Screenshots) (file : string * DeviceType) : bool :=
  match inputs (fst file) with
  | Some (w, h) =>
      (0 <? w) && (0 <? h) && ((w + 60) * (h + 60) <=? Sharp.INPUT_PIXEL_LIMIT)
  | None => false
  end.


(** ** Names for the intermediate values of [combineScreenshots] *)

Definition scaleFactorOf (options : Combiner.CombineOptions) : Js.double :=
  match Combiner.deviceType options with
  | ipad => Combiner.iPadScaleFactor options
  | iphone => Combiner.iPhoneScaleFactor options
  end.

Definition foundFor (disk : Combiner.Disk) (options : Combiner.CombineOptions)
    : list Combiner.DirEntry :=
  Combiner.findFramedScreenshots (Combiner.framedTree disk)
    (Combiner.deviceType options) (Combiner.locale options).

Definition singleLine (options : Combiner.CombineOptions) : bool :=
  bool_decide (Combiner.deviceType options = ipad).

Definition layoutHeightOf (options : Combiner.CombineOptions) : Q :=
  Combiner.layoutTitleHeight (Combiner.titleFontSize options)
    (Combiner.titleSpacing options) (singleLine options).

Definition isStr (v : Combiner.json) : bool :=
  match v with
  | Combiner.JStr _ => true
  | _ => false
  end.

(** [finalTitles[index] || `Screenshot ${index + 1}`]. *)
Definition titleTextAt (titles : list Combiner.json) (index : nat) : Combiner.json :=
  match titles !! index with
  | Some v => if Combiner.truthy v then v else Combiner.placeholder (Z.of_nat index + 1)
  | None => Combiner.placeholder (Z.of_nat index + 1)
  end.

(** The titles of the first [n] slots are strings. *)
Definition usableTitles (titles : list Combiner.json) (n : nat) : Prop :=
  forall k, (k < n)%nat -> isStr (titleTextAt titles k) = true.

(** The title layer of slot [index] for the title [text]. *)
Definition titleLayerAt (options : Combiner.CombineOptions)
    (dims : Combiner.CanvasDimensions) (titleHeight : Q) (text : string) (index : nat)
    : Combiner.Layer :=
  let svg :=
    Combiner.generateTitleSvg text (Combiner.titleFontSize options)
      (Combiner.titleShadowOffset options) (Combiner.imageWidth dims)
      (if singleLine options then Combiner.Lines1 else Combiner.Lines2) in
  Combiner.mkLayer (Combiner.TitleLayer svg)
    (inject_Z
       (Combiner.spacing options
        + Z.max 0 (Js.Math_round ((titleHeight - inject_Z (Combiner.svgHeight svg)) / 2))))
    (if Combiner.centerInQuarters options then
       Js.Math_round
         (inject_Z (Z.of_nat index * Combiner.quarterWidth dims)
          + inject_Z (Combiner.quarterWidth dims) / 2
          - inject_Z (Combiner.imageWidth dims) / 2)
     else
       Z.of_nat index * (Combiner.imageWidth dims + Combiner.spacing options)
       + Combiner.spacing options).


(** The string has neither [<] nor [>]. *)
Fixpoint noAngle (s : string) : bool :=
  match s with
  | EmptyString => true
  | String c s' => negb (Ascii.eqb c "<") && negb (Ascii.eqb c ">") && noAngle s'
  end.

Definition isSingleLine (maxLines : Combiner.MaxLines) : bool :=
  match maxLines with
  | Combiner.Lines1 => true
  | Combiner.Lines2 => false
  end.


Definition startsWithSpace (s : string) : bool :=
  match s with
  | String c _ => Ascii.eqb c " "
  | EmptyString => false
  end.

(** The line is longer than [maxCharsPerLine]. *)
Definition tooLong (maxCharsPerLine : Js.num) (line : string) : bool :=
  Js.length_gt (String.length line) maxCharsPerLine.


(** The framed screenshot [e] loads as [image]. *)
Definition loadsAs (options : Combiner.CombineOptions) (e : Combiner.DirEntry)
    (image : Combiner.FramedImage) : Prop :=
  Combiner.loadFramedImage (scaleFactorOf options) (Combiner.framed e) = inr image.

(** The SVG of the title can be parsed: its lines and the two colours
    hold no character that breaks the document. *)
Definition titleParses (options : Combiner.CombineOptions) (svg : Combiner.TitleSvg)
    : Prop :=
  Sharp.xml_text (Combiner.line1 svg) = true
  /\ Sharp.xml_text (Combiner.line2 svg) = true
  /\ Sharp.plain_text (Combiner.titleColor options) = true
  /\ Sharp.plain_text (Combiner.titleShadowColor options) = true.

(** The SVG rendered for the title [text] of a slot. *)
Definition titleSvgOf (options : Combiner.CombineOptions)
    (dims : Combiner.CanvasDimensions) (text : string) : Combiner.TitleSvg :=
  Combiner.generateTitleSvg text (Combiner.titleFontSize options)
    (Combiner.titleShadowOffset options) (Combiner.imageWidth dims)
    (if singleLine options then Combiner.Lines1 else Combiner.Lines2).

(** What [combineScreenshots] needs to succeed.
    - The background can be read and a framed screenshot is found.
    - Every [framed.png] found loads, to an image of positive size.
    - The offset of the image row, [spacing + titleFontSize * 1.2 * lines
      + titleSpacing], is an integer.
    - The title of every slot in use is a string whose SVG parses, has a
      positive height and is no larger than the canvas.
    - No framed image is larger than the canvas.
    - The canvas is within the pixel limit. *)
Definition combinable (disk : Combiner.Disk) (options : Combiner.CombineOptions) : Prop :=
  exists bgWidth bgHeight images dims,
    Combiner.background disk = Some (bgWidth, bgHeight)
    /\ (0 < length (foundFor disk options))%nat
    /\ Forall2 (loadsAs options) (foundFor disk options) images
    /\ Combiner.calculateCanvasDimensions images (Combiner.spacing options) bgWidth bgHeight
         (Combiner.titleFontSize options) (Combiner.titleSpacing options)
         (Combiner.centerInQuarters options) (singleLine options) = Some dims
    /\ Sharp.is_integer (inject_Z (Combiner.spacing options) + layoutHeightOf options) = true
    /\ (forall k, (k < length images)%nat ->
          exists text,
            titleTextAt (Combiner.finalTitles disk options) k = Combiner.JStr text
            /\ titleParses options (titleSvgOf options dims text)
            /\ 0 < Combiner.svgWidth (titleSvgOf options dims text)
                 <= Combiner.canvasWidth dims
            /\ 0 < Combiner.svgHeight (titleSvgOf options dims text)
                 <= Combiner.canvasHeight dims)
    /\ Forall (fun image =>
                 0 < Combiner.fi_width image <= Combiner.canvasWidth dims
                 /\ 0 < Combiner.fi_height image <= Combiner.canvasHeight dims)
              images
    /\ Combiner.canvasWidth dims * Combiner.canvasHeight dims <= Sharp.INPUT_PIXEL_LIMIT.

(** The composite [combineScreenshots] hands to the library: the canvas,
    the title layers and the image layers. *)
Definition compositeOf (options : Combiner.CombineOptions)
    (dims : Combiner.CanvasDimensions) (bgWidth bgHeight : Z)
    (titleOps : list Combiner.Layer) (images : list Combiner.FramedImage)
    : Combiner.Composite :=
  Combiner.mkComposite (Combiner.deviceType options) (Combiner.locale options)
    (Combiner.canvasWidth dims) (Combiner.canvasHeight dims)
    ((bgWidth <? Combiner.canvasWidth dims) || (bgHeight <? Combiner.canvasHeight dims))
    (titleOps ++ imap (Combiner.imageLayer options dims (layoutHeightOf options)) images).

(** The library accepts the composite. *)
Definition accepted (options : Combiner.CombineOptions) (c : Combiner.Composite) : bool :=
  (negb (Combiner.backgroundResized c)
   || Sharp.resizes (Combiner.c_width c) (Combiner.c_height c))
  && forallb Sharp.integer_offsets (map (Combiner.overlayOf options) (Combiner.layers c))
  && Sharp.composites (Combiner.c_width c) (Combiner.c_height c)
       (map (Combiner.overlayOf options) (Combiner.layers c))
  && Sharp.opens (Combiner.c_width c) (Combiner.c_height c).


(** The default settings with a title font size of 28. *)
Definition fontSize28 (deviceType : DeviceType) (locale : string)
    : Combiner.CombineOptions :=
  let o := Combiner.defaultOptions deviceType locale in
  Combiner.mkCombineOptions (Combiner.spacing o) (Combiner.deviceType o)
    (Combiner.locale o) (Combiner.titles o) 28
    (Combiner.titleColor o) (Combiner.titleShadowColor o) (Combiner.titleShadowOffset o)
    (Combiner.titleSpacing o) (Combiner.centerInQuarters o)
    (Combiner.iPhoneScaleFactor o) (Combiner.iPadScaleFactor o).

(** A disk whose second framed image, 3000 x 6000, is larger than the
    canvas sized from the first, 100 x 100, and the background. *)
Definition laterImageLarger : Combiner.Disk :=
  Combiner.mkDisk (fun _ => Combiner.Missing) (Some (2580, 1398))
    (fun _ _ =>
       Some [Combiner.mkDirEntry "slot_1" (Some true) (Combiner.Image 100 100);
             Combiner.mkDirEntry "slot_2" (Some true) (Combiner.Image 3000 6000)]).

(** A disk like [diskWith 4] whose translation file for every locale is
    the given object. *)
Definition diskWithTitles (m : gmap string Combiner.json) : Combiner.Disk :=
  Combiner.mkDisk (translationsOf m) (Some (2580, 1398)) (fun _ _ => Some (framedSlots 4)).


(** The entry is a slot directory with a [framed.png]. *)
Definition qualifies (e : Combiner.DirEntry) : bool :=
  default false (Combiner.stat e)
  && Str.startsWith "slot_" (Combiner.entryName e)
  && Combiner.accessible (Combiner.framed e).

(** [fs.stat] resolves for every entry of the directory. *)
Definition allStatsResolve (slotDirs : list Combiner.DirEntry) : Prop :=
  Forall (fun e => is_Some (Combiner.stat e)) slotDirs.

(** The slot number of an entry whose name parses, [0] otherwise. *)
Definition slotNumberOf (e : Combiner.DirEntry) : Z := default 0 (Combiner.slotOf e).

(** The string has no dot. *)
Fixpoint dotFree (s : string) : bool :=
  match s with
  | EmptyString => true
  | String c s' => negb (Ascii.eqb c ".") && dotFree s'
  end.

(** Every translation file is named [<base>.json] for a [base] without
    dot. *)
Definition plainTranslationNames (entries : list Locales.Dirent) : Prop :=
  forall e,
    In e entries ->
    Locales.isFile e = true ->
    Locales.endsWith ".json" (Locales.name e) = true ->
    exists base, Locales.name e = base +:+ ".json" /\ dotFree base = true.


(** ** Paths of the input tree *)

(** [entry] is listed under [name] in [dir]. *)
Definition child (dir : Scan.Dir) (name : string) (entry : Scan.Entry) : Prop :=
  match dir with
  | Scan.Listing entries => In (name, entry) entries
  | Scan.Unreadable => False
  end.

(** Following the segments of [p] from [dir] through directories, none
    of them named [output], ends at [target]. *)
Fixpoint descends (dir : Scan.Dir) (p : Scan.Path) (target : Scan.Dir) : Prop :=
  match p with
  | [] => dir = target
  | name :: rest =>
      name <> "output"
      /\ exists d, child dir name (Scan.Sub d) /\ descends d rest target
  end.

Definition isPngName (name : string) : bool :=
  Locales.endsWith ".png" (Str.toLowerCase name).

(** A small input tree: a screenshot, an earlier result under [output],
    a text file and a directory that cannot be read. *)
Definition inputTree : Scan.Dir :=
  Scan.Listing
    [("iphone", Scan.Sub (Scan.Listing
        [("en", Scan.Sub (Scan.Listing
            [("Home.PNG", Scan.File); ("notes.txt", Scan.File)]));
         ("output", Scan.Sub (Scan.Listing [("framed.png", Scan.File)]));
         ("locked", Scan.Sub Scan.Unreadable)]))].

(** ** Directories the cleanup can remove *)

Definition gone (r : Cleanup.FsResult) : Prop :=
  r = Cleanup.Resolves \/ r = Cleanup.Rejects "ENOENT".

(** Neither call rejects with anything but [ENOENT]; [fs.rm] is only
    called when [fs.access] resolves. *)
Definition cleanable (d : Cleanup.Directory) : Prop :=
  gone (Cleanup.access d) /\ (Cleanup.access d = Cleanup.Resolves -> gone (Cleanup.rm d)).


(** The directory a line of the cleanup names. *)
Definition lineDir (l : Cleanup.Line) : string :=
  match l with
  | Cleanup.Deleted d | Cleanup.AlreadyClean d | Cleanup.ErrorDeleting d => d
  end.

(** * Properties *)

(** Equality of two explicit lists of integers, entry by entry. *)
Ltac solve_list_eq :=
  repeat (apply (f_equal2 cons); [lia|]); first [reflexivity | lia].

(** ** The effect monad *)

(** Every item is tried up to the first that throws. *)
Lemma for_each_first_failure {W A : Type} (body : A -> Eff.eff W unit) (xs : list A) :
  (exists done failing rest msg,
     xs = done ++ failing :: rest
     /\ (forall x, In x done -> Eff.outcome (body x) = inr tt)
     /\ Eff.outcome (body failing) = inl msg
     /\ Eff.for_each body xs
        = (concat (map (fun x => Eff.written (body x)) done) ++ Eff.written (body failing),
           inl msg))
  \/ ((forall x, In x xs -> Eff.outcome (body x) = inr tt)
      /\ Eff.for_each body xs = (concat (map (fun x => Eff.written (body x)) xs), inr tt)).
Proof.
  induction xs as [|x xs IH].
  - right. split; [intros x []|reflexivity].
  - destruct (body x) as [ws [e|[]]] eqn:Hx.
    + left. exists [], x, xs, e.
      split; [reflexivity|]. split; [intros y []|].
      split; [rewrite Hx; reflexivity|].
      cbn [Eff.for_each map concat app]. rewrite Hx. reflexivity.
    + destruct IH as [(done & failing & rest & msg & -> & Hdone & Hfail & Hrun)|[Hall Hrun]].
      * left. exists (x :: done), failing, rest, msg.
        split; [reflexivity|]. split.
        { intros y [<-|Hy]; [rewrite Hx; reflexivity | apply Hdone; exact Hy]. }
        split; [exact Hfail|].
        cbn [Eff.for_each map concat]. rewrite Hx, Hrun. cbn [Eff.bind Eff.written fst].
        rewrite app_assoc. reflexivity.
      * right. split.
        { intros y [<-|Hy]; [rewrite Hx; reflexivity | apply Hall; exact Hy]. }
        cbn [Eff.for_each map concat]. rewrite Hx, Hrun. reflexivity.
Qed.

(** ** The rules of the bitmap library *)

Lemma is_integer_inject_Z (z : Z) : Sharp.is_integer (inject_Z z) = true.
Proof.
  unfold Sharp.is_integer. rewrite Qfloor_Z. apply Qeq_bool_iff. reflexivity.
Qed.

Lemma opens_spec (w h : Z) :
  Sharp.opens w h = true <-> 0 < w /\ 0 < h /\ w * h <= Sharp.INPUT_PIXEL_LIMIT.
Proof.
  unfold Sharp.opens. rewrite !andb_true_iff, !Z.ltb_lt, Z.leb_le. tauto.
Qed.

Lemma resizes_spec (w h : Z) : Sharp.resizes w h = true <-> 0 < w /\ 0 < h.
Proof. unfold Sharp.resizes. rewrite andb_true_iff, !Z.ltb_lt. tauto. Qed.

Lemma accepts_spec (W H : Z) (o : Sharp.Overlay) :
  Sharp.accepts W H o = true
  <-> Sharp.wellFormed o = true
      /\ 0 < Sharp.o_width o <= W
      /\ 0 < Sharp.o_height o <= H
      /\ Sharp.o_width o * Sharp.o_height o <= Sharp.INPUT_PIXEL_LIMIT.
Proof.
  unfold Sharp.accepts. rewrite !andb_true_iff, opens_spec, !Z.leb_le. tauto.
Qed.

(** ** Framer *)

Lemma marginOf_merge (caller : Framer.PartialFrameSettings) :
  marginOf (Framer.mergeSettings caller) = specMargin caller.
Proof.
  unfold marginOf, specMargin, Framer.mergeSettings. cbn [Framer.edgeMargin Framer.screenshotOffset].
  destruct (Framer.p_edgeMargin caller) as [[m|]|]; try reflexivity.
  destruct (Framer.p_screenshotOffset caller); reflexivity.
Qed.

(** A readable screenshot is framed exactly when it can be framed with
    the margin of the merged settings. *)
Lemma frameScreenshot_cases (inputs : Framer.Screenshots) (options : Framer.FrameOptions)
    (w h : Z) :
  inputs (Framer.inputPath options) = Some (w, h) ->
  let frameSettings := Framer.mergeSettings (Framer.settings options) in
  let m := marginOf frameSettings in
  let framed :=
    Framer.mkFramed (w + m * 2) (h + m * 2)
      (Framer.getScreenshotOffset (Framer.deviceType options) w h true frameSettings)
      (Framer.getScreenshotOffset (Framer.deviceType options) w h false frameSettings)
      (w + m * 2) (h + m * 2) (0 <? Framer.imageBorderRadius frameSettings) in
  (frameableWith w h m ->
   Framer.frameScreenshot inputs options
   = ([(Framer.inputPath options, framed)], inr framed))
  /\ (~ frameableWith w h m ->
      exists msg, Framer.frameScreenshot inputs options = ([], inl msg)).
Proof.
  intros Hread frameSettings m framed.
  unfold Framer.frameScreenshot. rewrite Hread. fold frameSettings.
  unfold Framer.createDeviceBackground, Framer.createDeviceBezels.
  fold (marginOf frameSettings). fold m.
  cbn [Framer.frameWidth Framer.frameHeight Framer.canvasWidth Framer.canvasHeight
       Framer.bezelWidth Framer.bezelHeight Framer.shotTop Framer.shotLeft Framer.rounded].
  unfold Sharp.composites, Sharp.integer_offsets.
  cbn [forallb Sharp.o_top Sharp.o_left].
  rewrite !is_integer_inject_Z.
  change (Sharp.is_integer 0) with true. cbn [andb].
  rewrite !andb_true_r.
  destruct (Sharp.accepts w h (Sharp.mkOverlay true w h 0 0)) eqn:Hmask.
  - apply accepts_spec in Hmask. cbn [Sharp.o_width Sharp.o_height] in Hmask.
    destruct Hmask as (_ & Hw & Hh & Hpix).
    rewrite andb_false_r.
    destruct (Sharp.opens (w + m * 2) (h + m * 2)) eqn:Hopen.
    + apply opens_spec in Hopen. destruct Hopen as (Hcw & Hch & Hcpix).
      cbn [negb].
      destruct (Sharp.accepts (w + m * 2) (h + m * 2) (Sharp.mkOverlay true w h _ _))
        eqn:Hshot.
      * apply accepts_spec in Hshot. cbn [Sharp.o_width Sharp.o_height] in Hshot.
        assert (Sharp.accepts (w + m * 2) (h + m * 2)
                  (Sharp.mkOverlay true (w + m * 2) (h + m * 2) 0 0) = true) as ->.
        { apply accepts_spec. cbn [Sharp.o_width Sharp.o_height Sharp.wellFormed].
          repeat split; lia. }
        cbn [andb negb]. split; [intros _; reflexivity|].
        intros Hnot. exfalso. apply Hnot. unfold frameableWith.
        replace (w + 2 * m) with (w + m * 2) by lia.
        replace (h + 2 * m) with (h + m * 2) by lia.
        repeat split; lia.
      * cbn [andb negb]. split; [|eauto].
        intros (_ & _ & Hm & Hlim). exfalso.
        assert (Sharp.accepts (w + m * 2) (h + m * 2)
                  (Sharp.mkOverlay true w h
                     (inject_Z (Framer.getScreenshotOffset (Framer.deviceType options) w h
                                  true frameSettings))
                     (inject_Z (Framer.getScreenshotOffset (Framer.deviceType options) w h
                                  false frameSettings))) = true) as Hyes.
        { apply accepts_spec. cbn [Sharp.o_width Sharp.o_height Sharp.wellFormed].
          repeat split; lia. }
        congruence.
    + cbn [negb]. split; [|eauto].
      intros (Hw' & Hh' & Hm & Hlim). exfalso.
      assert (Sharp.opens (w + m * 2) (h + m * 2) = true) as Hyes.
      { apply opens_spec.
        replace (w + m * 2) with (w + 2 * m) by lia.
        replace (h + m * 2) with (h + 2 * m) by lia.
        repeat split; lia. }
      congruence.
  - assert (~ frameableWith w h m) as Hnot.
    { intros (Hw & Hh & Hm & Hlim).
      assert (Sharp.accepts w h (Sharp.mkOverlay true w h 0 0) = true) as Hyes.
      { apply accepts_spec. cbn [Sharp.o_width Sharp.o_height Sharp.wellFormed].
        repeat split; try lia; unfold Sharp.INPUT_PIXEL_LIMIT in *; nia. }
      congruence. }
    destruct (0 <? Framer.imageBorderRadius frameSettings) eqn:Hround; cbn [andb negb].
    + split; [tauto | eauto].
    + split; [tauto|].
      intros _.
      destruct (Sharp.opens (w + m * 2) (h + m * 2)) eqn:Hopen; cbn [negb]; [|eauto].
      assert (Sharp.accepts (w + m * 2) (h + m * 2)
                (Sharp.mkOverlay true w h
                   (inject_Z (Framer.getScreenshotOffset (Framer.deviceType options) w h
                                true frameSettings))
                   (inject_Z (Framer.getScreenshotOffset (Framer.deviceType options) w h
                                false frameSettings))) = false) as ->; [|cbn [andb negb]; eauto].
      apply not_true_is_false. intros Hshot. apply accepts_spec in Hshot.
      cbn [Sharp.o_width Sharp.o_height] in Hshot.
      apply not_true_iff_false in Hmask. apply Hmask, accepts_spec.
      cbn [Sharp.o_width Sharp.o_height Sharp.wellFormed]. repeat split; lia.
Qed.

(** C6. For a readable [w] x [h] screenshot and the margin [m] the
    caller's settings ask for ([edgeMargin] when set, else the left
    screenshot offset): when the screenshot has a positive size, [m] is not
    negative and the framed image is within the pixel limit, the framer
    writes one image whose canvas is [(w + 2 m) x (h + 2 m)]; for a
    negative margin it throws and writes nothing. *)
Theorem framer_canvas_size :
  forall (inputs : Framer.Screenshots) (options : Framer.FrameOptions) (w h : Z),
    inputs (Framer.inputPath options) = Some (w, h) ->
    let m := specMargin (Framer.settings options) in
    (frameableWith w h m ->
     exists framed,
       Framer.frameScreenshot inputs options
         = ([(Framer.inputPath options, framed)], inr framed)
       /\ Framer.canvasWidth framed = w + 2 * m
       /\ Framer.canvasHeight framed = h + 2 * m)
    /\ (m < 0 ->
        exists msg, Framer.frameScreenshot inputs options = ([], inl msg)).
Proof.
  intros inputs options w h Hread m.
  destruct (frameScreenshot_cases inputs options w h Hread) as [Hok Hfail].
  rewrite marginOf_merge in Hok, Hfail. fold m in Hok, Hfail. split.
  - intros Hvalid. eexists. split; [exact (Hok Hvalid)|].
    cbn [Framer.canvasWidth Framer.canvasHeight]. lia.
  - intros Hneg. apply Hfail. intros (_ & _ & Hm & _). lia.
Qed.

(** The scenario of C6: a 1170 x 2532 screenshot framed with
    [edgeMargin = 30] gives a 1230 x 2592 image; with [edgeMargin = 45] it
    gives a 1260 x 2622 image, and with [edgeMargin = -5] none. *)
Lemma framer_canvas_size_witness :
  (exists framed,
     Framer.frameScreenshot shot1170 frameWithMargin30
       = ([(Framer.inputPath frameWithMargin30, framed)], inr framed)
     /\ Framer.canvasWidth framed = 1230
     /\ Framer.canvasHeight framed = 2592)
  /\ (exists framed,
        Framer.frameScreenshot shot1170 frameWithMargin45
          = ([(Framer.inputPath frameWithMargin45, framed)], inr framed)
        /\ Framer.canvasWidth framed = 1260
        /\ Framer.canvasHeight framed = 2622)
  /\ (exists msg, Framer.frameScreenshot shot1170 frameWithNegativeMargin = ([], inl msg)).
Proof.
  split; [|split].
  - destruct (framer_canvas_size shot1170 frameWithMargin30 1170 2532 eq_refl)
      as [Hok _].
    destruct Hok as (framed & Hrun & Hw & Hh);
      [unfold frameableWith; vm_compute; repeat split; discriminate|].
    exists framed. split; [exact Hrun|]. split; [exact Hw | exact Hh].
  - destruct (framer_canvas_size shot1170 frameWithMargin45 1170 2532 eq_refl)
      as [Hok _].
    destruct Hok as (framed & Hrun & Hw & Hh);
      [unfold frameableWith; vm_compute; repeat split; discriminate|].
    exists framed. split; [exact Hrun|]. split; [exact Hw | exact Hh].
  - destruct (framer_canvas_size shot1170 frameWithNegativeMargin 1170 2532 eq_refl)
      as [_ Hfail].
    apply Hfail. reflexivity.
Defined.

(** ** Splitter *)

Lemma Math_round_ratio (a b : Z) (p : positive) :
  Js.Math_round (inject_Z a * (inject_Z b / inject_Z (Z.pos p)))
  = (2 * (a * b) + Z.pos p) / (2 * Z.pos p).
Proof.
  unfold Js.Math_round, Qfloor, Qplus, Qdiv, Qmult, Qinv, inject_Z; simpl.
  f_equal; lia.
Qed.

(** The four slot files of a device config. *)
Lemma processDeviceConfig_cases (W H : Z) (cfg : Splitter.DeviceConfig) (l : string) :
  let T := Splitter.width cfg in
  let resizedHeight :=
    Js.Math_round (inject_Z (T * 4) * (inject_Z H / inject_Z W)) in
  let cropped := Splitter.height cfg <? resizedHeight in
  let finalHeight := if cropped then Splitter.height cfg else resizedHeight in
  let files :=
    map (fun i =>
           Splitter.mkSlotFile cfg l (i + 1) (T * 4) resizedHeight
             (if cropped then Some (Splitter.mkRect 0 0 (T * 4) (Splitter.height cfg))
              else None)
             (Splitter.mkRect (i * T) 0 T finalHeight))
        [0; 1; 2; 3] in
  let served :=
    0 < T /\ 0 < resizedHeight /\ 0 < Splitter.height cfg
    /\ T * finalHeight <= Sharp.INPUT_PIXEL_LIMIT in
  (served /\ Splitter.processDeviceConfig W H cfg l = (files, inr tt))
  \/ (~ served /\ exists msg, Splitter.processDeviceConfig W H cfg l = ([], inl msg)).
Proof.
  intros T rh cropped fh files served. subst files.
  unfold Splitter.processDeviceConfig. fold T. fold rh. fold cropped. fold fh.
  destruct (Sharp.resizes (T * 4) rh) eqn:Hres; cbn [negb].
  2: { right. split; [|eauto]. intros (HT & Hrh & _).
       apply not_true_iff_false in Hres. apply Hres, resizes_spec. lia. }
  apply resizes_spec in Hres. destruct Hres as [HT Hrh].
  destruct (cropped && negb (0 <=? Splitter.height cfg)) eqn:Hcrop.
  { right. split; [|eauto]. intros (_ & _ & Hh & _).
    apply andb_true_iff in Hcrop. destruct Hcrop as [_ Hneg].
    apply negb_true_iff, Z.leb_gt in Hneg. lia. }
  assert (fh <= rh) as Hfh.
  { subst fh cropped. destruct (Splitter.height cfg <? rh) eqn:E; [apply Z.ltb_lt in E|]; lia. }
  destruct (Z_lt_ge_dec 0 fh) as [Hpos|Hnonpos].
  - destruct (Z_le_gt_dec (T * fh) Sharp.INPUT_PIXEL_LIMIT) as [Hpix|Hpix].
    + left. split.
      * unfold served. repeat split; try lia.
        subst fh cropped. destruct (Splitter.height cfg <? rh) eqn:E;
          [lia | apply Z.ltb_ge in E; lia].
      * assert (forall i, 0 <= i <= 3 ->
                  Sharp.extracts (T * 4) rh (i * T) 0 T fh = true) as Hext.
        { intros i Hi. unfold Sharp.extracts.
          rewrite !andb_true_iff, !Z.leb_le, !Z.ltb_lt. repeat split; nia. }
        assert (Sharp.opens T fh = true) as Hopen by (apply opens_spec; lia).
        cbn [Eff.for_each map]. rewrite !Hext by lia. rewrite Hopen. reflexivity.
    + right. split; [unfold served; lia|].
      assert (Sharp.extracts (T * 4) rh (0 * T) 0 T fh = true) as Hext.
      { unfold Sharp.extracts.
        rewrite !andb_true_iff, !Z.leb_le, !Z.ltb_lt. repeat split; nia. }
      assert (Sharp.opens T fh = false) as Hopen.
      { apply not_true_is_false. rewrite opens_spec. lia. }
      cbn [Eff.for_each]. rewrite Hext, Hopen. cbn. eauto.
  - right. split.
    + unfold served. intros (_ & _ & Hh & _).
      subst fh cropped. destruct (Splitter.height cfg <? rh); lia.
    + assert (Sharp.extracts (T * 4) rh (0 * T) 0 T fh = false) as Hext.
      { apply not_true_is_false. unfold Sharp.extracts.
        rewrite !andb_true_iff, !Z.leb_le, !Z.ltb_lt. lia. }
      cbn [Eff.for_each]. rewrite Hext. cbn. eauto.
Qed.

(** What [processDeviceConfig] writes is nothing or the four slots of the
    config. *)
Lemma processDeviceConfig_writes (W H : Z) (cfg : Splitter.DeviceConfig) (l : string) :
  (Eff.written (Splitter.processDeviceConfig W H cfg l) = []
   /\ exists msg, Eff.outcome (Splitter.processDeviceConfig W H cfg l) = inl msg)
  \/ (Eff.outcome (Splitter.processDeviceConfig W H cfg l) = inr tt
      /\ fourSlots cfg l (Eff.written (Splitter.processDeviceConfig W H cfg l))).
Proof.
  destruct (processDeviceConfig_cases W H cfg l)
    as [[(HT & _) Hrun]|[_ [msg Hrun]]]; rewrite Hrun.
  - right. split; [reflexivity|]. unfold fourSlots, Eff.written.
    cbn [fst map Splitter.config Splitter.sf_locale Splitter.slotNumber
         Splitter.resizedWidth Splitter.extract Splitter.r_left Splitter.r_width
         tiles sumZ fold_right].
    split; [repeat constructor|].
    split; [solve_list_eq|]. split; [solve_list_eq|]. split; [solve_list_eq|].
    split; [solve_list_eq|]. split; [repeat split; lia|]. split; [lia|].
    repeat constructor; simpl; lia.
  - left. split; [reflexivity | exists msg; reflexivity].
Qed.

(** A valid config is served. *)
Lemma processDeviceConfig_valid (W H : Z) (cfg : Splitter.DeviceConfig) (l : string) :
  0 < W -> 0 < H -> validConfig W H cfg ->
  Eff.outcome (Splitter.processDeviceConfig W H cfg l) = inr tt.
Proof.
  intros HW HH (HT & Hh & Hflat & Hpix).
  destruct (processDeviceConfig_cases W H cfg l) as [[_ ->]|[Hnot _]]; [reflexivity|].
  exfalso. apply Hnot. clear Hnot. cbv zeta.
  destruct W as [|p|p]; try lia. rewrite !Math_round_ratio.
  set (T := Splitter.width cfg) in *.
  set (rh := (2 * (T * 4 * H) + Z.pos p) / (2 * Z.pos p)).
  assert (1 <= rh) as Hrh.
  { apply Z.div_le_lower_bound; lia. }
  split; [exact HT|]. split; [lia|]. split; [exact Hh|].
  destruct (Splitter.height cfg <? rh) eqn:E; [exact Hpix|].
  apply Z.ltb_ge in E. unfold Sharp.INPUT_PIXEL_LIMIT in *. nia.
Qed.

Lemma filteredConfigs_spec (options : Splitter.SplitterOptions) (cfg : Splitter.DeviceConfig) :
  In cfg (Splitter.filteredConfigs options) <-> selected options cfg.
Proof.
  unfold Splitter.filteredConfigs, selected.
  destruct (Splitter.deviceType options); rewrite filter_In; reflexivity.
Qed.

(** An image of at least 1000 x 1000 passes the checks: what remains is
    the loop over the selected device configs. *)
Lemma splitScreenshots_accepts (disk : Splitter.Combined)
    (options : Splitter.SplitterOptions) (W H : Z) :
  disk (Splitter.deviceType options) (Splitter.locale options)
    = Some (Splitter.mkMetadata (Some W) (Some H)) ->
  1000 <= W ->
  1000 <= H ->
  Splitter.splitScreenshots disk options
  = Eff.for_each
      (fun cfg => Splitter.processDeviceConfig W H cfg (Splitter.locale options))
      (Splitter.filteredConfigs options).
Proof.
  intros Hdisk HW HH.
  unfold Splitter.splitScreenshots. rewrite Hdisk. simpl.
  assert ((W =? 0) = false) as -> by lia.
  assert ((H =? 0) = false) as -> by lia.
  assert ((W <? 1000) = false) as -> by lia.
  assert ((H <? 1000) = false) as -> by lia.
  reflexivity.
Qed.

(** With every selected config valid, the splitter succeeds and writes
    the slot files of the selected configs, config after config. *)
Lemma splitScreenshots_valid (disk : Splitter.Combined)
    (options : Splitter.SplitterOptions) (W H : Z) :
  disk (Splitter.deviceType options) (Splitter.locale options)
    = Some (Splitter.mkMetadata (Some W) (Some H)) ->
  1000 <= W ->
  1000 <= H ->
  (forall cfg, selected options cfg -> validConfig W H cfg) ->
  Splitter.splitScreenshots disk options
  = (concat (map (fun cfg =>
                    Eff.written
                      (Splitter.processDeviceConfig W H cfg (Splitter.locale options)))
                 (Splitter.filteredConfigs options)),
     inr tt).
Proof.
  intros Hdisk HW HH Hvalid.
  rewrite (splitScreenshots_accepts disk options W H Hdisk HW HH).
  destruct (for_each_first_failure
              (fun cfg => Splitter.processDeviceConfig W H cfg (Splitter.locale options))
              (Splitter.filteredConfigs options))
    as [(done & failing & rest & msg & Hsplit & _ & Hfail & _)|[_ Hrun]]; [|exact Hrun].
  exfalso.
  rewrite (processDeviceConfig_valid W H failing (Splitter.locale options)) in Hfail;
    [discriminate | lia | lia |].
  apply Hvalid, filteredConfigs_spec. rewrite Hsplit. apply in_elt.
Qed.

(** C5. For a combined image of at least 1000 x 1000, what the splitter
    writes for a device config of target width [T] is nothing (when the
    library rejects the config) or the four slots taken from the composite
    resized to width [4 T]: each [T] wide, at left offsets [0], [T], [2 T],
    [3 T], tiling [0, 4 T) without gap or overlap, with widths that add up
    to [4 T], none reaching beyond the resized image. A valid config gets
    its four slots; when every selected config is valid the splitter
    succeeds and the slots of each selected config are among the files
    written. *)
Theorem splitter_slots_tile :
  forall (disk : Splitter.Combined) (options : Splitter.SplitterOptions) (W H : Z),
    disk (Splitter.deviceType options) (Splitter.locale options)
      = Some (Splitter.mkMetadata (Some W) (Some H)) ->
    1000 <= W ->
    1000 <= H ->
    (forall cfg : Splitter.DeviceConfig,
       let run := Splitter.processDeviceConfig W H cfg (Splitter.locale options) in
       (Eff.written run = []
        \/ fourSlots cfg (Splitter.locale options) (Eff.written run))
       /\ (validConfig W H cfg ->
           Eff.outcome run = inr tt
           /\ fourSlots cfg (Splitter.locale options) (Eff.written run)))
    /\ ((forall cfg, selected options cfg -> validConfig W H cfg) ->
        Eff.outcome (Splitter.splitScreenshots disk options) = inr tt
        /\ forall cfg,
             selected options cfg ->
             exists before files after,
               Eff.written (Splitter.splitScreenshots disk options)
               = before ++ files ++ after
               /\ fourSlots cfg (Splitter.locale options) files).
Proof.
  intros disk options W H Hdisk HW HH. split.
  - intros cfg run. subst run.
    destruct (processDeviceConfig_writes W H cfg (Splitter.locale options))
      as [[Hnone [msg Hmsg]]|[Hok Hfour]].
    + split; [left; exact Hnone|]. intros Hvalid.
      rewrite (processDeviceConfig_valid W H cfg (Splitter.locale options)) in Hmsg;
        [discriminate | lia | lia | exact Hvalid].
    + split; [right; exact Hfour|]. intros _. split; assumption.
  - intros Hvalid.
    rewrite (splitScreenshots_valid disk options W H Hdisk HW HH Hvalid).
    split; [reflexivity|]. intros cfg Hsel.
    apply filteredConfigs_spec, in_split in Hsel. destruct Hsel as (l1 & l2 & Hsplit).
    rewrite Hsplit, map_app, concat_app. cbn [map concat].
    eexists _, _, _. split; [reflexivity|].
    destruct (processDeviceConfig_writes W H cfg (Splitter.locale options))
      as [[_ [msg Hmsg]]|[_ Hfour]]; [|exact Hfour].
    rewrite (processDeviceConfig_valid W H cfg (Splitter.locale options)) in Hmsg;
      [discriminate | lia | lia |].
    apply Hvalid, filteredConfigs_spec. rewrite Hsplit. apply in_elt.
Qed.

(** The scenario of the specification: a 5000 x 9000 composite split for
    the iPhone configs. *)
Lemma splitter_slots_tile_witness :
  Eff.outcome (Splitter.splitScreenshots (combinedOf 5000 9000) splitIphoneEn) = inr tt
  /\ map (fun f => (Splitter.resizedWidth f, Splitter.r_left (Splitter.extract f),
                    Splitter.r_width (Splitter.extract f)))
         (Eff.written (Splitter.splitScreenshots (combinedOf 5000 9000) splitIphoneEn))
     = [(4968, 0, 1242); (4968, 1242, 1242); (4968, 2484, 1242); (4968, 3726, 1242);
        (5280, 0, 1320); (5280, 1320, 1320); (5280, 2640, 1320); (5280, 3960, 1320)].
Proof.
  destruct (splitter_slots_tile (combinedOf 5000 9000) splitIphoneEn 5000 9000
              eq_refl ltac:(lia) ltac:(lia)) as [_ Hrun].
  destruct Hrun as [Hok _].
  - intros cfg [Hin _]. unfold validConfig.
    destruct Hin as [<-|[<-|[<-|[]]]]; vm_compute; repeat split; discriminate.
  - split; [exact Hok | vm_compute; reflexivity].
Defined.

(** C8. A combined image with a missing or zero dimension, or with a
    width or height below 1000, makes [splitScreenshots] throw before
    anything is written. An image of at least 1000 x 1000 passes the
    check: the splitter goes on to the loop over the selected device
    configs, and succeeds when each of them is valid. *)
Theorem splitter_minimum_size :
  forall (disk : Splitter.Combined) (options : Splitter.SplitterOptions)
         (metadata : Splitter.Metadata),
    disk (Splitter.deviceType options) (Splitter.locale options) = Some metadata ->
    (below_minimum metadata ->
     exists msg, Splitter.splitScreenshots disk options = ([], inl msg))
    /\ (~ below_minimum metadata ->
        exists W H,
          metadata = Splitter.mkMetadata (Some W) (Some H)
          /\ Splitter.splitScreenshots disk options
             = Eff.for_each
                 (fun cfg =>
                    Splitter.processDeviceConfig W H cfg (Splitter.locale options))
                 (Splitter.filteredConfigs options)
          /\ ((forall cfg, selected options cfg -> validConfig W H cfg) ->
              Eff.outcome (Splitter.splitScreenshots disk options) = inr tt)).
Proof.
  intros disk options [[W|] [H|]] Hdisk; unfold below_minimum; simpl.
  - split.
    + intros Hlow. unfold Splitter.splitScreenshots. rewrite Hdisk. simpl.
      destruct (W =? 0) eqn:HW0; simpl; [eauto|].
      destruct (H =? 0) eqn:HH0; simpl; [eauto|].
      assert (((W <? 1000) || (H <? 1000))%bool = true) as ->; [|eauto].
      apply orb_true_iff. lia.
    + intros Hok. exists W, H. split; [reflexivity|].
      split; [apply splitScreenshots_accepts; [exact Hdisk | lia | lia]|].
      intros Hvalid.
      rewrite (splitScreenshots_valid disk options W H Hdisk) by (lia || exact Hvalid).
      reflexivity.
  - split; [|tauto]. intros _. unfold Splitter.splitScreenshots. rewrite Hdisk. simpl.
    rewrite orb_true_r. eauto.
  - split; [|tauto]. intros _. unfold Splitter.splitScreenshots. rewrite Hdisk. eauto.
  - split; [|tauto]. intros _. unfold Splitter.splitScreenshots. rewrite Hdisk. eauto.
Qed.

(** A 999 x 2000 composite is rejected; a 1000 x 1000 one is split for
    the two iPhone configs. *)
Lemma splitter_minimum_size_witness :
  (exists msg,
     Splitter.splitScreenshots (combinedOf 999 2000) splitIphoneEn = ([], inl msg))
  /\ Eff.outcome (Splitter.splitScreenshots (combinedOf 1000 1000) splitIphoneEn)
     = inr tt.
Proof.
  split.
  - apply (splitter_minimum_size (combinedOf 999 2000) splitIphoneEn
             (Splitter.mkMetadata (Some 999) (Some 2000)) eq_refl).
    unfold below_minimum; simpl. lia.
  - destruct (splitter_minimum_size (combinedOf 1000 1000) splitIphoneEn
                (Splitter.mkMetadata (Some 1000) (Some 1000)) eq_refl) as [_ Hpass].
    destruct Hpass as (W & H & Hmeta & _ & Hok); [unfold below_minimum; simpl; lia|].
    injection Hmeta as <- <-. apply Hok.
    intros cfg [Hin _]. unfold validConfig.
    destruct Hin as [<-|[<-|[<-|[]]]]; vm_compute; repeat split; discriminate.
Defined.

(** ** The batch driver *)

Lemma fold_tally (rs : list bool) (t : Batch.Tally) :
  fold_left Batch.tally_one rs t
  = Batch.mkTally (Batch.processed t + successes rs) (Batch.failed t + failures rs)
      (Batch.results t ++ rs).
Proof.
  revert t. induction rs as [|r rs IH]; intros [p f res]; simpl.
  - unfold successes, failures; simpl. rewrite !Nat.add_0_r, app_nil_r. reflexivity.
  - rewrite IH. unfold successes, failures. destruct r; simpl;
      rewrite <- app_assoc; simpl; f_equal; lia.
Qed.

Lemma slice_drop {A} (items : list A) (i n : nat) :
  Batch.slice items i (i + n) ++ drop (i + n) items = drop i items.
Proof.
  unfold Batch.slice. replace (i + n - i)%nat with n by lia.
  rewrite <- drop_drop. apply take_drop.
Qed.

(** The chunked loop tallies every item from index [i] on, in order: no
    outcome of one item keeps another from being attempted. *)
Lemma batches_spec {Item} (attempt : Item -> bool) (B : positive)
    (items : list Item) (i : nat) (t : Batch.Tally) :
  Batch.batches attempt B items i t
  = fold_left Batch.tally_one (map attempt (drop i items)) t.
Proof.
  funelim (Batch.batches attempt B items i t).
  - match goal with
    | IH : Batch.batches _ _ _ _ _ = fold_left _ _ _ |- _ => rewrite IH
    end.
    rewrite <- (slice_drop items i (Pos.to_nat B)).
    rewrite map_app, fold_left_app. reflexivity.
  - rewrite drop_ge by lia. reflexivity.
Qed.

Lemma run_spec {Item} (attempt : Item -> bool) (B : positive) (items : list Item) :
  Batch.run attempt B items
  = Batch.mkTally (successes (map attempt items)) (failures (map attempt items))
      (map attempt items).
Proof.
  unfold Batch.run. rewrite batches_spec, fold_tally. reflexivity.
Qed.

Lemma failures_pos (rs : list bool) :
  (0 <? failures rs)%nat = true <-> In false rs.
Proof.
  unfold failures. induction rs as [|[] rs IH]; simpl.
  - split; [discriminate | tauto].
  - rewrite IH. split; [tauto | intros [H|H]; [discriminate | exact H]].
  - split; [tauto | reflexivity].
Qed.

Lemma exit_status_spec (rs : list bool) :
  let code := if (0 <? failures rs)%nat then 1 else 0 in
  (code = 1 <-> In false rs) /\ (code = 0 <-> ~ In false rs).
Proof.
  pose proof (failures_pos rs) as Hpos.
  destruct (0 <? failures rs)%nat; simpl; intuition (try discriminate).
Qed.

(** The combiner attempts every locale and exits with status 1 exactly
    when one of them failed. *)
Lemma combiner_main_exit (disk : Combiner.Disk) (locales : list string)
    (targetDevice : option DeviceType) :
  let results := map (Combiner.attempt disk targetDevice) locales in
  Batch.results (Batch.tally (Combiner.main disk locales targetDevice)) = results
  /\ (Batch.exitCode (Combiner.main disk locales targetDevice) = 1 <-> In false results)
  /\ (Batch.exitCode (Combiner.main disk locales targetDevice) = 0 <-> ~ In false results).
Proof.
  intros results. unfold Combiner.main. rewrite run_spec. fold results. simpl.
  split; [reflexivity|]. apply exit_status_spec.
Qed.

(** The splitter does the same over all locales. *)
Lemma splitter_main_exit (disk : Splitter.Combined) (allLocales : list string)
    (targetDevice : option DeviceType) :
  let results := map (Splitter.attempt disk targetDevice) allLocales in
  Batch.results (Batch.tally (Splitter.main disk allLocales None targetDevice)) = results
  /\ (Batch.exitCode (Splitter.main disk allLocales None targetDevice) = 1
      <-> In false results)
  /\ (Batch.exitCode (Splitter.main disk allLocales None targetDevice) = 0
      <-> ~ In false results).
Proof.
  intros results. unfold Splitter.main. rewrite run_spec. fold results. simpl.
  split; [reflexivity|]. apply exit_status_spec.
Qed.

(** The framer attempts every file as well. *)
Lemma framer_main_attempts_all (inputs : Framer.Screenshots)
    (files : list (string * DeviceType)) :
  Batch.results (Batch.tally (Framer.main inputs files))
  = map (Framer.attempt inputs) files.
Proof.
  unfold Framer.main. destruct files as [|f files]; [reflexivity|].
  rewrite run_spec. reflexivity.
Qed.

(** C4. The framer's batch run ends with exit status 0 whatever the
    number of failed files: with one unreadable screenshot it counts one
    failure and still exits with status 0, where the combiner and the
    splitter exit with status 1. *)
Theorem framer_main_exit_ignores_failures :
  (forall (inputs : Framer.Screenshots) (files : list (string * DeviceType)),
     Batch.exitCode (Framer.main inputs files) = 0)
  /\ Framer.main (fun _ => None)
       [("00_input/screenshots/iphone/en/slot_1/shot.png", iphone)]
     = Batch.mkExit (Batch.mkTally 0 1 [false]) 0.
Proof.
  split.
  - intros inputs [|f files]; reflexivity.
  - unfold Framer.main. rewrite run_spec. reflexivity.
Qed.

(** ** Combiner: canvas layout *)

Lemma Math_floor_div (a : Z) (p : positive) :
  Js.Math_floor (inject_Z a / inject_Z (Z.pos p)) = a / Z.pos p.
Proof.
  unfold Js.Math_floor, Qdiv, Qmult, Qinv, inject_Z; simpl.
  rewrite Z.mul_1_r. reflexivity.
Qed.

Lemma Qeq_div (a b : Z) (p : positive) :
  (inject_Z a == inject_Z b / inject_Z (Z.pos p))%Q <-> Z.pos p * a = b.
Proof.
  unfold Qeq, Qdiv, Qmult, Qinv, inject_Z; simpl. lia.
Qed.

Lemma calculateCanvasDimensions_some (framedImages : list Combiner.FramedImage)
    (spacing bgWidth bgHeight titleFontSize titleSpacing : Z)
    (centerInQuarters singleLineTitles : bool) :
  (0 < length framedImages)%nat ->
  exists dims,
    Combiner.calculateCanvasDimensions framedImages spacing bgWidth bgHeight
      titleFontSize titleSpacing centerInQuarters singleLineTitles = Some dims
    /\ Combiner.quarterWidth dims
       = Js.Math_floor (inject_Z (Combiner.canvasWidth dims)
                        / inject_Z (Z.of_nat (length framedImages)))
    /\ Combiner.canvasHeight dims
       = Z.max bgHeight
           (Combiner.imageHeight dims
            + Combiner.canvasTitleHeight titleFontSize titleSpacing singleLineTitles
            + spacing * 2).
Proof.
  intros Hne. destruct framedImages as [|first rest]; [simpl in Hne; lia|].
  eexists. split; [reflexivity|]. split; reflexivity.
Qed.

(** C3, as the code has it. For a non-empty list of [n] framed images the
    quarter-width is the canvas width divided by [n] and rounded down:
    [n * quarterWidth <= canvasWidth < n * quarterWidth + n]. It equals
    [canvasWidth / n] exactly if and only if [n] divides the canvas
    width; with four images, if and only if the width is a multiple of 4. *)
Theorem quarter_width_is_floor :
  forall (framedImages : list Combiner.FramedImage)
         (spacing bgWidth bgHeight titleFontSize titleSpacing : Z)
         (centerInQuarters singleLineTitles : bool),
    (0 < length framedImages)%nat ->
    exists dims,
      Combiner.calculateCanvasDimensions framedImages spacing bgWidth bgHeight
        titleFontSize titleSpacing centerInQuarters singleLineTitles = Some dims
      /\ let n := Z.of_nat (length framedImages) in
         let quarterWidth := Combiner.quarterWidth dims in
         let canvasWidth := Combiner.canvasWidth dims in
         quarterWidth = canvasWidth / n
         /\ n * quarterWidth <= canvasWidth < n * quarterWidth + n
         /\ ((inject_Z quarterWidth == inject_Z canvasWidth / inject_Z n)%Q
             <-> canvasWidth mod n = 0).
Proof.
  intros framedImages spacing bgWidth bgHeight titleFontSize titleSpacing
         centerInQuarters singleLineTitles Hne.
  destruct (calculateCanvasDimensions_some framedImages spacing bgWidth bgHeight
              titleFontSize titleSpacing centerInQuarters singleLineTitles Hne)
    as (dims & Hcalc & Hquarter & _).
  exists dims. split; [exact Hcalc|]. intros n quarterWidth canvasWidth.
  assert (exists p, n = Z.pos p) as [p Hp].
  { subst n. destruct (Z.of_nat (length framedImages)) as [|p|p] eqn:E; try lia.
    exists p. reflexivity. }
  assert (quarterWidth = canvasWidth / n) as Hdiv.
  { subst quarterWidth canvasWidth n. rewrite Hquarter, Hp. apply Math_floor_div. }
  split; [exact Hdiv|].
  pose proof (Z.div_mod canvasWidth n ltac:(lia)) as Hdm.
  pose proof (Z.mod_pos_bound canvasWidth n ltac:(lia)) as Hmod.
  split; [rewrite Hdiv; lia|].
  rewrite Hp, Qeq_div, <- Hp. rewrite Hdiv. lia.
Qed.

(** With four framed images on a canvas of width 4000 the quarter-width
    is exactly 1000. *)
Lemma quarter_width_is_floor_witness :
  exists dims,
    Combiner.calculateCanvasDimensions
      (replicate 4 (Combiner.mkFramedImage 900 2000 900 2000)) 50 4000 3000 130 100
      true false = Some dims
    /\ Combiner.quarterWidth dims = 1000
    /\ Combiner.canvasWidth dims = 4000.
Proof.
  destruct (quarter_width_is_floor
              (replicate 4 (Combiner.mkFramedImage 900 2000 900 2000))
              50 4000 3000 130 100 true false ltac:(simpl; lia))
    as (dims & Hcalc & Hdiv & _ & _).
  exists dims. split; [exact Hcalc|].
  injection Hcalc as <-. split; reflexivity.
Defined.

(** C3 fails as stated: four framed 1230-wide images with the default
    spacing of 50 on the 2580-wide background give a canvas of width 5170,
    whose quarter is 1292.5, and a quarter-width of 1292. *)
Lemma quarter_width_counterexample :
  exists dims,
    Combiner.calculateCanvasDimensions
      (replicate 4 (Combiner.mkFramedImage 1230 2592 1107 2333)) 50 2580 1398 130 100
      true false = Some dims
    /\ Combiner.canvasWidth dims = 5170
    /\ Combiner.quarterWidth dims = 1292
    /\ ~ (inject_Z (Combiner.quarterWidth dims)
          == inject_Z (Combiner.canvasWidth dims) / 4)%Q.
Proof.
  eexists. split; [reflexivity|]. repeat split. vm_compute. discriminate.
Qed.

(** ** Combiner: the framed screenshots found *)

Lemma insertSorted_perm (x : Combiner.DirEntry) (sorted : list Combiner.DirEntry) :
  Permutation (Combiner.insertSorted x sorted) (x :: sorted).
Proof.
  induction sorted as [|y rest IH]; simpl; [reflexivity|].
  destruct (Combiner.compareSlots x y <? 0); [reflexivity|].
  rewrite IH. apply perm_swap.
Qed.

Lemma sortBySlot_perm (paths : list Combiner.DirEntry) :
  Permutation (Combiner.sortBySlot paths) paths.
Proof.
  unfold Combiner.sortBySlot.
  assert (forall acc, Permutation
            (fold_left (fun sorted x => Combiner.insertSorted x sorted) paths acc)
            (paths ++ acc)) as Hgen.
  { induction paths as [|x paths IH]; intros acc; simpl; [reflexivity|].
    rewrite IH, insertSorted_perm. symmetry. apply Permutation_middle. }
  rewrite Hgen, app_nil_r. reflexivity.
Qed.

(** When every [fs.stat] resolves, the loop collects the qualifying
    entries in directory order. *)
Lemma collectSlots_resolved (slotDirs acc : list Combiner.DirEntry) :
  allStatsResolve slotDirs ->
  Combiner.collectSlots slotDirs acc = Some (acc ++ List.filter qualifies slotDirs).
Proof.
  intros Hall. revert acc.
  induction Hall as [|e rest [d Hd] _ IH]; intros acc.
  - simpl. rewrite app_nil_r. reflexivity.
  - cbn [Combiner.collectSlots List.filter]. unfold qualifies at 1. rewrite Hd.
    cbn [default id].
    destruct d; cbn [andb]; [|apply IH].
    destruct (Str.startsWith "slot_" (Combiner.entryName e)); cbn [andb]; [|apply IH].
    destruct (Combiner.accessible (Combiner.framed e)); [|apply IH].
    rewrite IH, <- app_assoc. reflexivity.
Qed.

(** One [fs.stat] that rejects ends the loop. *)
Lemma collectSlots_rejected (slotDirs acc : list Combiner.DirEntry) :
  ~ allStatsResolve slotDirs -> Combiner.collectSlots slotDirs acc = None.
Proof.
  revert acc. induction slotDirs as [|e rest IH]; intros acc Hnot.
  - exfalso. apply Hnot. constructor.
  - simpl. destruct (Combiner.stat e) as [d|] eqn:Hd; [|reflexivity].
    assert (~ allStatsResolve rest) as Hrest.
    { intros Hrest. apply Hnot. constructor; [rewrite Hd; eauto | exact Hrest]. }
    destruct d; cbn [andb]; [|apply IH; exact Hrest].
    destruct (Str.startsWith "slot_" (Combiner.entryName e)); [|apply IH; exact Hrest].
    destruct (Combiner.accessible (Combiner.framed e)); apply IH; exact Hrest.
Qed.

Lemma findFramedScreenshots_cases (tree : Combiner.FramedTree) (d : DeviceType)
    (l : string) :
  (exists slotDirs,
     tree d l = Some slotDirs
     /\ allStatsResolve slotDirs
     /\ Combiner.findFramedScreenshots tree d l
        = Combiner.sortBySlot (List.filter qualifies slotDirs))
  \/ ((tree d l = None
       \/ exists slotDirs, tree d l = Some slotDirs /\ ~ allStatsResolve slotDirs)
      /\ Combiner.findFramedScreenshots tree d l = []).
Proof.
  unfold Combiner.findFramedScreenshots.
  destruct (tree d l) as [slotDirs|]; [|right; split; [left|]; reflexivity].
  destruct (decide (Forall (fun e => is_Some (Combiner.stat e)) slotDirs)) as [Hall|Hnot].
  - left. exists slotDirs. split; [reflexivity|]. split; [exact Hall|].
    rewrite (collectSlots_resolved slotDirs [] Hall). reflexivity.
  - right. split; [right; exists slotDirs; split; [reflexivity | exact Hnot]|].
    rewrite (collectSlots_rejected slotDirs [] Hnot). reflexivity.
Qed.

(** ** Combiner: loading the framed images *)

Lemma loadFramedImages_cases (s : Js.double) (paths : list Combiner.DirEntry) :
  (exists images,
     Combiner.loadFramedImages s paths = ([], inr images)
     /\ Forall2 (fun e image => Combiner.loadFramedImage s (Combiner.framed e) = inr image)
          paths images)
  \/ (exists msg,
        Combiner.loadFramedImages s paths = ([], inl msg)
        /\ Exists (fun e => exists msg',
                     Combiner.loadFramedImage s (Combiner.framed e) = inl msg')
             paths).
Proof.
  induction paths as [|e paths IH]; simpl.
  - left. exists []. split; [reflexivity | constructor].
  - destruct (Combiner.loadFramedImage s (Combiner.framed e)) as [msg|image] eqn:He.
    + right. exists msg. split; [reflexivity|]. left. eauto.
    + destruct IH as [(images & -> & Hall)|(msg & -> & Hex)].
      * left. exists (image :: images). split; [reflexivity|]. constructor; assumption.
      * right. exists msg. split; [reflexivity|]. right. exact Hex.
Qed.

Lemma loadFramedImages_loaded (s : Js.double) (paths : list Combiner.DirEntry)
    (images : list Combiner.FramedImage) :
  Forall2 (fun e image => Combiner.loadFramedImage s (Combiner.framed e) = inr image)
    paths images ->
  Combiner.loadFramedImages s paths = ([], inr images).
Proof.
  induction 1 as [|e image paths images He _ IH]; simpl; [reflexivity|].
  rewrite He, IH. reflexivity.
Qed.

(** A loaded image keeps the size of its file as original size, and has
    a height of zero only when the file has. *)
Lemma loadFramedImage_image (s : Js.double) (file : Combiner.FramedFile)
    (image : Combiner.FramedImage) :
  Combiner.loadFramedImage s file = inr image ->
  exists w h,
    file = Combiner.Image w h
    /\ Combiner.originalWidth image = w
    /\ Combiner.originalHeight image = h
    /\ Combiner.orElse w (Combiner.fi_width image) = w
    /\ Combiner.orElse h (Combiner.fi_height image) = h.
Proof.
  unfold Combiner.loadFramedImage. destruct file as [| |w h]; try discriminate.
  intros Hload. exists w, h. split; [reflexivity|].
  assert (forall x y, (x = 0 -> y = 0) -> Combiner.orElse x y = x) as Hor.
  { intros x y Hxy. unfold Combiner.orElse. destruct (x =? 0) eqn:E; [|reflexivity].
    apply Z.eqb_eq in E. rewrite Hxy by exact E. symmetry. exact E. }
  destruct (Js.double_eqb s (Js.double_of_Z 1)).
  - injection Hload as <-. cbn. repeat split; apply Hor; tauto.
  - destruct (Js.Math_round_double (Js.double_mul (Js.double_of_Z w) s)) as [sw|] eqn:Hsw;
      [|discriminate].
    destruct (Js.Math_round_double (Js.double_mul (Js.double_of_Z h) s)) as [sh|] eqn:Hsh;
      [|discriminate].
    destruct (Sharp.resizes sw sh) eqn:Hres; [|discriminate].
    injection Hload as <-. cbn. apply resizes_spec in Hres.
    split; [reflexivity|]. split; [reflexivity|].
    assert (forall z r, Js.Math_round_double (Js.double_mul (Js.double_of_Z 0) z) = Some r ->
                        r = 0) as Hzero.
    { intros z r. destruct z as [b|b| |b m e]; cbn; try discriminate; congruence. }
    split; apply Hor; intros ->.
    + apply Hzero in Hsw. lia.
    + apply Hzero in Hsh. lia.
Qed.

(** ** Combiner: the title loop *)

Lemma bounded_all_or_one (P : nat -> bool) (n : nat) :
  (forall k, (k < n)%nat -> P k = true) \/ (exists k, (k < n)%nat /\ P k = false).
Proof.
  induction n as [|n [IH|(k & Hk & Hbad)]].
  - left. intros k Hk. lia.
  - destruct (P n) eqn:Hn.
    + left. intros k Hk. destruct (Nat.eq_dec k n) as [->|]; [exact Hn | apply IH; lia].
    + right. exists n. split; [lia | exact Hn].
  - right. exists k. split; [lia | exact Hbad].
Qed.

Lemma titleLayers_success (options : Combiner.CombineOptions)
    (dims : Combiner.CanvasDimensions) (titleHeight : Q)
    (titles : list Combiner.json) (count index : nat) :
  (forall k, (k < count)%nat -> isStr (titleTextAt titles (index + k)) = true) ->
  exists ls,
    Combiner.titleLayers options dims titleHeight titles index count = ([], inr ls)
    /\ length ls = count
    /\ forall k l,
         ls !! k = Some l ->
         exists text,
           titleTextAt titles (index + k) = Combiner.JStr text
           /\ l = titleLayerAt options dims titleHeight text (index + k).
Proof.
  revert index. induction count as [|count IH]; intros index Hstr.
  - exists []. split; [reflexivity|]. split; [reflexivity|]. intros k l Hl. discriminate.
  - pose proof (Hstr 0%nat ltac:(lia)) as H0. rewrite Nat.add_0_r in H0.
    destruct (IH (S index)) as (ls & Hrun & Hlen & Hls).
    { intros k Hk. replace (S index + k)%nat with (index + S k)%nat by lia.
      apply Hstr. lia. }
    cbn [Combiner.titleLayers]. fold (titleTextAt titles index).
    destruct (titleTextAt titles index) as [| | |text| |] eqn:Htext; try discriminate.
    rewrite Hrun. eexists. split; [reflexivity|]. split; [simpl; rewrite Hlen; reflexivity|].
    intros [|k] l Hl.
    + rewrite Nat.add_0_r. exists text. split; [exact Htext|].
      simpl in Hl. injection Hl as <-. reflexivity.
    + replace (index + S k)%nat with (S index + k)%nat by lia.
      apply (Hls k l). exact Hl.
Qed.

Lemma titleLayers_failure (options : Combiner.CombineOptions)
    (dims : Combiner.CanvasDimensions) (titleHeight : Q)
    (titles : list Combiner.json) (count index : nat) :
  (exists k, (k < count)%nat /\ isStr (titleTextAt titles (index + k)) = false) ->
  exists msg,
    Combiner.titleLayers options dims titleHeight titles index count = ([], inl msg).
Proof.
  revert index. induction count as [|count IH]; intros index (k & Hk & Hbad); [lia|].
  cbn [Combiner.titleLayers]. fold (titleTextAt titles index).
  destruct (titleTextAt titles index) as [| | |text| |] eqn:Htext;
    try (eexists; reflexivity).
  destruct k as [|k]; [rewrite Nat.add_0_r, Htext in Hbad; discriminate|].
  destruct (IH (S index)) as [msg ->].
  { exists k. split; [lia|].
    replace (S index + k)%nat with (index + S k)%nat by lia. exact Hbad. }
  eexists. reflexivity.
Qed.

(** The title loop writes nothing; it succeeds exactly when the titles of
    the slots in use are strings. *)
Lemma titleLayers_cases (options : Combiner.CombineOptions)
    (dims : Combiner.CanvasDimensions) (titleHeight : Q)
    (titles : list Combiner.json) (count : nat) :
  (usableTitles titles count
   /\ exists ls,
        Combiner.titleLayers options dims titleHeight titles 0 count = ([], inr ls)
        /\ length ls = count
        /\ forall k l,
             ls !! k = Some l ->
             exists text,
               titleTextAt titles k = Combiner.JStr text
               /\ l = titleLayerAt options dims titleHeight text k)
  \/ (~ usableTitles titles count
      /\ exists msg,
           Combiner.titleLayers options dims titleHeight titles 0 count = ([], inl msg)).
Proof.
  destruct (bounded_all_or_one (fun k => isStr (titleTextAt titles k)) count)
    as [Hall|Hbad].
  - left. split; [exact Hall|].
    apply (titleLayers_success options dims titleHeight titles count 0). exact Hall.
  - right. split.
    + intros Husable. destruct Hbad as (k & Hk & Hbad).
      rewrite (Husable k Hk) in Hbad. discriminate.
    + apply (titleLayers_failure options dims titleHeight titles count 0). exact Hbad.
Qed.

(** ** Combiner: the canvas *)

Lemma canvas_bounds (framedImages : list Combiner.FramedImage)
    (spacing bgWidth bgHeight titleFontSize titleSpacing : Z)
    (centerInQuarters singleLineTitles : bool) (dims : Combiner.CanvasDimensions) :
  Combiner.calculateCanvasDimensions framedImages spacing bgWidth bgHeight
    titleFontSize titleSpacing centerInQuarters singleLineTitles = Some dims ->
  let n := Z.of_nat (length framedImages) in
  0 < n
  /\ Combiner.canvasWidth dims
     = Z.max bgWidth (Combiner.imageWidth dims * n + spacing * (n + 1))
  /\ Combiner.canvasHeight dims
     = Z.max bgHeight
         (Combiner.imageHeight dims
          + Combiner.canvasTitleHeight titleFontSize titleSpacing singleLineTitles
          + spacing * 2)
  /\ Combiner.quarterWidth dims = Combiner.canvasWidth dims / n.
Proof.
  intros Hcalc n. destruct framedImages as [|first rest]; [discriminate|].
  unfold Combiner.calculateCanvasDimensions in Hcalc. fold n in Hcalc.
  assert (0 < n) as Hn by (subst n; simpl length; lia).
  clearbody n. injection Hcalc as <-.
  cbn [Combiner.canvasWidth Combiner.canvasHeight Combiner.imageWidth
       Combiner.imageHeight Combiner.quarterWidth].
  split; [exact Hn|]. split; [reflexivity|]. split; [reflexivity|].
  destruct n as [|p|p]; try lia. apply Math_floor_div.
Qed.

(** The image size the canvas is laid out for is the original size of
    the first framed image. *)
Lemma canvas_image_size (first : Combiner.FramedImage) (rest : list Combiner.FramedImage)
    (spacing bgWidth bgHeight titleFontSize titleSpacing : Z)
    (centerInQuarters singleLineTitles : bool) (dims : Combiner.CanvasDimensions) :
  Combiner.calculateCanvasDimensions (first :: rest) spacing bgWidth bgHeight
    titleFontSize titleSpacing centerInQuarters singleLineTitles = Some dims ->
  Combiner.imageWidth dims
  = Combiner.orElse (Combiner.originalWidth first) (Combiner.fi_width first)
  /\ Combiner.imageHeight dims
     = Combiner.orElse (Combiner.originalHeight first) (Combiner.fi_height first).
Proof. intros Hcalc. injection Hcalc as <-. split; reflexivity. Qed.

(** ** Combiner: a written composite *)

Lemma canvas_covers_background (framedImages : list Combiner.FramedImage)
    (spacing bgWidth bgHeight titleFontSize titleSpacing : Z)
    (centerInQuarters singleLineTitles : bool) (dims : Combiner.CanvasDimensions) :
  Combiner.calculateCanvasDimensions framedImages spacing bgWidth bgHeight
    titleFontSize titleSpacing centerInQuarters singleLineTitles = Some dims ->
  let resize :=
    (bgWidth <? Combiner.canvasWidth dims) || (bgHeight <? Combiner.canvasHeight dims) in
  (if resize then Combiner.canvasWidth dims else bgWidth) = Combiner.canvasWidth dims
  /\ (if resize then Combiner.canvasHeight dims else bgHeight) = Combiner.canvasHeight dims.
Proof.
  intros Hcalc resize. apply canvas_bounds in Hcalc. cbv zeta in Hcalc.
  destruct Hcalc as (_ & Hw & Hh & _). subst resize.
  destruct ((bgWidth <? Combiner.canvasWidth dims)
            || (bgHeight <? Combiner.canvasHeight dims)) eqn:Hr; [split; reflexivity|].
  apply orb_false_iff in Hr. destruct Hr as [Hr1 Hr2].
  apply Z.ltb_ge in Hr1. apply Z.ltb_ge in Hr2. split; lia.
Qed.

(** [combineScreenshots] once the background is read, the framed images
    are loaded and the title loop is through: the library accepts the
    composite, which is then written, or rejects it. *)
Lemma combineScreenshots_run (disk : Combiner.Disk) (options : Combiner.CombineOptions)
    (bgWidth bgHeight : Z) (images : list Combiner.FramedImage)
    (dims : Combiner.CanvasDimensions) (titleOps : list Combiner.Layer) :
  Combiner.background disk = Some (bgWidth, bgHeight) ->
  (0 < length (foundFor disk options))%nat ->
  Forall2 (loadsAs options) (foundFor disk options) images ->
  Combiner.calculateCanvasDimensions images (Combiner.spacing options) bgWidth bgHeight
    (Combiner.titleFontSize options) (Combiner.titleSpacing options)
    (Combiner.centerInQuarters options) (singleLine options) = Some dims ->
  Combiner.titleLayers options dims (layoutHeightOf options)
    (Combiner.finalTitles disk options) 0 (length images) = ([], inr titleOps) ->
  let composite := compositeOf options dims bgWidth bgHeight titleOps images in
  (accepted options composite = true ->
   Combiner.combineScreenshots disk options = ([composite], inr tt))
  /\ (accepted options composite = false ->
      exists msg, Combiner.combineScreenshots disk options = ([], inl msg)).
Proof.
  intros Hbg Hpos Himages Hcalc Htitles composite.
  unfold Combiner.combineScreenshots. rewrite Hbg.
  fold (foundFor disk options).
  destruct (length (foundFor disk options) =? 0)%nat eqn:Hzero;
    [apply Nat.eqb_eq in Hzero; lia|].
  fold (scaleFactorOf options).
  rewrite (loadFramedImages_loaded _ _ _ Himages). cbn [Eff.bind].
  fold (singleLine options). rewrite Hcalc.
  fold (layoutHeightOf options). rewrite Htitles. cbn [Eff.bind app].
  destruct (canvas_covers_background _ _ _ _ _ _ _ _ _ Hcalc) as [Hw Hh].
  cbv zeta in Hw, Hh.
  cbn [Combiner.c_width Combiner.c_height Combiner.layers]. rewrite Hw, Hh.
  fold (compositeOf options dims bgWidth bgHeight titleOps images). fold composite.
  unfold accepted.
  change (Combiner.backgroundResized composite)
    with ((bgWidth <? Combiner.canvasWidth dims) || (bgHeight <? Combiner.canvasHeight dims)).
  change (Combiner.c_width composite) with (Combiner.canvasWidth dims).
  change (Combiner.c_height composite) with (Combiner.canvasHeight dims).
  change (Combiner.layers composite)
    with (titleOps ++ imap (Combiner.imageLayer options dims (layoutHeightOf options)) images).
  destruct ((bgWidth <? Combiner.canvasWidth dims)
            || (bgHeight <? Combiner.canvasHeight dims));
    destruct (Sharp.resizes (Combiner.canvasWidth dims) (Combiner.canvasHeight dims));
    destruct (forallb Sharp.integer_offsets _);
    destruct (Sharp.composites _ _ _);
    destruct (Sharp.opens _ _);
    cbn [negb andb orb]; split; intros H; try discriminate H;
    first [reflexivity | eexists; reflexivity].
Qed.

(** [combineScreenshots] writes one composite and succeeds, or throws
    and has written nothing. *)
Lemma combineScreenshots_cases (disk : Combiner.Disk) (options : Combiner.CombineOptions) :
  (exists bgWidth bgHeight images dims titleOps,
     Combiner.background disk = Some (bgWidth, bgHeight)
     /\ (0 < length (foundFor disk options))%nat
     /\ Forall2 (loadsAs options) (foundFor disk options) images
     /\ Combiner.calculateCanvasDimensions images (Combiner.spacing options)
          bgWidth bgHeight (Combiner.titleFontSize options) (Combiner.titleSpacing options)
          (Combiner.centerInQuarters options) (singleLine options) = Some dims
     /\ length titleOps = length images
     /\ (forall k l,
           titleOps !! k = Some l ->
           exists text,
             titleTextAt (Combiner.finalTitles disk options) k = Combiner.JStr text
             /\ l = titleLayerAt options dims (layoutHeightOf options) text k)
     /\ accepted options (compositeOf options dims bgWidth bgHeight titleOps images) = true
     /\ Combiner.combineScreenshots disk options
        = ([compositeOf options dims bgWidth bgHeight titleOps images], inr tt))
  \/ (exists msg, Combiner.combineScreenshots disk options = ([], inl msg)).
Proof.
  destruct (Combiner.background disk) as [[bgWidth bgHeight]|] eqn:Hbg.
  2: { right. unfold Combiner.combineScreenshots. rewrite Hbg. eauto. }
  destruct (length (foundFor disk options) =? 0)%nat eqn:Hfound.
  { right. unfold Combiner.combineScreenshots. rewrite Hbg.
    fold (foundFor disk options). rewrite Hfound. eauto. }
  assert (0 < length (foundFor disk options))%nat as Hpos
    by (apply Nat.eqb_neq in Hfound; lia).
  destruct (loadFramedImages_cases (scaleFactorOf options) (foundFor disk options))
    as [(images & Hload & Himages)|(msg & Hload & _)].
  2: { right. unfold Combiner.combineScreenshots. rewrite Hbg.
       fold (foundFor disk options). rewrite Hfound.
       fold (scaleFactorOf options). rewrite Hload. cbn. eauto. }
  destruct (Combiner.calculateCanvasDimensions images (Combiner.spacing options)
              bgWidth bgHeight (Combiner.titleFontSize options)
              (Combiner.titleSpacing options) (Combiner.centerInQuarters options)
              (singleLine options)) as [dims|] eqn:Hcalc.
  2: { right. unfold Combiner.combineScreenshots. rewrite Hbg.
       fold (foundFor disk options). rewrite Hfound.
       fold (scaleFactorOf options). rewrite Hload. cbn [Eff.bind].
       fold (singleLine options). rewrite Hcalc. cbn. eauto. }
  destruct (titleLayers_cases options dims (layoutHeightOf options)
              (Combiner.finalTitles disk options) (length images))
    as [[_ (titleOps & Htitles & Hlen & Hlayers)]|[_ [msg Htitles]]].
  - destruct (combineScreenshots_run disk options bgWidth bgHeight images dims titleOps
                Hbg Hpos Himages Hcalc Htitles) as [Hok Hfail].
    destruct (accepted options (compositeOf options dims bgWidth bgHeight titleOps images))
      eqn:Hacc.
    + left. exists bgWidth, bgHeight, images, dims, titleOps.
      split; [reflexivity|]. split; [exact Hpos|]. split; [exact Himages|].
      split; [exact Hcalc|]. split; [exact Hlen|]. split; [exact Hlayers|].
      split; [exact Hacc|]. exact (Hok eq_refl).
    + right. exact (Hfail eq_refl).
  - right. unfold Combiner.combineScreenshots. rewrite Hbg.
    fold (foundFor disk options). rewrite Hfound.
    fold (scaleFactorOf options). rewrite Hload. cbn [Eff.bind].
    fold (singleLine options). rewrite Hcalc.
    fold (layoutHeightOf options). rewrite Htitles.
    destruct (((bgWidth <? Combiner.canvasWidth dims)
               || (bgHeight <? Combiner.canvasHeight dims))
              && negb (Sharp.resizes (Combiner.canvasWidth dims)
                         (Combiner.canvasHeight dims)));
      cbn; eauto.
Qed.

(** What a written composite tells. *)
Lemma combineScreenshots_written (disk : Combiner.Disk)
    (options : Combiner.CombineOptions) (composite : Combiner.Composite) :
  In composite (Eff.written (Combiner.combineScreenshots disk options)) ->
  exists bgWidth bgHeight images dims titleOps,
    Combiner.background disk = Some (bgWidth, bgHeight)
    /\ (0 < length (foundFor disk options))%nat
    /\ Forall2 (loadsAs options) (foundFor disk options) images
    /\ Combiner.calculateCanvasDimensions images (Combiner.spacing options)
         bgWidth bgHeight (Combiner.titleFontSize options) (Combiner.titleSpacing options)
         (Combiner.centerInQuarters options) (singleLine options) = Some dims
    /\ length titleOps = length images
    /\ (forall k l,
          titleOps !! k = Some l ->
          exists text,
            titleTextAt (Combiner.finalTitles disk options) k = Combiner.JStr text
            /\ l = titleLayerAt options dims (layoutHeightOf options) text k)
    /\ accepted options composite = true
    /\ composite = compositeOf options dims bgWidth bgHeight titleOps images
    /\ Combiner.combineScreenshots disk options = ([composite], inr tt).
Proof.
  intros Hin.
  destruct (combineScreenshots_cases disk options)
    as [(bgWidth & bgHeight & images & dims & titleOps & Hbg & Hpos & Himages & Hcalc
         & Hlen & Hlayers & Hacc & Hrun)|[msg Hrun]];
    rewrite Hrun in Hin; [|destruct Hin].
  destruct Hin as [<-|[]].
  exists bgWidth, bgHeight, images, dims, titleOps.
  split; [exact Hbg|]. split; [exact Hpos|]. split; [exact Himages|].
  split; [exact Hcalc|]. split; [exact Hlen|]. split; [exact Hlayers|].
  split; [exact Hacc|]. split; [reflexivity | exact Hrun].
Qed.

(** ** Combiner: when the library accepts the composite *)

(** The overlays of the image layers, whatever their slot. *)
Lemma image_overlays_forallb (options : Combiner.CombineOptions)
    (P : Sharp.Overlay -> bool) (Q : Combiner.FramedImage -> bool)
    (images : list Combiner.FramedImage) :
  forall f : nat -> Combiner.FramedImage -> Combiner.Layer,
    (forall i image, P (Combiner.overlayOf options (f i image)) = Q image) ->
    forallb P (map (Combiner.overlayOf options) (imap f images)) = forallb Q images.
Proof.
  induction images as [|image images IH]; intros f Hf; [reflexivity|].
  cbn [imap map forallb]. rewrite Hf. f_equal. apply IH.
  intros i image'. apply Hf.
Qed.

Lemma forallb_const {A} (b : bool) (l : list A) :
  (0 < length l)%nat -> forallb (fun _ => b) l = b.
Proof.
  destruct l as [|x l]; simpl; [lia|]. intros _.
  destruct b; [|reflexivity]. induction l; simpl; auto.
Qed.

Lemma title_overlays_integer (options : Combiner.CombineOptions)
    (dims : Combiner.CanvasDimensions) (titles : list Combiner.json)
    (titleOps : list Combiner.Layer) :
  (forall k l,
     titleOps !! k = Some l ->
     exists text,
       titleTextAt titles k = Combiner.JStr text
       /\ l = titleLayerAt options dims (layoutHeightOf options) text k) ->
  forallb Sharp.integer_offsets (map (Combiner.overlayOf options) titleOps) = true.
Proof.
  intros Hlayers. apply forallb_forall. intros o Hin.
  apply in_map_iff in Hin. destruct Hin as (l & <- & Hl).
  apply list_elem_of_In, list_elem_of_lookup in Hl. destruct Hl as [k Hk].
  destruct (Hlayers k l Hk) as (text & _ & ->).
  unfold Sharp.integer_offsets, titleLayerAt, Combiner.overlayOf.
  cbn [Combiner.input Combiner.l_top Combiner.l_left Sharp.o_top Sharp.o_left].
  rewrite !is_integer_inject_Z. reflexivity.
Qed.

Lemma title_overlay_accepted (options : Combiner.CombineOptions)
    (dims : Combiner.CanvasDimensions) (text : string) (k : nat) (W H : Z) :
  W * H <= Sharp.INPUT_PIXEL_LIMIT ->
  Sharp.accepts W H
    (Combiner.overlayOf options (titleLayerAt options dims (layoutHeightOf options) text k))
  = true
  <-> titleParses options (titleSvgOf options dims text)
      /\ 0 < Combiner.svgWidth (titleSvgOf options dims text) <= W
      /\ 0 < Combiner.svgHeight (titleSvgOf options dims text) <= H.
Proof.
  intros Hpix. rewrite accepts_spec.
  unfold titleLayerAt, Combiner.overlayOf, titleParses.
  cbn [Combiner.input Sharp.wellFormed Sharp.o_width Sharp.o_height].
  fold (titleSvgOf options dims text).
  rewrite !andb_true_iff. split.
  - intros (Hwf & Hw & Hh & _). tauto.
  - intros (Hwf & Hw & Hh). split; [tauto|]. split; [exact Hw|]. split; [exact Hh|]. nia.
Qed.

Lemma image_overlay_accepted (options : Combiner.CombineOptions)
    (dims : Combiner.CanvasDimensions) (i : nat) (image : Combiner.FramedImage)
    (W H : Z) :
  Sharp.accepts W H
    (Combiner.overlayOf options
       (Combiner.imageLayer options dims (layoutHeightOf options) i image))
  = Sharp.accepts W H
      (Sharp.mkOverlay true (Combiner.fi_width image) (Combiner.fi_height image) 0 0).
Proof. reflexivity. Qed.

Lemma image_overlay_integer (options : Combiner.CombineOptions)
    (dims : Combiner.CanvasDimensions) (i : nat) (image : Combiner.FramedImage) :
  Sharp.integer_offsets
    (Combiner.overlayOf options
       (Combiner.imageLayer options dims (layoutHeightOf options) i image))
  = Sharp.is_integer (inject_Z (Combiner.spacing options) + layoutHeightOf options).
Proof.
  unfold Sharp.integer_offsets, Combiner.imageLayer, Combiner.overlayOf.
  cbn [Combiner.input Combiner.l_top Combiner.l_left Sharp.o_top Sharp.o_left].
  rewrite is_integer_inject_Z. apply andb_true_r.
Qed.

(** What the library's verdict on the composite comes to. *)
Lemma accepted_iff (options : Combiner.CombineOptions) (dims : Combiner.CanvasDimensions)
    (bgWidth bgHeight : Z) (titles : list Combiner.json)
    (titleOps : list Combiner.Layer) (images : list Combiner.FramedImage) :
  (0 < length images)%nat ->
  length titleOps = length images ->
  (forall k l,
     titleOps !! k = Some l ->
     exists text,
       titleTextAt titles k = Combiner.JStr text
       /\ l = titleLayerAt options dims (layoutHeightOf options) text k) ->
  accepted options (compositeOf options dims bgWidth bgHeight titleOps images) = true
  <-> Sharp.is_integer (inject_Z (Combiner.spacing options) + layoutHeightOf options) = true
      /\ (forall k, (k < length images)%nat ->
            exists text,
              titleTextAt titles k = Combiner.JStr text
              /\ titleParses options (titleSvgOf options dims text)
              /\ 0 < Combiner.svgWidth (titleSvgOf options dims text)
                   <= Combiner.canvasWidth dims
              /\ 0 < Combiner.svgHeight (titleSvgOf options dims text)
                   <= Combiner.canvasHeight dims)
      /\ Forall (fun image =>
                   0 < Combiner.fi_width image <= Combiner.canvasWidth dims
                   /\ 0 < Combiner.fi_height image <= Combiner.canvasHeight dims)
                images
      /\ Combiner.canvasWidth dims * Combiner.canvasHeight dims <= Sharp.INPUT_PIXEL_LIMIT.
Proof.
  intros Hpos Hlen Hlayers.
  unfold accepted, compositeOf, Sharp.composites.
  cbn [Combiner.backgroundResized Combiner.c_width Combiner.c_height Combiner.layers].
  rewrite map_app, !forallb_app.
  rewrite (title_overlays_integer options dims titles titleOps Hlayers).
  rewrite (image_overlays_forallb options Sharp.integer_offsets
             (fun _ => Sharp.is_integer
                         (inject_Z (Combiner.spacing options) + layoutHeightOf options))
             images _ (image_overlay_integer options dims)).
  rewrite (image_overlays_forallb options
             (Sharp.accepts (Combiner.canvasWidth dims) (Combiner.canvasHeight dims))
             (fun image =>
                Sharp.accepts (Combiner.canvasWidth dims) (Combiner.canvasHeight dims)
                  (Sharp.mkOverlay true (Combiner.fi_width image)
                     (Combiner.fi_height image) 0 0))
             images _
             (fun i image =>
                image_overlay_accepted options dims i image
                  (Combiner.canvasWidth dims) (Combiner.canvasHeight dims))).
  rewrite forallb_const by exact Hpos.
  set (W := Combiner.canvasWidth dims). set (H := Combiner.canvasHeight dims).
  set (r := (bgWidth <? W) || (bgHeight <? H)).
  rewrite !andb_true_iff, opens_spec. cbn [andb]. split.
  - intros (((_ & _ & Hint) & _ & Htitles & Himages) & _ & _ & Hpix).
    split; [exact Hint|]. split; [|split; [|exact Hpix]].
    + intros k Hk. rewrite <- Hlen in Hk.
      destruct (lookup_lt_is_Some_2 titleOps k Hk) as [l Hl].
      destruct (Hlayers k l Hl) as (text & Htext & ->).
      exists text. split; [exact Htext|].
      apply (title_overlay_accepted options dims text k W H Hpix).
      rewrite forallb_forall in Htitles. apply Htitles.
      apply in_map. apply list_elem_of_In, list_elem_of_lookup. exists k. exact Hl.
    + apply List.Forall_forall. intros image Hin.
      rewrite forallb_forall in Himages. apply Himages, accepts_spec in Hin.
      cbn [Sharp.o_width Sharp.o_height] in Hin. tauto.
  - intros (Hint & Htitles & Himages & Hpix).
    assert (0 < W /\ 0 < H) as [HW HH].
    { destruct images as [|image images]; [simpl in Hpos; lia|].
      inversion Himages; subst. lia. }
    split; [|lia]. split; [|split; [|split]].
    + split; [|split; [reflexivity | exact Hint]].
      apply orb_true_iff. right. apply resizes_spec. split; assumption.
    + split; [reflexivity | exact Hint].
    + apply forallb_forall. intros o Hin.
      apply in_map_iff in Hin. destruct Hin as (l & <- & Hl).
      apply list_elem_of_In, list_elem_of_lookup in Hl. destruct Hl as [k Hk].
      destruct (Hlayers k l Hk) as (text & Htext & ->).
      apply (title_overlay_accepted options dims text k W H Hpix).
      destruct (Htitles k) as (text' & Htext' & Hok).
      { rewrite <- Hlen. apply lookup_lt_is_Some_1. eauto. }
      rewrite Htext in Htext'. injection Htext' as <-. exact Hok.
    + apply forallb_forall. intros image Hin.
      rewrite List.Forall_forall in Himages. specialize (Himages image Hin).
      apply accepts_spec. cbn [Sharp.wellFormed Sharp.o_width Sharp.o_height].
      split; [reflexivity|]. split; [tauto|]. split; [tauto|]. nia.
Qed.

(** [combineScreenshots] succeeds exactly on what is [combinable]. *)
Lemma combineScreenshots_verdict (disk : Combiner.Disk)
    (options : Combiner.CombineOptions) :
  (combinable disk options
   /\ exists composite, Combiner.combineScreenshots disk options = ([composite], inr tt))
  \/ (~ combinable disk options
      /\ exists msg, Combiner.combineScreenshots disk options = ([], inl msg)).
Proof.
  destruct (combineScreenshots_cases disk options)
    as [(bgWidth & bgHeight & images & dims & titleOps & Hbg & Hpos & Himages & Hcalc
         & Hlen & Hlayers & Hacc & Hrun)|[msg Hrun]].
  - left. split; [|eauto].
    pose proof (Forall2_length _ _ _ Himages) as Hfound.
    apply (accepted_iff options dims bgWidth bgHeight (Combiner.finalTitles disk options))
      in Hacc; [|lia | exact Hlen | exact Hlayers].
    destruct Hacc as (Hint & Htitles & Hsizes & Hpix).
    exists bgWidth, bgHeight, images, dims. auto 10.
  - right. split; [|eauto].
    intros (bgWidth & bgHeight & images & dims & Hbg & Hpos & Himages & Hcalc & Hint
            & Htitles & Hsizes & Hpix).
    pose proof (Forall2_length _ _ _ Himages) as Hfound.
    destruct (titleLayers_cases options dims (layoutHeightOf options)
                (Combiner.finalTitles disk options) (length images))
      as [[_ (titleOps & Hloop & Hlen & Hlayers)]|[Hbad _]].
    + destruct (combineScreenshots_run disk options bgWidth bgHeight images dims titleOps
                  Hbg Hpos Himages Hcalc Hloop) as [Hok _].
      rewrite Hok in Hrun; [discriminate|].
      apply (accepted_iff options dims bgWidth bgHeight
               (Combiner.finalTitles disk options)); [lia | exact Hlen | exact Hlayers |].
      auto.
    + apply Hbad. intros k Hk. destruct (Htitles k Hk) as (text & -> & _). reflexivity.
Qed.

(** ** Combiner: the claims on the composite *)

Lemma Forall2_imap_r {A B C} (R : A -> B -> Prop) (R' : A -> C -> Prop)
    (f : nat -> B -> C) (l1 : list A) (l2 : list B) :
  Forall2 R l1 l2 ->
  (forall i x y, R x y -> R' x (f i y)) ->
  Forall2 R' l1 (imap f l2).
Proof.
  intros Hall. revert f. induction Hall as [|x y l1 l2 Hxy _ IH]; intros f Hf; simpl.
  - constructor.
  - constructor; [apply Hf; exact Hxy|]. apply IH. intros i a b. apply Hf.
Qed.




(** C1, as the code has it. [combineScreenshots] throws, and writes
    nothing, when no framed screenshot is resolved. It does not ask for
    four: a composite it writes is its only output, at least one framed
    screenshot was resolved, and every resolved screenshot takes part, as
    the composite holds one title layer for each, followed by one image
    layer for each, loaded from that screenshot, in slot order. It writes
    a composite whenever the invocation is [combinable]: a readable
    background, at least one framed screenshot, and nothing the library
    rejects. *)
Theorem combine_needs_one_framed_image :
  forall (disk : Combiner.Disk) (options : Combiner.CombineOptions),
    let found :=
      Combiner.findFramedScreenshots (Combiner.framedTree disk)
        (Combiner.deviceType options) (Combiner.locale options) in
    (length found = 0%nat ->
     exists msg, Combiner.combineScreenshots disk options = ([], inl msg))
    /\ (forall composite,
          In composite (Eff.written (Combiner.combineScreenshots disk options)) ->
          Combiner.combineScreenshots disk options = ([composite], inr tt)
          /\ (0 < length found)%nat
          /\ length (Combiner.layers composite) = (2 * length found)%nat
          /\ Forall (fun l => isImageLayer l = false)
               (take (length found) (Combiner.layers composite))
          /\ Forall2
               (fun e l =>
                  exists image,
                    loadsAs options e image
                    /\ Combiner.input l = Combiner.ImageLayer image)
               found (drop (length found) (Combiner.layers composite)))
    /\ (combinable disk options ->
        exists composite,
          Combiner.combineScreenshots disk options = ([composite], inr tt)).
Proof.
  intros disk options found. split; [|split].
  - intros Hzero.
    destruct (combineScreenshots_cases disk options)
      as [(bw & bh & images & dims & titleOps & _ & Hpos & _)|Hthrow]; [|exact Hthrow].
    unfold foundFor in Hpos. fold found in Hpos. lia.
  - intros composite Hin.
    destruct (combineScreenshots_written disk options composite Hin)
      as (bw & bh & images & dims & titleOps & _ & Hpos & Himages & _ & Hlen & Hlayers
          & _ & -> & Hrun).
    unfold foundFor in Hpos, Himages. fold found in Hpos, Himages.
    pose proof (Forall2_length _ _ _ Himages) as Hfound.
    assert (length titleOps = length found) as Hlen' by congruence.
    split; [exact Hrun|]. split; [exact Hpos|].
    cbn [compositeOf Combiner.layers]. split; [|split].
    + rewrite length_app, length_imap. lia.
    + rewrite <- Hlen', take_app_length. apply Forall_forall. intros l Hl.
      apply list_elem_of_lookup in Hl. destruct Hl as [k Hk].
      destruct (Hlayers k l Hk) as (text & _ & ->). reflexivity.
    + rewrite <- Hlen', drop_app_length.
      apply (Forall2_imap_r (loadsAs options)); [exact Himages|].
      intros i e image Hload. exists image. split; [exact Hload | reflexivity].
  - intros Hok.
    destruct (combineScreenshots_verdict disk options) as [[_ Hrun]|[Hnot _]];
      [exact Hrun | contradiction].
Qed.

(** Four framed screenshots give a composite of four title layers
    followed by four image layers; none gives an error and no file. *)
Lemma combine_needs_one_framed_image_witness :
  (exists composite,
     Combiner.combineScreenshots (diskWith 4) (Combiner.defaultOptions iphone "en")
     = ([composite], inr tt)
     /\ length (Combiner.layers composite) = 8%nat
     /\ imageLayerCount composite = 4%nat
     /\ titleLayerCount composite = 4%nat)
  /\ (exists msg,
        Combiner.combineScreenshots (diskWith 0) (Combiner.defaultOptions iphone "en")
        = ([], inl msg)).
Proof.
  split.
  - destruct (combine_needs_one_framed_image (diskWith 4)
                (Combiner.defaultOptions iphone "en")) as (_ & Hwritten & Hwrites).
    destruct Hwrites as [composite Hrun].
    { destruct (combineScreenshots_verdict (diskWith 4)
                  (Combiner.defaultOptions iphone "en")) as [[Hok _]|[_ [msg Hthrow]]];
        [exact Hok | vm_compute in Hthrow; discriminate]. }
    exists composite.
    destruct (Hwritten composite) as (Hrun' & _ & Hlen & _ & _).
    { rewrite Hrun. left. reflexivity. }
    split; [exact Hrun'|]. split; [exact Hlen|].
    vm_compute in Hrun. injection Hrun as <-. split; reflexivity.
  - apply (combine_needs_one_framed_image (diskWith 0)
             (Combiner.defaultOptions iphone "en")).
    reflexivity.
Defined.

(** C1 fails as stated: with three framed screenshots, fewer than four,
    [combineScreenshots] raises no error and writes a composite of three
    image layers. *)
Lemma combine_three_images_counterexample :
  length (Combiner.findFramedScreenshots (Combiner.framedTree (diskWith 3)) iphone "en")
  = 3%nat
  /\ exists composite,
       Combiner.combineScreenshots (diskWith 3) (Combiner.defaultOptions iphone "en")
       = ([composite], inr tt)
       /\ imageLayerCount composite = 3%nat.
Proof.
  split; [reflexivity|]. eexists. split; [vm_compute; reflexivity | reflexivity].
Qed.

(** ** Combiner: titles *)

Lemma placeholders_are_defaults :
  [Combiner.placeholder 1; Combiner.placeholder 2; Combiner.placeholder 3;
   Combiner.placeholder 4] = Combiner.defaultTitles.
Proof. vm_compute. reflexivity. Qed.

Lemma loadTitles_object (files : Combiner.Translations) (locale : string)
    (m : gmap string Combiner.json) :
  files locale = Combiner.Parsed (Combiner.JObj m) ->
  Combiner.loadTitles files locale
  = [slotTitle m 1; slotTitle m 2; slotTitle m 3; slotTitle m 4].
Proof.
  intros Hfile. unfold Combiner.loadTitles. rewrite Hfile. unfold slotTitle.
  cbn [Combiner.extractTitles Combiner.getProperty].
  destruct (m !! Combiner.slotKey 1) as [v1|]; [destruct (Combiner.truthy v1)|];
    destruct (m !! Combiner.slotKey 2) as [v2|]; try destruct (Combiner.truthy v2);
    destruct (m !! Combiner.slotKey 3) as [v3|]; try destruct (Combiner.truthy v3);
    destruct (m !! Combiner.slotKey 4) as [v4|]; try destruct (Combiner.truthy v4);
    reflexivity.
Qed.

(** Without an object to read the slots from, the titles are the four
    placeholders. *)
Lemma loadTitles_defaults (files : Combiner.Translations) (locale : string) :
  (forall m, files locale <> Combiner.Parsed (Combiner.JObj m)) ->
  Combiner.loadTitles files locale = Combiner.defaultTitles.
Proof.
  intros Hnot. unfold Combiner.loadTitles.
  destruct (files locale) as [| |[]]; try reflexivity.
  exfalso. eapply Hnot. reflexivity.
Qed.

Lemma slotTitle_truthy (m : gmap string Combiner.json) (i : Z) :
  Combiner.truthy (slotTitle m i) = true.
Proof.
  unfold slotTitle. destruct (m !! Combiner.slotKey i) as [v|]; [|reflexivity].
  destruct (Combiner.truthy v) eqn:Hv; [exact Hv | reflexivity].
Qed.

Lemma lookup_slot (m : gmap string Combiner.json) (n : Z) :
  1 <= n <= 4 ->
  [slotTitle m 1; slotTitle m 2; slotTitle m 3; slotTitle m 4] !! Z.to_nat (n - 1)
  = Some (slotTitle m n).
Proof.
  intros Hn.
  assert (n = 1 \/ n = 2 \/ n = 3 \/ n = 4) as [->|[->|[->| ->]]] by lia; reflexivity.
Qed.

(** C9. [loadTitles] returns four titles in slot order. For a translation
    object, a slot that holds a non-empty string yields that string and a
    slot that is absent yields ["Screenshot n"]; for a missing or
    unparseable file the result is the four placeholders. The function is
    total: it never throws. *)
Theorem loadTitles_four_titles :
  forall (files : Combiner.Translations) (locale : string),
    length (Combiner.loadTitles files locale) = 4%nat
    /\ (forall (m : gmap string Combiner.json) (n : Z),
          files locale = Combiner.Parsed (Combiner.JObj m) ->
          1 <= n <= 4 ->
          (forall s,
             m !! Combiner.slotKey n = Some (Combiner.JStr s) ->
             s <> EmptyString ->
             Combiner.loadTitles files locale !! Z.to_nat (n - 1)
             = Some (Combiner.JStr s))
          /\ (m !! Combiner.slotKey n = None ->
              Combiner.loadTitles files locale !! Z.to_nat (n - 1)
              = Some (Combiner.JStr ("Screenshot " +:+ pretty n))))
    /\ (files locale = Combiner.Missing \/ files locale = Combiner.Unparseable ->
        Combiner.loadTitles files locale
        = [Combiner.JStr "Screenshot 1"; Combiner.JStr "Screenshot 2";
           Combiner.JStr "Screenshot 3"; Combiner.JStr "Screenshot 4"]).
Proof.
  intros files locale. split; [|split].
  - destruct (files locale) as [| |[| | | | |m]] eqn:Hfile;
      try (unfold Combiner.loadTitles; rewrite Hfile; reflexivity).
    rewrite (loadTitles_object files locale m Hfile). reflexivity.
  - intros m n Hfile Hn. rewrite (loadTitles_object files locale m Hfile).
    rewrite (lookup_slot m n Hn). unfold slotTitle. split.
    + intros s -> Hs. simpl. destruct s; [congruence | reflexivity].
    + intros ->. reflexivity.
  - intros [Hfile|Hfile]; unfold Combiner.loadTitles; rewrite Hfile; reflexivity.
Qed.

(** The scenario of C9: the file for [fr] has only [slot_1] and [slot_3];
    slots 2 and 4 get their placeholders. *)
Lemma loadTitles_four_titles_witness :
  Combiner.loadTitles (translationsOf onlySlots1And3) "fr"
  = [Combiner.JStr "Bonjour"; Combiner.JStr "Screenshot 2";
     Combiner.JStr "Salut"; Combiner.JStr "Screenshot 4"]
  /\ Combiner.loadTitles (translationsOf onlySlots1And3) "fr" !! 1%nat
     = Some (Combiner.JStr "Screenshot 2")
  /\ Combiner.loadTitles (translationsOf onlySlots1And3) "fr" !! 2%nat
     = Some (Combiner.JStr "Salut")
  /\ length (Combiner.loadTitles (translationsOf onlySlots1And3) "fr") = 4%nat.
Proof.
  destruct (loadTitles_four_titles (translationsOf onlySlots1And3) "fr")
    as (Hlen & Hslots & _).
  pose proof (Hslots onlySlots1And3 2 eq_refl ltac:(lia)) as [_ H2].
  pose proof (Hslots onlySlots1And3 3 eq_refl ltac:(lia)) as [H3 _].
  split; [vm_compute; reflexivity|]. split; [|split].
  - apply H2. vm_compute. reflexivity.
  - apply (H3 "Salut"); [vm_compute; reflexivity | discriminate].
  - exact Hlen.
Defined.

(** C10, as the code has it. A slot whose value is falsy (the empty
    string, [0], [false], [null]) gets the placeholder, like an absent
    slot; so every title returned is truthy, and it is a non-empty string
    when the truthy slot values of the translation object are strings. A
    truthy value of another type is returned as it is. *)
Theorem loadTitles_falsy_slots :
  forall (files : Combiner.Translations) (locale : string),
    (forall (m : gmap string Combiner.json) (n : Z) (v : Combiner.json),
       files locale = Combiner.Parsed (Combiner.JObj m) ->
       1 <= n <= 4 ->
       m !! Combiner.slotKey n = Some v ->
       Combiner.truthy v = false ->
       Combiner.loadTitles files locale !! Z.to_nat (n - 1)
       = Some (Combiner.JStr ("Screenshot " +:+ pretty n)))
    /\ Forall (fun title => Combiner.truthy title = true)
              (Combiner.loadTitles files locale)
    /\ ((forall (m : gmap string Combiner.json) (n : Z) (v : Combiner.json),
           files locale = Combiner.Parsed (Combiner.JObj m) ->
           1 <= n <= 4 ->
           m !! Combiner.slotKey n = Some v ->
           Combiner.truthy v = true ->
           exists s, v = Combiner.JStr s) ->
        Forall nonEmptyString (Combiner.loadTitles files locale)).
Proof.
  intros files locale. split; [|split].
  - intros m n v Hfile Hn Hv Hfalsy.
    rewrite (loadTitles_object files locale m Hfile), (lookup_slot m n Hn).
    unfold slotTitle. rewrite Hv, Hfalsy. reflexivity.
  - destruct (files locale) as [| |[| | | | |m]] eqn:Hfile;
      try solve [unfold Combiner.loadTitles; rewrite Hfile; repeat constructor].
    rewrite (loadTitles_object files locale m Hfile).
    repeat constructor; apply slotTitle_truthy.
  - intros Hstrings.
    destruct (files locale) as [| |[| | | | |m]] eqn:Hfile;
      try solve [unfold Combiner.loadTitles; rewrite Hfile;
                 repeat constructor; eexists; (split; [reflexivity | discriminate])].
    rewrite (loadTitles_object files locale m Hfile).
    assert (forall n, 1 <= n <= 4 -> nonEmptyString (slotTitle m n)) as Hslot.
    { intros n Hn. unfold slotTitle.
      destruct (m !! Combiner.slotKey n) as [v|] eqn:Hv.
      - destruct (Combiner.truthy v) eqn:Ht.
        + destruct (Hstrings m n v eq_refl Hn Hv Ht) as [s ->].
          exists s. split; [reflexivity|]. intros ->. discriminate.
        + assert (n = 1 \/ n = 2 \/ n = 3 \/ n = 4) as [->|[->|[->| ->]]] by lia;
            eexists; (split; [reflexivity | discriminate]).
      - assert (n = 1 \/ n = 2 \/ n = 3 \/ n = 4) as [->|[->|[->| ->]]] by lia;
          eexists; (split; [reflexivity | discriminate]). }
    repeat constructor; apply Hslot; lia.
Qed.

(** A file whose [slot_2] is the empty string: the second title is the
    placeholder. *)
Lemma loadTitles_falsy_slots_witness :
  Combiner.loadTitles (translationsOf emptySlot2) "fr" !! 1%nat
  = Some (Combiner.JStr "Screenshot 2").
Proof.
  destruct (loadTitles_falsy_slots (translationsOf emptySlot2) "fr") as (Hfalsy & _ & _).
  apply (Hfalsy emptySlot2 2 (Combiner.JStr "") eq_refl ltac:(lia)).
  - vm_compute. reflexivity.
  - reflexivity.
Defined.

(** C10 fails as stated: a file whose [slot_1] is the number 7 yields a
    first title that is that number, not a string. *)
Lemma loadTitles_number_counterexample :
  Combiner.loadTitles (translationsOf numberInSlot1) "en" !! 0%nat
  = Some (Combiner.JNum 7)
  /\ ~ Forall nonEmptyString (Combiner.loadTitles (translationsOf numberInSlot1) "en").
Proof.
  assert (Combiner.loadTitles (translationsOf numberInSlot1) "en" !! 0%nat
          = Some (Combiner.JNum 7)) as Hfirst by (vm_compute; reflexivity).
  split; [exact Hfirst|]. intros Hall.
  rewrite Forall_forall in Hall.
  destruct (Hall (Combiner.JNum 7)) as (s & Hs & _); [|discriminate].
  apply list_elem_of_lookup. eauto.
Qed.

(** ** Combiner: title word wrap *)

Lemma string_length_app (a b : string) :
  String.length (a +:+ b) = (String.length a + String.length b)%nat.
Proof. induction a as [|c a IH]; simpl; [reflexivity | rewrite IH; reflexivity]. Qed.

Lemma string_app_assoc (a b c : string) : (a +:+ b) +:+ c = a +:+ (b +:+ c).
Proof.
  induction a as [|x a IH]; [reflexivity|].
  change (String x ((a +:+ b) +:+ c) = String x (a +:+ (b +:+ c))).
  rewrite IH. reflexivity.
Qed.

Lemma split_nonempty (sep : ascii) (s : string) : Str.split sep s <> [].
Proof.
  destruct s as [|c s]; simpl; [discriminate|].
  destruct (Ascii.eqb c sep); [discriminate|].
  destruct (Str.split sep s); discriminate.
Qed.

Lemma join_cons_first (c : ascii) (w : string) (ws : list string) :
  Str.join " " (String c w :: ws) = String c (Str.join " " (w :: ws)).
Proof. destruct ws; reflexivity. Qed.

Lemma join_empty_first (ws : list string) :
  ws <> [] -> Str.join " " (EmptyString :: ws) = String " " (Str.join " " ws).
Proof. destruct ws; [congruence | reflexivity]. Qed.

(** Joining the words of a text with the separator gives the text back. *)
Lemma join_split (s : string) : Str.join " " (Str.split " " s) = s.
Proof.
  induction s as [|c s IH]; [reflexivity|]. simpl.
  pose proof (split_nonempty " " s) as Hne.
  destruct (Ascii.eqb_spec c " ") as [->|Hc].
  - rewrite (join_empty_first _ Hne), IH. reflexivity.
  - destruct (Str.split " " s) as [|w ws] eqn:Hs; [congruence|].
    rewrite join_cons_first, IH. reflexivity.
Qed.

Lemma join_app (l1 l2 : list string) :
  l1 <> [] -> l2 <> [] ->
  Str.join " " (l1 ++ l2) = Str.join " " l1 +:+ " " +:+ Str.join " " l2.
Proof.
  intros H1 H2. induction l1 as [|w l1 IH]; [congruence|].
  destruct l1 as [|w' l1].
  - destruct l2; [congruence|]. reflexivity.
  - change (Str.join " " ((w :: w' :: l1) ++ l2))
      with (w +:+ " " +:+ Str.join " " ((w' :: l1) ++ l2)).
    rewrite IH by discriminate.
    change (Str.join " " (w :: w' :: l1)) with (w +:+ " " +:+ Str.join " " (w' :: l1)).
    rewrite !string_app_assoc. reflexivity.
Qed.

Lemma split_noSpace (w : string) : noSpace w = true -> Str.split " " w = [w].
Proof.
  induction w as [|c w IH]; simpl; [reflexivity|].
  intros H. apply andb_true_iff in H. destruct H as [Hc Hw].
  apply negb_true_iff in Hc. rewrite Hc, (IH Hw). reflexivity.
Qed.

Lemma split_word_space (w rest : string) :
  noSpace w = true ->
  Str.split " " (w +:+ " " +:+ rest) = w :: Str.split " " rest.
Proof.
  induction w as [|c w IH]; simpl; [reflexivity|].
  intros H. apply andb_true_iff in H. destruct H as [Hc Hw].
  apply negb_true_iff in Hc. rewrite Hc, (IH Hw). reflexivity.
Qed.

Lemma split_join (ws : list string) :
  ws <> [] ->
  Forall (fun w => noSpace w = true) ws ->
  Str.split " " (Str.join " " ws) = ws.
Proof.
  intros Hne Hall. induction Hall as [|w ws Hw Hall IH]; [congruence|].
  destruct ws as [|w' ws].
  - apply split_noSpace. exact Hw.
  - change (Str.join " " (w :: w' :: ws)) with (w +:+ " " +:+ Str.join " " (w' :: ws)).
    rewrite (split_word_space _ _ Hw), IH by discriminate. reflexivity.
Qed.

Lemma split_words_noSpace (s : string) :
  Forall (fun w => noSpace w = true) (Str.split " " s).
Proof.
  induction s as [|c s IH]; simpl; [repeat constructor|].
  destruct (Ascii.eqb c " ") eqn:Hc; [constructor; [reflexivity | exact IH]|].
  destruct (Str.split " " s) as [|w ws]; [repeat constructor; simpl; rewrite Hc; reflexivity|].
  inversion IH as [|? ? Hw Hws]; subst.
  constructor; [simpl; rewrite Hc, Hw; reflexivity | exact Hws].
Qed.

Lemma escapeXml_noMarkup (s : string) : noMarkup s = true -> Str.escapeXml s = s.
Proof.
  induction s as [|c s IH]; simpl; [reflexivity|].
  intros H. repeat (apply andb_true_iff in H; destruct H as [H ?]).
  repeat match goal with
         | Hn : negb _ = true |- _ => apply negb_true_iff in Hn; rewrite Hn
         end.
  rewrite IH by assumption. reflexivity.
Qed.

Lemma includes_cons (sub : string) (c : ascii) (s : string) :
  Str.includes sub (String c s) = false ->
  String.prefix sub (String c s) = false /\ Str.includes sub s = false.
Proof. simpl. intros H. apply orb_false_iff in H. exact H. Qed.

Lemma prefix_empty (s : string) : String.prefix EmptyString s = true.
Proof. destruct s; reflexivity. Qed.

Lemma prefix_same (c : ascii) (p s : string) :
  String.prefix (String c p) (String c s) = String.prefix p s.
Proof. simpl. destruct (ascii_dec c c); [reflexivity | congruence]. Qed.

(** A text without explicit break is a single part for the manual split. *)
Lemma splitBreaks_no_break (text : string) :
  hasExplicitBreak text = false -> Str.splitBreaks text = [text].
Proof.
  unfold hasExplicitBreak. induction text as [|c s IH]; [reflexivity|].
  intros H. apply orb_false_iff in H. destruct H as [Hlf Hbs].
  apply includes_cons in Hlf. destruct Hlf as [Hlf1 Hlf2].
  apply includes_cons in Hbs. destruct Hbs as [Hbs1 Hbs2].
  assert (Str.splitBreaks s = [s]) as IHs by (apply IH; rewrite Hlf2, Hbs2; reflexivity).
  assert (Ascii.eqb c Str.LF = false) as HcLF.
  { apply Ascii.eqb_neq. intros ->.
    rewrite prefix_same, prefix_empty in Hlf1. discriminate Hlf1. }
  cbn [Str.splitBreaks]. rewrite HcLF.
  destruct s as [|d s'].
  - reflexivity.
  - assert (Ascii.eqb d Str.LF = false) as HdLF.
    { apply Ascii.eqb_neq. intros ->. apply includes_cons in Hlf2.
      destruct Hlf2 as [Hlf2 _].
      rewrite prefix_same, prefix_empty in Hlf2. discriminate Hlf2. }
    assert ((Ascii.eqb c Str.backslash && Ascii.eqb d "n")%bool = false) as Hesc.
    { apply andb_false_iff.
      destruct (Ascii.eqb_spec c Str.backslash) as [->|]; [right | left; reflexivity].
      apply Ascii.eqb_neq. intros ->.
      rewrite !prefix_same, prefix_empty in Hbs1. discriminate Hbs1. }
    rewrite HdLF, andb_false_r, Hesc. simpl orb. cbv iota.
    rewrite IHs. reflexivity.
Qed.

(** Without explicit break [titleLines] takes the word-wrap branch. *)
Lemma titleLines_no_break (text : string) (fontSize width : Z) :
  hasExplicitBreak text = false ->
  Combiner.titleLines text fontSize width
  = let maxCharsPerLine :=
      Js.floor_div (inject_Z width) (inject_Z fontSize * (6 # 10)) in
    let escapedText := Str.escapeXml text in
    if Js.length_gt (String.length escapedText) maxCharsPerLine then
      let words := Str.split " " escapedText in
      let breakIndex := Combiner.wrapLoop maxCharsPerLine words 0 EmptyString 0 in
      if ((0 <? breakIndex)%nat && (breakIndex <? length words)%nat)%bool then
        (Str.join " " (take breakIndex words), Str.join " " (drop breakIndex words))
      else (escapedText, EmptyString)
    else (escapedText, EmptyString).
Proof.
  intros Hno. unfold Combiner.titleLines. rewrite (splitBreaks_no_break text Hno).
  assert ((1 <? length (List.filter Str.truthy [text]))%nat = false) as ->.
  { simpl. destruct (Str.truthy text); reflexivity. }
  reflexivity.
Qed.

(** Breaking a text between two of its words loses nothing. *)
Lemma break_words (escaped : string) (breakIndex : nat) :
  let words := Str.split " " escaped in
  (0 < breakIndex < length words)%nat ->
  let line1 := Str.join " " (take breakIndex words) in
  let line2 := Str.join " " (drop breakIndex words) in
  line1 +:+ " " +:+ line2 = escaped
  /\ Str.split " " line1 ++ Str.split " " line2 = words.
Proof.
  intros words Hbi line1 line2.
  assert (take breakIndex words <> []) as Htake.
  { intros Hnil. apply (f_equal length) in Hnil. rewrite length_take in Hnil.
    simpl in Hnil. lia. }
  assert (drop breakIndex words <> []) as Hdrop.
  { intros Hnil. apply (f_equal length) in Hnil. rewrite length_drop in Hnil.
    simpl in Hnil. lia. }
  pose proof (split_words_noSpace escaped) as Hwords. fold words in Hwords.
  split.
  - subst line1 line2. rewrite <- join_app by assumption.
    rewrite take_drop. apply join_split.
  - subst line1 line2. rewrite !split_join; try assumption.
    + apply take_drop.
    + apply Forall_drop. exact Hwords.
    + apply Forall_take. exact Hwords.
Qed.

(** C7, as the code has it. For a text without explicit line break and
    two allowed lines, the wrap works on the XML-escaped text: the first
    line is never longer than the escaped text; either it is the whole
    escaped text and the second line is empty, or the two lines joined by
    one space are the escaped text and their words, in order, are its
    words. The escaped text is the text itself when the text has none of
    [&], [<], [>]. *)
Theorem title_wrap_keeps_words :
  forall (text : string) (fontSize shadowOffset width : Z),
    hasExplicitBreak text = false ->
    let svg := Combiner.generateTitleSvg text fontSize shadowOffset width Combiner.Lines2 in
    let escaped := Str.escapeXml text in
    (String.length (Combiner.line1 svg) <= String.length escaped)%nat
    /\ ((Combiner.line1 svg = escaped /\ Combiner.line2 svg = EmptyString)
        \/ (Combiner.line1 svg +:+ " " +:+ Combiner.line2 svg = escaped
            /\ Str.split " " (Combiner.line1 svg) ++ Str.split " " (Combiner.line2 svg)
               = Str.split " " escaped))
    /\ (noMarkup text = true -> escaped = text).
Proof.
  intros text fontSize shadowOffset width Hno svg escaped.
  assert ((Combiner.line1 svg = escaped /\ Combiner.line2 svg = EmptyString)
          \/ (Combiner.line1 svg +:+ " " +:+ Combiner.line2 svg = escaped
              /\ Str.split " " (Combiner.line1 svg) ++ Str.split " " (Combiner.line2 svg)
                 = Str.split " " escaped)) as Hlines.
  { subst svg. unfold Combiner.generateTitleSvg.
    rewrite (titleLines_no_break text fontSize width Hno). cbv zeta. fold escaped.
    destruct (Js.length_gt _ _); [|left; split; reflexivity].
    set (breakIndex := Combiner.wrapLoop _ _ _ _ _).
    destruct ((0 <? breakIndex)%nat && (breakIndex <? length (Str.split " " escaped))%nat)%bool
      eqn:Hbreak; [|left; split; reflexivity].
    right. apply andb_true_iff in Hbreak. destruct Hbreak as [Hlo Hhi].
    apply Nat.ltb_lt in Hlo. apply Nat.ltb_lt in Hhi.
    apply (break_words escaped breakIndex). lia. }
  split; [|split; [exact Hlines|]].
  - destruct Hlines as [[-> _]|[Hjoin _]]; [lia|].
    rewrite <- Hjoin, string_length_app. lia.
  - subst escaped. apply escapeXml_noMarkup.
Qed.

(** A title of four words on a 1230-wide image at font size 130 breaks
    after the third word. *)
Lemma title_wrap_keeps_words_witness :
  (String.length
     (Combiner.line1
        (Combiner.generateTitleSvg "Plan Meals in Seconds" 130 1 1230 Combiner.Lines2))
   <= String.length "Plan Meals in Seconds")%nat
  /\ Combiner.line1
       (Combiner.generateTitleSvg "Plan Meals in Seconds" 130 1 1230 Combiner.Lines2)
     = "Plan Meals in"
  /\ Combiner.line2
       (Combiner.generateTitleSvg "Plan Meals in Seconds" 130 1 1230 Combiner.Lines2)
     = "Seconds".
Proof.
  destruct (title_wrap_keeps_words "Plan Meals in Seconds" 130 1 1230 eq_refl)
    as (Hlen & _ & _).
  split; [exact Hlen|]. split; reflexivity.
Defined.

(** C7 fails as stated: the text [a&b] has three characters, more than
    the single character that fits a 100-wide line at font size 130, and
    no line break; its first line is the escaped text, seven characters
    long. *)
Lemma title_wrap_escape_counterexample :
  hasExplicitBreak "a&b" = false
  /\ Js.length_gt (String.length "a&b")
       (Js.floor_div (inject_Z 100) (inject_Z 130 * (6 # 10))) = true
  /\ Combiner.line1 (Combiner.generateTitleSvg "a&b" 130 1 100 Combiner.Lines2)
     = "a&amp;b"
  /\ (String.length "a&b"
      < String.length
          (Combiner.line1 (Combiner.generateTitleSvg "a&b" 130 1 100 Combiner.Lines2)))%nat.
Proof.
  split; [reflexivity|]. split; [reflexivity|]. split; [reflexivity|].
  vm_compute. lia.
Qed.

(** * Further properties of the code *)

(** ** Splitter: crop and aspect ratio *)

(** X1. The splitter crops only at the bottom and never pads: every slot
    starts at the top edge, its height is the smaller of the resized
    height and the target height, a crop is applied exactly when the
    resized image is taller than the target and then keeps the full width
    from the origin; when the resized image is shorter than the target
    the slot stays shorter. *)
Theorem splitter_crops_only_bottom :
  forall (W H : Z) (cfg : Splitter.DeviceConfig) (locale : string),
    Forall
      (fun f =>
         Splitter.r_top (Splitter.extract f) = 0
         /\ Splitter.r_height (Splitter.extract f)
            = Z.min (Splitter.resizedHeight f) (Splitter.height cfg)
         /\ match Splitter.crop f with
            | Some r =>
                r = Splitter.mkRect 0 0 (Splitter.resizedWidth f) (Splitter.height cfg)
                /\ Splitter.height cfg < Splitter.resizedHeight f
            | None =>
                Splitter.resizedHeight f <= Splitter.height cfg
                /\ Splitter.r_height (Splitter.extract f) = Splitter.resizedHeight f
            end)
      (Eff.written (Splitter.processDeviceConfig W H cfg locale)).
Proof.
  intros W H cfg locale.
  destruct (processDeviceConfig_cases W H cfg locale) as [[_ ->]|[_ [msg ->]]];
    [|constructor].
  cbv zeta. set (rh := Js.Math_round _).
  destruct (Splitter.height cfg <? rh) eqn:Hcrop;
    repeat constructor; simpl; lia.
Qed.

(** X2. The resize keeps the aspect ratio of the combined image to within
    half a pixel: for a combined image of positive width [W] and height
    [H] and target width [T], the resized height [h] satisfies
    [|2 W h - 8 T H| <= W]. *)
Theorem splitter_resize_keeps_aspect :
  forall (W H : Z) (cfg : Splitter.DeviceConfig) (locale : string),
    0 < W ->
    Forall
      (fun f =>
         Z.abs (2 * W * Splitter.resizedHeight f - 8 * Splitter.width cfg * H) <= W)
      (Eff.written (Splitter.processDeviceConfig W H cfg locale)).
Proof.
  intros W H cfg locale HW.
  destruct (processDeviceConfig_cases W H cfg locale) as [[_ ->]|[_ [msg ->]]];
    [|constructor].
  cbv zeta. destruct W as [|p|p]; try lia.
  rewrite !Math_round_ratio.
  set (T := Splitter.width cfg).
  pose proof (Z.div_mod (2 * (T * 4 * H) + Z.pos p) (2 * Z.pos p) ltac:(lia)) as Hdm.
  pose proof (Z.mod_pos_bound (2 * (T * 4 * H) + Z.pos p) (2 * Z.pos p) ltac:(lia)) as Hmod.
  repeat constructor; simpl; lia.
Qed.

(** The 5000 x 9000 composite resized for the 1242-wide target is 8942
    high. *)
Lemma splitter_resize_keeps_aspect_witness :
  Forall
    (fun f => Z.abs (2 * 5000 * Splitter.resizedHeight f - 8 * 1242 * 9000) <= 5000)
    (Eff.written
       (Splitter.processDeviceConfig 5000 9000
          (Splitter.mkDeviceConfig "iphone 6.5 inch" 1242 2688 "iphone 6.5 inch (1242x2688)")
          "en"))
  /\ map Splitter.resizedHeight
       (Eff.written
          (Splitter.processDeviceConfig 5000 9000
             (Splitter.mkDeviceConfig "iphone 6.5 inch" 1242 2688
                "iphone 6.5 inch (1242x2688)")
             "en"))
     = [8942; 8942; 8942; 8942].
Proof.
  split.
  - apply (splitter_resize_keeps_aspect 5000 9000
             (Splitter.mkDeviceConfig "iphone 6.5 inch" 1242 2688
                "iphone 6.5 inch (1242x2688)") "en").
    lia.
  - vm_compute. reflexivity.
Defined.

(** ** Splitter: what a run leaves on disk *)


(** The checks before the loop: the image is accepted, or the splitter
    throws before it has written anything. *)
Lemma splitScreenshots_cases (disk : Splitter.Combined)
    (options : Splitter.SplitterOptions) :
  (exists W H,
     disk (Splitter.deviceType options) (Splitter.locale options)
       = Some (Splitter.mkMetadata (Some W) (Some H))
     /\ 1000 <= W /\ 1000 <= H
     /\ Splitter.splitScreenshots disk options
        = Eff.for_each
            (fun cfg => Splitter.processDeviceConfig W H cfg (Splitter.locale options))
            (Splitter.filteredConfigs options))
  \/ (~ acceptable (disk (Splitter.deviceType options) (Splitter.locale options))
      /\ exists msg, Splitter.splitScreenshots disk options = ([], inl msg)).
Proof.
  destruct (disk (Splitter.deviceType options) (Splitter.locale options))
    as [[[W|] [H|]]|] eqn:Hdisk.
  - destruct (Z_lt_ge_dec W 1000) as [HW|HW]; [|destruct (Z_lt_ge_dec H 1000) as [HH|HH]].
    + right. split.
      * intros (W' & H' & Heq & ? & ?). inversion Heq; subst. lia.
      * unfold Splitter.splitScreenshots. rewrite Hdisk. simpl.
        destruct (W =? 0); simpl; [eauto|]. destruct (H =? 0); simpl; [eauto|].
        assert ((W <? 1000) = true) as -> by lia. simpl. eauto.
    + right. split.
      * intros (W' & H' & Heq & ? & ?). inversion Heq; subst. lia.
      * unfold Splitter.splitScreenshots. rewrite Hdisk. simpl.
        destruct (W =? 0); simpl; [eauto|]. destruct (H =? 0); simpl; [eauto|].
        assert ((H <? 1000) = true) as -> by lia. rewrite orb_true_r. eauto.
    + left. exists W, H. repeat split; try lia.
      apply splitScreenshots_accepts; [exact Hdisk | lia | lia].
  - right. split; [intros (W' & H' & Heq & _); discriminate|].
    unfold Splitter.splitScreenshots. rewrite Hdisk. simpl. rewrite orb_true_r. eauto.
  - right. split; [intros (W' & H' & Heq & _); discriminate|].
    unfold Splitter.splitScreenshots. rewrite Hdisk. eauto.
  - right. split; [intros (W' & H' & Heq & _); discriminate|].
    unfold Splitter.splitScreenshots. rewrite Hdisk. eauto.
  - right. split; [intros (W' & H' & Heq & _); discriminate|].
    unfold Splitter.splitScreenshots. rewrite Hdisk. eauto.
Qed.




(** ** Splitter: the batch run and the disk *)

Lemma successes_failures (rs : list bool) :
  (successes rs + failures rs = length rs)%nat.
Proof.
  unfold successes, failures. induction rs as [|[] rs IH]; simpl; lia.
Qed.

(** A device config of positive size whose slots are within the pixel
    limit is served exactly when the resized height is at least one
    pixel: [W <= 8 T H]. *)
Lemma processDeviceConfig_served (W H : Z) (cfg : Splitter.DeviceConfig) (l : string) :
  0 < W ->
  0 < H ->
  0 < Splitter.width cfg ->
  0 < Splitter.height cfg ->
  Splitter.width cfg * Splitter.height cfg <= Sharp.INPUT_PIXEL_LIMIT ->
  Eff.outcome (Splitter.processDeviceConfig W H cfg l) = inr tt
  <-> W <= 8 * Splitter.width cfg * H.
Proof.
  intros HW HH HT Hh Hpix.
  destruct (processDeviceConfig_cases W H cfg l) as [[Hserved ->]|[Hnot [msg ->]]];
    cbv zeta in *; destruct W as [|p|p]; try lia;
    rewrite !Math_round_ratio in *;
    set (T := Splitter.width cfg) in *;
    set (rh := (2 * (T * 4 * H) + Z.pos p) / (2 * Z.pos p)) in *;
    pose proof (Z.div_mod (2 * (T * 4 * H) + Z.pos p) (2 * Z.pos p) ltac:(lia)) as Hdm;
    pose proof (Z.mod_pos_bound (2 * (T * 4 * H) + Z.pos p) (2 * Z.pos p) ltac:(lia))
      as Hmod; fold rh in Hdm.
  - split; [intros _|reflexivity]. destruct Hserved as (_ & Hrh & _). nia.
  - split; [discriminate|]. intros Hflat. exfalso. apply Hnot.
    assert (1 <= rh) as Hrh by (apply Z.div_le_lower_bound; lia).
    split; [exact HT|]. split; [lia|]. split; [exact Hh|].
    destruct (Splitter.height cfg <? rh) eqn:E; [exact Hpix|].
    apply Z.ltb_ge in E. unfold Sharp.INPUT_PIXEL_LIMIT in *. nia.
Qed.

Lemma for_each_outcome {W A : Type} (body : A -> Eff.eff W unit) (xs : list A) :
  Eff.outcome (Eff.for_each body xs) = inr tt
  <-> forall x, In x xs -> Eff.outcome (body x) = inr tt.
Proof.
  destruct (for_each_first_failure body xs)
    as [(done & failing & rest & msg & -> & _ & Hfail & ->)|[Hall ->]].
  - split; [discriminate|]. intros Hall.
    rewrite Hall in Hfail by apply in_elt. discriminate.
  - split; [intros _; exact Hall | reflexivity].
Qed.

Lemma filteredConfigs_default (l : string) (device : DeviceType) :
  Splitter.filteredConfigs
    (Splitter.mkSplitterOptions Splitter.DEFAULT_DEVICE_CONFIGS l device)
  = match device with
    | iphone =>
        [Splitter.mkDeviceConfig "iphone 6.5 inch" 1242 2688 "iphone 6.5 inch (1242x2688)";
         Splitter.mkDeviceConfig "iphone 6.9 inch" 1320 2868 "iphone 6.9 inch (1320x2868)"]
    | ipad =>
        [Splitter.mkDeviceConfig "ipad 13 inch" 2752 2064 "ipad 13 inch (2752x2064)"]
    end.
Proof. destruct device; reflexivity. Qed.

Lemma succeeded_outcome {W : Type} (r : Eff.eff W unit) :
  Eff.succeeded r = true <-> Eff.outcome r = inr tt.
Proof.
  unfold Eff.succeeded, Eff.outcome. destruct (snd r) as [msg|[]].
  - split; discriminate.
  - split; reflexivity.
Qed.

Lemma splitter_attempt_iff (disk : Splitter.Combined) (targetDevice : option DeviceType)
    (locale : string) :
  Splitter.attempt disk targetDevice locale = true
  <-> splittable (default iphone targetDevice) (disk (default iphone targetDevice) locale).
Proof.
  unfold Splitter.attempt. rewrite succeeded_outcome.
  set (device := default iphone targetDevice).
  destruct (splitScreenshots_cases disk
              (Splitter.mkSplitterOptions Splitter.DEFAULT_DEVICE_CONFIGS locale device))
    as [(W & H & Hdisk & HW & HH & Hrun)|[Hnot [msg Hthrow]]];
    cbn [Splitter.deviceType Splitter.locale] in *.
  - rewrite Hrun, for_each_outcome, filteredConfigs_default.
    assert (0 < W) as HW0 by lia. assert (0 < H) as HH0 by lia.
    assert (forall cfg,
              In cfg Splitter.DEFAULT_DEVICE_CONFIGS ->
              Eff.outcome (Splitter.processDeviceConfig W H cfg locale) = inr tt
              <-> W <= 8 * Splitter.width cfg * H) as Hserved.
    { intros cfg Hin. apply processDeviceConfig_served; [exact HW0 | exact HH0 | | |];
        destruct Hin as [<-|[<-|[<-|[]]]]; vm_compute; congruence. }
    split.
    + intros Hall. exists W, H. split; [exact Hdisk|]. split; [exact HW|].
      split; [exact HH|].
      destruct device; cbn [narrowestDefault].
      * apply (Hserved (Splitter.mkDeviceConfig "iphone 6.5 inch" 1242 2688
                          "iphone 6.5 inch (1242x2688)")); [left; reflexivity|].
        apply Hall. left. reflexivity.
      * apply (Hserved (Splitter.mkDeviceConfig "ipad 13 inch" 2752 2064
                          "ipad 13 inch (2752x2064)"));
          [right; right; left; reflexivity|].
        apply Hall. left. reflexivity.
    + intros (W' & H' & Heq & _ & _ & Hflat).
      rewrite Hdisk in Heq. injection Heq as <- <-.
      intros cfg Hin.
      destruct device; cbn [narrowestDefault] in Hflat.
      * destruct Hin as [<-|[<-|[]]].
        -- apply Hserved; [left; reflexivity|].
           cbn [Splitter.width]. lia.
        -- apply Hserved; [right; left; reflexivity|].
           cbn [Splitter.width]. lia.
      * destruct Hin as [<-|[]].
        apply Hserved; [right; right; left; reflexivity|].
        cbn [Splitter.width]. lia.
  - rewrite Hthrow. cbn. split; [discriminate|].
    intros (W & H & Heq & HW & HH & _). exfalso. apply Hnot. exists W, H. auto.
Qed.

(** X4. The splitter's batch run over all locales ends with status 0
    exactly when every locale can be split: it has a combined image of at
    least 1000 x 1000 for the device type (iPhone when none is given) that
    is not so flat that the resize for the narrowest built-in target
    of that device type ([T] = 1242 for iPhone, 2752 for iPad) leaves no
    pixel row, [W <= 8 T H]. Every locale is counted once, as processed or
    as failed. With [--locale l], a locale that is not available ends the
    run with status 1 before any work, and an available one is the only
    locale processed. *)
Theorem splitter_main_status :
  forall (disk : Splitter.Combined) (allLocales : list string)
         (targetDevice : option DeviceType),
    (Batch.exitCode (Splitter.main disk allLocales None targetDevice) = 0
     <-> forall l,
           In l allLocales ->
           splittable (default iphone targetDevice) (disk (default iphone targetDevice) l))
    /\ (Batch.processed (Batch.tally (Splitter.main disk allLocales None targetDevice))
        + Batch.failed (Batch.tally (Splitter.main disk allLocales None targetDevice))
        = length allLocales)%nat
    /\ (forall l,
          ~ In l allLocales ->
          Splitter.main disk allLocales (Some l) targetDevice
          = Batch.mkExit (Batch.mkTally 0 0 []) 1)
    /\ (forall l,
          In l allLocales ->
          Batch.results (Batch.tally (Splitter.main disk allLocales (Some l) targetDevice))
          = [Splitter.attempt disk targetDevice l]).
Proof.
  intros disk allLocales targetDevice.
  destruct (splitter_main_exit disk allLocales targetDevice) as (_ & _ & Hzero).
  split; [|split; [|split]].
  - rewrite Hzero. split.
    + intros Hnone l Hl. apply splitter_attempt_iff.
      destruct (Splitter.attempt disk targetDevice l) eqn:Ha; [reflexivity|].
      exfalso. apply Hnone. apply in_map_iff. exists l. auto.
    + intros Hall Hin. apply in_map_iff in Hin. destruct Hin as (l & Ha & Hl).
      apply Hall, splitter_attempt_iff in Hl. congruence.
  - unfold Splitter.main. rewrite run_spec. simpl.
    rewrite successes_failures, length_map. reflexivity.
  - intros l Hl. unfold Splitter.main.
    rewrite bool_decide_eq_false_2; [reflexivity|].
    intros Hin. apply Hl. apply list_elem_of_In. exact Hin.
  - intros l Hl. unfold Splitter.main.
    rewrite bool_decide_eq_true_2 by (apply list_elem_of_In; exact Hl).
    rewrite run_spec. reflexivity.
Qed.

(** With combined images for [en] only, a run for the unknown locale [xx]
    ends at once and a run for [en] processes that locale alone. A
    combined image of 9,936,001 x 1000 is large enough but too flat: the
    run over it ends with status 1, while 9,936,000 x 1000 is split. *)
Lemma splitter_main_status_witness :
  Splitter.main (combinedOf 5000 9000) ["de"; "en"] (Some "xx") None
  = Batch.mkExit (Batch.mkTally 0 0 []) 1
  /\ Batch.results
       (Batch.tally (Splitter.main (combinedOf 5000 9000) ["de"; "en"] (Some "en") None))
     = [Splitter.attempt (combinedOf 5000 9000) None "en"]
  /\ Batch.exitCode (Splitter.main (combinedOf 9936001 1000) ["en"] None None) = 1
  /\ Batch.exitCode (Splitter.main (combinedOf 9936000 1000) ["en"] None None) = 0.
Proof.
  destruct (splitter_main_status (combinedOf 5000 9000) ["de"; "en"] None)
    as (_ & _ & Hunknown & Hknown).
  split; [|split; [|split]].
  - apply Hunknown. simpl. intros [H|[H|[]]]; discriminate.
  - apply Hknown. simpl. auto.
  - vm_compute. reflexivity.
  - destruct (splitter_main_status (combinedOf 9936000 1000) ["en"] None)
      as (Hzero & _).
    apply Hzero. intros l [<-|[]]. exists 9936000, 1000.
    split; [reflexivity|]. cbn. lia.
Defined.

(** ** Framer: where the screenshot sits *)

(** X5. A screenshot of positive size framed with a margin that is not
    negative, the framed image being within the library's pixel limit,
    gives a framed image whose bezel layer has the size of the canvas.
    With an edge margin [m] in the merged settings the screenshot has a
    gap of [m] on all four sides; as the default settings carry an edge
    margin of 30, overrides that do not mention [edgeMargin] (a screenshot
    offset, a frame padding) leave the gap at 30. With the edge margin
    unset the screenshot sits at the screenshot offset, the canvas is still
    sized from the left offset alone, and the gap below the screenshot is
    [2 * left - top]. Outside these conditions (a negative margin, an
    empty screenshot, a canvas over the limit) the call throws and writes
    nothing. *)
Theorem framer_margins :
  forall (inputs : Framer.Screenshots) (options : Framer.FrameOptions) (w h : Z),
    inputs (Framer.inputPath options) = Some (w, h) ->
    let merged := Framer.mergeSettings (Framer.settings options) in
    (frameableWith w h (marginOf merged) ->
     exists framed,
       Framer.frameScreenshot inputs options
       = ([(Framer.inputPath options, framed)], inr framed)
       /\ Framer.bezelWidth framed = Framer.canvasWidth framed
       /\ Framer.bezelHeight framed = Framer.canvasHeight framed
       /\ (forall m,
             Framer.edgeMargin merged = Some m ->
             Framer.shotLeft framed = m
             /\ Framer.shotTop framed = m
             /\ Framer.canvasWidth framed - (Framer.shotLeft framed + w) = m
             /\ Framer.canvasHeight framed - (Framer.shotTop framed + h) = m)
       /\ (Framer.p_edgeMargin (Framer.settings options) = None ->
           Framer.edgeMargin merged = Some 30)
       /\ (Framer.edgeMargin merged = None ->
           let offset := Framer.screenshotOffset merged in
           Framer.shotLeft framed = Framer.left offset
           /\ Framer.shotTop framed = Framer.top offset
           /\ Framer.canvasWidth framed - (Framer.shotLeft framed + w)
              = Framer.left offset
           /\ Framer.canvasHeight framed - (Framer.shotTop framed + h)
              = 2 * Framer.left offset - Framer.top offset))
    /\ (~ frameableWith w h (marginOf merged) ->
        exists msg, Framer.frameScreenshot inputs options = ([], inl msg)).
Proof.
  intros inputs options w h Hread merged.
  destruct (frameScreenshot_cases inputs options w h Hread) as [Hok Hfail].
  fold merged in Hok, Hfail. split; [|exact Hfail].
  intros Hvalid. eexists. split; [apply Hok; exact Hvalid|].
  cbn [Framer.bezelWidth Framer.bezelHeight Framer.canvasWidth Framer.canvasHeight
       Framer.shotLeft Framer.shotTop].
  unfold Framer.getScreenshotOffset, marginOf.
  split; [reflexivity|]. split; [reflexivity|]. split; [|split].
  - intros m ->. lia.
  - intros Hnone. unfold merged, Framer.mergeSettings. cbn [Framer.edgeMargin].
    rewrite Hnone. reflexivity.
  - intros ->. cbv zeta. lia.
Qed.

(** Overriding the screenshot offset alone still gives a 1230 x 2592
    image with the screenshot at (30, 30); unsetting the margin with
    offsets [top = 40], [left = 25] leaves a gap of [10] below it; an
    edge margin of [-5] makes the call throw. *)
Lemma framer_margins_witness :
  (exists framed,
     Eff.outcome (Framer.frameScreenshot shot1170 frameWithOffset100) = inr framed
     /\ Framer.shotLeft framed = 30
     /\ Framer.shotTop framed = 30
     /\ Framer.canvasWidth framed = 1230)
  /\ (exists framed,
        Eff.outcome (Framer.frameScreenshot shot1170 frameWithoutMargin) = inr framed
        /\ Framer.canvasHeight framed - (Framer.shotTop framed + 2532) = 10)
  /\ (exists msg,
        Framer.frameScreenshot shot1170 frameWithNegativeMargin = ([], inl msg)).
Proof.
  split; [|split].
  - destruct (framer_margins shot1170 frameWithOffset100 1170 2532 eq_refl) as [Hok _].
    destruct Hok as (framed & Hrun & _ & _ & Hmargin & Hdefault & _).
    { unfold frameableWith, Sharp.INPUT_PIXEL_LIMIT. cbn. lia. }
    exists framed. split; [rewrite Hrun; reflexivity|].
    destruct (Hmargin 30 (Hdefault eq_refl)) as (Hl & Ht & Hr & _).
    split; [exact Hl|]. split; [exact Ht|]. lia.
  - destruct (framer_margins shot1170 frameWithoutMargin 1170 2532 eq_refl) as [Hok _].
    destruct Hok as (framed & Hrun & _ & _ & _ & _ & Hunset).
    { unfold frameableWith, Sharp.INPUT_PIXEL_LIMIT. cbn. lia. }
    exists framed. split; [rewrite Hrun; reflexivity|].
    destruct (Hunset eq_refl) as (_ & _ & _ & Hb). exact Hb.
  - destruct (framer_margins shot1170 frameWithNegativeMargin 1170 2532 eq_refl)
      as [_ Hfail].
    apply Hfail. unfold frameableWith. cbn. lia.
Defined.

(** ** Framer: the batch run and the input tree *)

Lemma framer_attempt_frameable (inputs : Framer.Screenshots) (file : string * DeviceType) :
  Framer.attempt inputs file = frameable inputs file.
Proof.
  unfold Framer.attempt, frameable, Eff.succeeded.
  destruct (inputs (fst file)) as [[w h]|] eqn:Hread.
  - destruct (frameScreenshot_cases inputs
                (Framer.mkFrameOptions (fst file) (snd file) Framer.noOverrides) w h Hread)
      as [Hok Hfail].
    change (marginOf (Framer.mergeSettings
                        (Framer.settings
                           (Framer.mkFrameOptions (fst file) (snd file)
                              Framer.noOverrides)))) with 30 in Hok, Hfail.
    destruct ((0 <? w) && (0 <? h) && ((w + 60) * (h + 60) <=? Sharp.INPUT_PIXEL_LIMIT))
      eqn:Hb.
    + rewrite Hok; [reflexivity|].
      apply andb_prop in Hb. destruct Hb as [Hb Hpix].
      apply andb_prop in Hb. destruct Hb as [Hw Hh].
      unfold frameableWith. lia.
    + destruct Hfail as [msg ->]; [|reflexivity].
      unfold frameableWith. intros (Hw & Hh & _ & Hpix).
      replace (w + 2 * 30) with (w + 60) in Hpix by lia.
      replace (h + 2 * 30) with (h + 60) in Hpix by lia.
      assert ((0 <? w) = true) as Ew by lia.
      assert ((0 <? h) = true) as Eh by lia.
      assert (((w + 60) * (h + 60) <=? Sharp.INPUT_PIXEL_LIMIT) = true) as Ep by lia.
      rewrite Ew, Eh, Ep in Hb. discriminate.
  - unfold Framer.frameScreenshot. cbn [Framer.inputPath]. rewrite Hread. reflexivity.
Qed.

Lemma successes_map {A} (f : A -> bool) (l : list A) :
  successes (map f l) = length (List.filter f l).
Proof.
  unfold successes. induction l as [|x l IH]; simpl; [reflexivity|].
  destruct (f x); simpl; rewrite IH; reflexivity.
Qed.

Lemma failures_map {A} (f : A -> bool) (l : list A) :
  failures (map f l) = length (List.filter (fun x => negb (f x)) l).
Proof.
  unfold failures. induction l as [|x l IH]; simpl; [reflexivity|].
  destruct (f x); simpl; rewrite IH; reflexivity.
Qed.

(** X6. The framer's batch run, which frames every file with the default
    margin of 30, frames a file exactly when its screenshot can be read,
    has a positive size and gives a framed image within the library's
    pixel limit: it counts as processed the files it can frame and as
    failed the others, and a file whose screenshot cannot be read leaves
    nothing written. *)
Theorem framer_main_counts :
  forall (inputs : Framer.Screenshots) (files : list (string * DeviceType)),
    Batch.processed (Batch.tally (Framer.main inputs files))
    = length (List.filter (frameable inputs) files)
    /\ Batch.failed (Batch.tally (Framer.main inputs files))
       = length (List.filter (fun f => negb (frameable inputs f)) files)
    /\ forall file settings,
         readable inputs file = false ->
         Eff.written
           (Framer.frameScreenshot inputs
              (Framer.mkFrameOptions (fst file) (snd file) settings))
         = [].
Proof.
  intros inputs files. split; [|split].
  - unfold Framer.main. destruct files as [|f files]; [reflexivity|].
    rewrite run_spec. cbn [Batch.tally Batch.processed].
    rewrite successes_map. apply f_equal, filter_ext.
    intros x. apply framer_attempt_frameable.
  - unfold Framer.main. destruct files as [|f files]; [reflexivity|].
    rewrite run_spec. cbn [Batch.tally Batch.failed].
    rewrite failures_map. apply f_equal, filter_ext.
    intros x. rewrite framer_attempt_frameable. reflexivity.
  - intros file settings Hno. unfold readable in Hno.
    apply bool_decide_eq_false in Hno.
    unfold Framer.frameScreenshot. cbn [Framer.inputPath].
    destruct (inputs (fst file)) as [[w h]|]; [|reflexivity].
    exfalso. apply Hno. eauto.
Qed.

(** One screenshot that can be framed, one that is readable but far over
    the pixel limit and one that cannot be read: one processed, two
    failed. *)
Lemma framer_main_counts_witness :
  Batch.processed
    (Batch.tally
       (Framer.main
          (fun p =>
             if String.eqb p "a.png" then Some (1170, 2532)
             else if String.eqb p "big.png" then Some (20000, 20000)
             else None)
          [("a.png", iphone); ("big.png", iphone); ("b.png", iphone)]))
  = 1%nat
  /\ Batch.failed
       (Batch.tally
          (Framer.main
             (fun p =>
                if String.eqb p "a.png" then Some (1170, 2532)
                else if String.eqb p "big.png" then Some (20000, 20000)
                else None)
             [("a.png", iphone); ("big.png", iphone); ("b.png", iphone)]))
     = 2%nat
  /\ Eff.written
       (Framer.frameScreenshot
          (fun p =>
             if String.eqb p "a.png" then Some (1170, 2532)
             else if String.eqb p "big.png" then Some (20000, 20000)
             else None)
          (Framer.mkFrameOptions "b.png" iphone Framer.noOverrides))
     = [].
Proof.
  destruct (framer_main_counts
              (fun p =>
                 if String.eqb p "a.png" then Some (1170, 2532)
                 else if String.eqb p "big.png" then Some (20000, 20000)
                 else None)
              [("a.png", iphone); ("big.png", iphone); ("b.png", iphone)])
    as (Hp & Hf & Hw).
  split; [|split].
  - rewrite Hp. reflexivity.
  - rewrite Hf. reflexivity.
  - apply (Hw ("b.png", iphone) Framer.noOverrides). reflexivity.
Defined.

(** ** Combiner: the shape of a composite *)

(** X7. A written composite has the size of the canvas computed from the
    framed images as loaded. The canvas is never smaller than the
    background and never smaller than what the images need: [n] image
    widths and [n + 1] spacings across, the image height, the title band
    and two spacings down, where the image width and height are those of
    the first framed file. The background is resized exactly when the
    canvas exceeds it in a dimension; otherwise the composite has the size
    of the background. *)
Theorem composite_covers_background_and_images :
  forall (disk : Combiner.Disk) (options : Combiner.CombineOptions)
         (composite : Combiner.Composite),
    Combiner.combineScreenshots disk options = ([composite], inr tt) ->
    exists bgWidth bgHeight first rest w h,
      Combiner.background disk = Some (bgWidth, bgHeight)
      /\ foundFor disk options = first :: rest
      /\ Combiner.framed first = Combiner.Image w h
      /\ bgWidth <= Combiner.c_width composite
      /\ bgHeight <= Combiner.c_height composite
      /\ (let n := Z.of_nat (length (foundFor disk options)) in
          Combiner.c_width composite
          = Z.max bgWidth (w * n + Combiner.spacing options * (n + 1)))
      /\ Combiner.c_height composite
         = Z.max bgHeight
             (h
              + Combiner.canvasTitleHeight (Combiner.titleFontSize options)
                  (Combiner.titleSpacing options) (singleLine options)
              + Combiner.spacing options * 2)
      /\ (Combiner.backgroundResized composite = false
          <-> Combiner.c_width composite = bgWidth
              /\ Combiner.c_height composite = bgHeight).
Proof.
  intros disk options composite Hrun.
  destruct (combineScreenshots_written disk options composite)
    as (bgWidth & bgHeight & images & dims & titleOps & Hbg & Hpos & Himages & Hcalc
        & _ & _ & _ & -> & _).
  { rewrite Hrun. left. reflexivity. }
  pose proof (Forall2_length _ _ _ Himages) as Hlen.
  destruct (foundFor disk options) as [|first rest] eqn:Hfound; [simpl in Hpos; lia|].
  inversion Himages as [|e image es images' Hfirst Hrest]; subst.
  destruct (loadFramedImage_image _ _ _ Hfirst) as (w & h & Hfile & Hw & Hh & Hsw & Hsh).
  exists bgWidth, bgHeight, first, rest, w, h.
  split; [exact Hbg|]. split; [reflexivity|]. split; [exact Hfile|].
  pose proof (canvas_image_size _ _ _ _ _ _ _ _ _ _ Hcalc) as [Hiw Hih].
  apply canvas_bounds in Hcalc. cbv zeta in Hcalc.
  destruct Hcalc as (Hn & Hcw & Hch & _).
  rewrite <- Hlen in Hcw.
  rewrite Hiw, Hw in Hcw. rewrite Hih, Hh in Hch.
  cbn [compositeOf Combiner.c_width Combiner.c_height Combiner.backgroundResized].
  cbv zeta.
  destruct ((bgWidth <? Combiner.canvasWidth dims)
            || (bgHeight <? Combiner.canvasHeight dims)) eqn:Hr.
  - apply orb_true_iff in Hr. repeat split; lia.
  - apply orb_false_iff in Hr. destruct Hr as [Hr1 Hr2].
    apply Z.ltb_ge in Hr1. apply Z.ltb_ge in Hr2. repeat split; lia.
Qed.

(** Four framed 1230 x 2592 screenshots on the 2580 x 1398 background
    give a 5170 x 3158 composite. *)
Lemma composite_covers_background_and_images_witness :
  exists composite,
    Combiner.combineScreenshots (diskWith 4) (Combiner.defaultOptions iphone "en")
    = ([composite], inr tt)
    /\ 2580 <= Combiner.c_width composite
    /\ 1398 <= Combiner.c_height composite
    /\ Combiner.c_width composite = 5170
    /\ Combiner.c_height composite = 3158.
Proof.
  assert (exists c,
            Combiner.combineScreenshots (diskWith 4) (Combiner.defaultOptions iphone "en")
            = ([c], inr tt)) as [composite Hrun]
    by (eexists; vm_compute; reflexivity).
  exists composite. split; [exact Hrun|].
  destruct (composite_covers_background_and_images (diskWith 4)
              (Combiner.defaultOptions iphone "en") composite Hrun)
    as (bgWidth & bgHeight & first & rest & w & h & Hbg & Hfound & Hfile & Hbw & Hbh & _).
  injection Hbg as <- <-.
  split; [exact Hbw|]. split; [exact Hbh|].
  vm_compute in Hrun. injection Hrun as <-. split; reflexivity.
Defined.

(** ** Combiner: where the layers sit *)

Lemma Math_round_halves (a b c : Z) :
  Js.Math_round (inject_Z a + inject_Z b / 2 - inject_Z c / 2) = (2 * a + b - c + 1) / 2.
Proof.
  unfold Js.Math_round.
  rewrite (Qfloor_comp _ ((2 * a + b - c + 1) # 2)); [reflexivity|].
  unfold Qeq, Qminus, Qplus, Qopp, Qdiv, Qmult, Qinv, inject_Z; simpl. lia.
Qed.

Lemma Math_round_half (a b : Z) :
  Js.Math_round (inject_Z a + inject_Z b / 2) = (2 * a + b + 1) / 2.
Proof.
  unfold Js.Math_round.
  rewrite (Qfloor_comp _ ((2 * a + b + 1) # 2)); [reflexivity|].
  unfold Qeq, Qminus, Qplus, Qopp, Qdiv, Qmult, Qinv, inject_Z; simpl. lia.
Qed.

Lemma round_half_le (d : Q) :
  (0 <= d)%Q -> (inject_Z (Z.max 0 (Js.Math_round (d / 2))) <= d)%Q.
Proof.
  intros Hd. unfold Js.Math_round.
  pose proof (Qfloor_le (d / 2 + (1 # 2))) as Hf.
  destruct (Z.max_spec 0 (Qfloor (d / 2 + (1 # 2)))) as [[Hlt ->]|[Hge ->]].
  - assert (inject_Z 1 <= inject_Z (Qfloor (d / 2 + (1 # 2))))%Q as H1
      by (rewrite <- Zle_Qle; lia).
    change (inject_Z 1) with 1%Q in H1.
    assert (d == 2 * (d / 2))%Q as Hh by field.
    set (x := (d / 2)%Q) in *. set (r := inject_Z (Qfloor (x + (1 # 2)))) in *.
    lra.
  - exact Hd.
Qed.

(** A block of width [w] centred in quarter [k] of width [q >= w] lies
    inside that quarter. *)
Lemma centred_in_quarter (k q w : Z) :
  w <= q ->
  let left := (2 * (k * q) + q - w + 1) / 2 in
  k * q <= left /\ left + w <= (k + 1) * q.
Proof.
  intros Hw left.
  pose proof (Z.div_mod (2 * (k * q) + q - w + 1) 2 ltac:(lia)) as Hdm.
  pose proof (Z.mod_pos_bound (2 * (k * q) + q - w + 1) 2 ltac:(lia)) as Hmod.
  fold left in Hdm. lia.
Qed.

Lemma generateTitleSvg_fields (text : string) (fontSize shadowOffset width : Z)
    (maxLines : Combiner.MaxLines) :
  let svg := Combiner.generateTitleSvg text fontSize shadowOffset width maxLines in
  let second :=
    if isSingleLine maxLines then EmptyString
    else snd (Combiner.titleLines text fontSize width) in
  Combiner.line1 svg = fst (Combiner.titleLines text fontSize width)
  /\ Combiner.line2 svg = second
  /\ Combiner.svgWidth svg = width
  /\ Combiner.svgHeight svg
     = Qceiling (inject_Z fontSize * (12 # 10)
                 * inject_Z (if Str.truthy second then 2 else 1)
                 + inject_Z (Qceiling (inject_Z fontSize * (2 # 10)) + Z.abs shadowOffset)
                   * 2).
Proof.
  unfold Combiner.generateTitleSvg.
  destruct (Combiner.titleLines text fontSize width) as [l1 l2].
  destruct maxLines; repeat split.
Qed.

Lemma quarter_holds_image_width (framedImages : list Combiner.FramedImage)
    (spacing bgWidth bgHeight titleFontSize titleSpacing : Z)
    (centerInQuarters singleLineTitles : bool) (dims : Combiner.CanvasDimensions) :
  Combiner.calculateCanvasDimensions framedImages spacing bgWidth bgHeight
    titleFontSize titleSpacing centerInQuarters singleLineTitles = Some dims ->
  0 <= spacing ->
  Combiner.imageWidth dims <= Combiner.quarterWidth dims.
Proof.
  intros Hcalc Hsp. apply canvas_bounds in Hcalc. cbv zeta in Hcalc.
  destruct Hcalc as (Hn & Hcw & _ & ->).
  apply Z.div_le_lower_bound; [exact Hn|]. nia.
Qed.

(** X8. In a written composite the first [n] layers are the titles, one
    per framed screenshot. Each title block is as wide as the image
    allocation and starts no higher than one spacing from the top; when
    it is not higher than the title height the layers are positioned
    with, it ends at or above the top of the image row. With
    [centerInQuarters] and a non-negative spacing, title [k] lies inside
    quarter [k] of the canvas, so title blocks never overlap. *)
Theorem title_layers_layout :
  forall (disk : Combiner.Disk) (options : Combiner.CombineOptions)
         (composite : Combiner.Composite),
    Combiner.combineScreenshots disk options = ([composite], inr tt) ->
    exists first rest w h,
      foundFor disk options = first :: rest
      /\ Combiner.framed first = Combiner.Image w h
      /\ forall (k : nat) (l : Combiner.Layer),
           (k < length (foundFor disk options))%nat ->
           Combiner.layers composite !! k = Some l ->
           let quarterWidth :=
             Combiner.c_width composite / Z.of_nat (length (foundFor disk options)) in
           exists svg,
             Combiner.input l = Combiner.TitleLayer svg
             /\ Combiner.svgWidth svg = w
             /\ (inject_Z (Combiner.spacing options) <= Combiner.l_top l)%Q
             /\ ((inject_Z (Combiner.svgHeight svg) <= layoutHeightOf options)%Q ->
                 (Combiner.l_top l + inject_Z (Combiner.svgHeight svg)
                  <= inject_Z (Combiner.spacing options) + layoutHeightOf options)%Q)
             /\ (Combiner.centerInQuarters options = true ->
                 0 <= Combiner.spacing options ->
                 Z.of_nat k * quarterWidth <= Combiner.l_left l
                 /\ Combiner.l_left l + Combiner.svgWidth svg
                    <= (Z.of_nat k + 1) * quarterWidth).
Proof.
  intros disk options composite Hrun.
  destruct (combineScreenshots_written disk options composite)
    as (bgWidth & bgHeight & images & dims & titleOps & Hbg & Hpos & Himages & Hcalc
        & Hlen & Htitles & _ & -> & _).
  { rewrite Hrun. left. reflexivity. }
  pose proof (Forall2_length _ _ _ Himages) as Hfoundlen.
  destruct (foundFor disk options) as [|first rest] eqn:Hfound; [simpl in Hpos; lia|].
  inversion Himages as [|e image es images' Hfirst Hrest]; subst.
  destruct (loadFramedImage_image _ _ _ Hfirst) as (w & h & Hfile & Hw & Hh & Hsw & Hsh).
  exists first, rest, w, h. split; [reflexivity|]. split; [exact Hfile|].
  pose proof (canvas_image_size _ _ _ _ _ _ _ _ _ _ Hcalc) as [Hiw Hih].
  pose proof (canvas_bounds _ _ _ _ _ _ _ _ _ Hcalc) as Hbounds.
  cbv zeta in Hbounds. destruct Hbounds as (Hn & _ & _ & Hq).
  intros k l Hk Hl. cbn [compositeOf Combiner.layers Combiner.c_width] in *.
  rewrite Hfoundlen. rewrite <- Hq.
  rewrite lookup_app_l in Hl by lia.
  destruct (Htitles k l Hl) as (text & _ & ->). unfold titleLayerAt.
  set (svg := Combiner.generateTitleSvg _ _ _ _ _).
  exists svg. cbn [Combiner.input Combiner.l_top Combiner.l_left].
  assert (Combiner.svgWidth svg = Combiner.imageWidth dims) as Hwidth
    by (subst svg; apply generateTitleSvg_fields).
  split; [reflexivity|]. split; [rewrite Hwidth, Hiw, Hw; exact Hsw|]. split; [|split].
  - rewrite <- Zle_Qle. lia.
  - intros Hfits. rewrite inject_Z_plus.
    pose proof (round_half_le (layoutHeightOf options - inject_Z (Combiner.svgHeight svg))
                  ltac:(lra)) as Hround.
    lra.
  - intros -> Hsp. rewrite Math_round_halves, Hwidth.
    apply centred_in_quarter.
    eapply quarter_holds_image_width; eassumption.
Qed.

(** With the default settings the four titles of the example disk sit
    inside the quarters of the 5170-wide canvas. *)
Lemma title_layers_layout_witness :
  exists composite,
    Combiner.combineScreenshots (diskWith 4) (Combiner.defaultOptions iphone "en")
    = ([composite], inr tt)
    /\ map Combiner.l_left (take 4 (Combiner.layers composite)) = [31; 1323; 2615; 3907]
    /\ exists l svg,
         Combiner.layers composite !! 1%nat = Some l
         /\ Combiner.input l = Combiner.TitleLayer svg
         /\ Combiner.svgWidth svg = 1230.
Proof.
  assert (exists c,
            Combiner.combineScreenshots (diskWith 4) (Combiner.defaultOptions iphone "en")
            = ([c], inr tt)) as [composite Hrun]
    by (eexists; vm_compute; reflexivity).
  exists composite. split; [exact Hrun|].
  destruct (title_layers_layout (diskWith 4) (Combiner.defaultOptions iphone "en")
              composite Hrun)
    as (first & rest & w & h & Hfound & Hfile & Hlayers).
  assert (exists l, Combiner.layers composite !! 1%nat = Some l) as [l Hl].
  { pose proof Hrun as Hc. vm_compute in Hc. injection Hc as <-. eexists. reflexivity. }
  destruct (Hlayers 1%nat l ltac:(vm_compute; lia) Hl) as (svg & Hin & Hsw & _).
  split.
  - vm_compute in Hrun. injection Hrun as <-. reflexivity.
  - exists l, svg. split; [exact Hl|]. split; [exact Hin|].
    rewrite Hsw. vm_compute in Hfound. injection Hfound as <- _.
    cbn in Hfile. congruence.
Defined.

(** X9. In a written composite the layers after the titles are the
    framed images in slot order, each loaded from the framed file of its
    slot with the scale factor of the device type, all at
    [top = spacing + title height]. With [centerInQuarters], an image no
    wider than the quarter-width lies inside its quarter. Without it, an
    image no wider than its original width lies inside its allocation,
    which starts at [k * (originalWidth + spacing) + spacing] and is
    [originalWidth] wide. *)
Theorem image_layers_layout :
  forall (disk : Combiner.Disk) (options : Combiner.CombineOptions)
         (composite : Combiner.Composite),
    Combiner.combineScreenshots disk options = ([composite], inr tt) ->
    length (Combiner.layers composite) = (2 * length (foundFor disk options))%nat
    /\ forall (k : nat) (l : Combiner.Layer),
         Combiner.layers composite !! (length (foundFor disk options) + k)%nat = Some l ->
         let quarterWidth :=
           Combiner.c_width composite / Z.of_nat (length (foundFor disk options)) in
         exists e image,
           foundFor disk options !! k = Some e
           /\ Combiner.loadFramedImage
                (match Combiner.deviceType options with
                 | iphone => Combiner.iPhoneScaleFactor options
                 | ipad => Combiner.iPadScaleFactor options
                 end)
                (Combiner.framed e) = inr image
           /\ Combiner.input l = Combiner.ImageLayer image
           /\ Combiner.l_top l
              = (inject_Z (Combiner.spacing options) + layoutHeightOf options)%Q
           /\ (Combiner.centerInQuarters options = true ->
               Combiner.fi_width image <= quarterWidth ->
               Z.of_nat k * quarterWidth <= Combiner.l_left l
               /\ Combiner.l_left l + Combiner.fi_width image
                  <= (Z.of_nat k + 1) * quarterWidth)
           /\ (Combiner.centerInQuarters options = false ->
               Combiner.fi_width image <= Combiner.originalWidth image ->
               let spaceStart :=
                 Z.of_nat k * (Combiner.originalWidth image + Combiner.spacing options)
                 + Combiner.spacing options in
               spaceStart <= Combiner.l_left l
               /\ Combiner.l_left l + Combiner.fi_width image
                  <= spaceStart + Combiner.originalWidth image).
Proof.
  intros disk options composite Hrun.
  destruct (combineScreenshots_written disk options composite)
    as (bgWidth & bgHeight & images & dims & titleOps & Hbg & Hpos & Himages & Hcalc
        & Hlen & _ & _ & -> & _).
  { rewrite Hrun. left. reflexivity. }
  pose proof (Forall2_length _ _ _ Himages) as Hfoundlen.
  pose proof (canvas_bounds _ _ _ _ _ _ _ _ _ Hcalc) as Hbounds.
  cbv zeta in Hbounds. destruct Hbounds as (Hn & _ & _ & Hq).
  cbn [compositeOf Combiner.layers Combiner.c_width]. split.
  - rewrite length_app, length_imap. lia.
  - intros k l Hl. rewrite Hfoundlen, <- Hq. cbv zeta.
    rewrite Hfoundlen, <- Hlen, lookup_app_r in Hl by lia.
    replace (length titleOps + k - length titleOps)%nat with k in Hl by lia.
    rewrite list_lookup_imap in Hl.
    destruct (images !! k) as [image|] eqn:Himage; [|discriminate].
    injection Hl as <-.
    destruct (Forall2_lookup_r _ _ _ _ _ Himages Himage) as (e & He & Hload).
    exists e, image. split; [exact He|]. split.
    { unfold loadsAs, scaleFactorOf in Hload. exact Hload. }
    unfold Combiner.imageLayer.
    cbn [Combiner.input Combiner.l_top Combiner.l_left].
    split; [reflexivity|]. split; [reflexivity|]. split.
    + intros -> Hw. rewrite Math_round_halves. apply centred_in_quarter. exact Hw.
    + intros -> Hw. rewrite Math_round_half.
      set (spaceStart :=
             Z.of_nat k * (Combiner.originalWidth image + Combiner.spacing options)
             + Combiner.spacing options).
      pose proof (Z.div_mod
                    (2 * spaceStart
                     + (Combiner.originalWidth image - Combiner.fi_width image) + 1)
                    2 ltac:(lia)) as Hdm.
      pose proof (Z.mod_pos_bound
                    (2 * spaceStart
                     + (Combiner.originalWidth image - Combiner.fi_width image) + 1)
                    2 ltac:(lia)) as Hmod.
      lia.
Qed.

(** With the default settings the four images of the example disk, scaled
    to 1107 pixels, sit inside the quarters of width 1292. A framed file
    1285 wide loaded with a scale factor of 0.7 is 899 wide, as the
    product of the two doubles lies just below 899.5. *)
Lemma image_layers_layout_witness :
  exists composite,
    Combiner.combineScreenshots (diskWith 4) (Combiner.defaultOptions iphone "en")
    = ([composite], inr tt)
    /\ length (Combiner.layers composite) = 8%nat
    /\ map Combiner.l_left (drop 4 (Combiner.layers composite)) = [93; 1385; 2677; 3969]
    /\ map (fun l =>
              match Combiner.input l with
              | Combiner.ImageLayer image => Combiner.fi_width image
              | Combiner.TitleLayer _ => 0
              end)
         (drop 4 (Combiner.layers composite))
       = [1107; 1107; 1107; 1107]
    /\ Combiner.loadFramedImage (Js.decimal 7 10) (Combiner.Image 1285 2000)
       = inr (Combiner.mkFramedImage 1285 2000 899 1400).
Proof.
  assert (exists c,
            Combiner.combineScreenshots (diskWith 4) (Combiner.defaultOptions iphone "en")
            = ([c], inr tt)) as [composite Hrun]
    by (eexists; vm_compute; reflexivity).
  exists composite. split; [exact Hrun|].
  destruct (image_layers_layout (diskWith 4) (Combiner.defaultOptions iphone "en")
              composite Hrun) as (Hlen & _).
  split; [exact Hlen|].
  vm_compute in Hrun. injection Hrun as <-.
  split; [reflexivity|]. split; [reflexivity|]. vm_compute. reflexivity.
Defined.

(** ** Combiner: the rendered title *)

(** X10. For a non-negative font size and a shadow offset of absolute
    value at most 1, the height of a generated title image plus the title
    spacing never exceeds the title band reserved in the canvas for the
    same line cap. A title capped to one line never has a second line,
    whatever its length or explicit breaks, and for a shadow offset of
    absolute value 1 it fills the single-line band exactly. *)
Theorem title_fits_canvas_band :
  forall (text : string) (fontSize shadowOffset width titleSpacing : Z)
         (maxLines : Combiner.MaxLines),
    0 <= fontSize ->
    Z.abs shadowOffset <= 1 ->
    let svg := Combiner.generateTitleSvg text fontSize shadowOffset width maxLines in
    Combiner.svgHeight svg + titleSpacing
    <= Combiner.canvasTitleHeight fontSize titleSpacing (isSingleLine maxLines)
    /\ (maxLines = Combiner.Lines1 ->
        Combiner.line2 svg = EmptyString
        /\ (Z.abs shadowOffset = 1 ->
            Combiner.svgHeight svg + titleSpacing
            = Combiner.canvasTitleHeight fontSize titleSpacing true)).
Proof.
  intros text fontSize shadowOffset width titleSpacing maxLines Hfs Hoff svg.
  destruct (generateTitleSvg_fields text fontSize shadowOffset width maxLines)
    as (_ & Hline2 & _ & Hheight).
  fold svg in Hline2, Hheight. cbv zeta in Hline2, Hheight.
  assert (0 <= inject_Z fontSize)%Q as Hfs' by (change 0%Q with (inject_Z 0); rewrite <- Zle_Qle; exact Hfs).
  assert (inject_Z (Qceiling (inject_Z fontSize * (2 # 10)) + Z.abs shadowOffset)
          <= inject_Z (Qceiling (inject_Z fontSize * (2 # 10)) + 1))%Q as Hpad
    by (rewrite <- Zle_Qle; lia).
  split.
  - rewrite Hheight. unfold Combiner.canvasTitleHeight, Js.Math_ceil.
    apply Z.add_le_mono_r, Qceiling_resp_le.
    set (ps := inject_Z (Qceiling (inject_Z fontSize * (2 # 10)) + Z.abs shadowOffset)) in *.
    set (pc := inject_Z (Qceiling (inject_Z fontSize * (2 # 10)) + 1)) in *.
    destruct maxLines; cbn [isSingleLine Str.truthy];
      [|destruct (Str.truthy _)];
      cbv iota; change (inject_Z 2) with 2%Q; change (inject_Z 1) with 1%Q; lra.
  - intros ->. cbn [isSingleLine] in Hline2, Hheight. split; [exact Hline2|].
    intros Hone. rewrite Hheight, Hone. reflexivity.
Qed.

(** The default two-line title is 366 high and fills the 466 band with
    the title spacing of 100. *)
Lemma title_fits_canvas_band_witness :
  Combiner.svgHeight
    (Combiner.generateTitleSvg "Plan Meals in Seconds" 130 1 1230 Combiner.Lines2)
  + 100
  <= Combiner.canvasTitleHeight 130 100 false
  /\ Combiner.svgHeight
       (Combiner.generateTitleSvg "Plan Meals in Seconds" 130 1 1230 Combiner.Lines2)
     = 366.
Proof.
  destruct (title_fits_canvas_band "Plan Meals in Seconds" 130 1 1230 100 Combiner.Lines2)
    as [Hfits _]; [lia | simpl; lia |].
  split; [exact Hfits | reflexivity].
Defined.

Lemma noAngle_app (a b : string) : noAngle (a +:+ b) = noAngle a && noAngle b.
Proof.
  induction a as [|c a IH]; [reflexivity|].
  change (noAngle (String c (a +:+ b))
          = noAngle (String c a) && noAngle b).
  simpl. rewrite IH, andb_assoc. reflexivity.
Qed.

Lemma escapeXml_noAngle (s : string) : noAngle (Str.escapeXml s) = true.
Proof.
  induction s as [|c s IH]; [reflexivity|]. simpl.
  destruct (Ascii.eqb c "&") eqn:Hamp; [rewrite noAngle_app, IH; reflexivity|].
  destruct (Ascii.eqb c "<") eqn:Hlt; [rewrite noAngle_app, IH; reflexivity|].
  destruct (Ascii.eqb c ">") eqn:Hgt; [rewrite noAngle_app, IH; reflexivity|].
  simpl. rewrite Hlt, Hgt, IH. reflexivity.
Qed.

Lemma split_noAngle (s : string) :
  noAngle s = true -> Forall (fun w => noAngle w = true) (Str.split " " s).
Proof.
  induction s as [|c s IH]; simpl; [repeat constructor|].
  intros H. apply andb_true_iff in H. destruct H as [Hc Hs]. specialize (IH Hs).
  destruct (Ascii.eqb c " "); [constructor; [reflexivity | exact IH]|].
  destruct (Str.split " " s) as [|w ws].
  - repeat constructor. simpl. rewrite Hc. reflexivity.
  - inversion IH as [|? ? Hw Hws]; subst.
    constructor; [simpl; rewrite Hc, Hw; reflexivity | exact Hws].
Qed.

Lemma join_noAngle (ws : list string) :
  Forall (fun w => noAngle w = true) ws -> noAngle (Str.join " " ws) = true.
Proof.
  induction 1 as [|w ws Hw Hws IH]; [reflexivity|].
  destruct ws as [|w' ws]; [exact Hw|].
  change (Str.join " " (w :: w' :: ws)) with (w +:+ " " +:+ Str.join " " (w' :: ws)).
  rewrite !noAngle_app, Hw, IH. reflexivity.
Qed.

(** X11. The two lines of a generated title never hold a [<] or a [>],
    whatever the text, the width, the line cap and the way the text was
    broken: what is placed inside the [<text>] elements cannot open or
    close a tag. *)
Theorem title_lines_have_no_angle_brackets :
  forall (text : string) (fontSize shadowOffset width : Z) (maxLines : Combiner.MaxLines),
    let svg := Combiner.generateTitleSvg text fontSize shadowOffset width maxLines in
    noAngle (Combiner.line1 svg) = true /\ noAngle (Combiner.line2 svg) = true.
Proof.
  intros text fontSize shadowOffset width maxLines svg.
  destruct (generateTitleSvg_fields text fontSize shadowOffset width maxLines)
    as (Hline1 & Hline2 & _).
  fold svg in Hline1, Hline2. cbv zeta in Hline2. rewrite Hline1, Hline2.
  assert (noAngle (fst (Combiner.titleLines text fontSize width)) = true
          /\ noAngle (snd (Combiner.titleLines text fontSize width)) = true) as [H1 H2].
  { unfold Combiner.titleLines.
    destruct (1 <? length _)%nat; [split; apply escapeXml_noAngle|].
    destruct (Js.length_gt _ _); [|split; [apply escapeXml_noAngle | reflexivity]].
    destruct (_ && _)%bool; [|split; [apply escapeXml_noAngle | reflexivity]].
    pose proof (split_noAngle _ (escapeXml_noAngle text)) as Hwords.
    split; apply join_noAngle; [apply Forall_take | apply Forall_drop]; exact Hwords. }
  split; [exact H1|]. destruct maxLines; [reflexivity | exact H2].
Qed.


(** ** Combiner: the greedy word wrap *)

Lemma join_snoc (pre : list string) (w : string) :
  pre <> [] -> Str.join " " (pre ++ [w]) = Str.join " " pre +:+ " " +:+ w.
Proof. intros Hpre. apply join_app; [exact Hpre | discriminate]. Qed.

Lemma join_truthy (pre : list string) :
  Str.truthy (hd EmptyString pre) = true -> Str.truthy (Str.join " " pre) = true.
Proof.
  destruct pre as [|w pre]; [discriminate|]. simpl hd. intros Hw.
  destruct w as [|c w]; [discriminate|]. destruct pre; reflexivity.
Qed.

(** The loop after the words [pre] were accepted: it either accepts all
    remaining words or stops at the first word that does not fit, and the
    accepted line fits unless it is the first word alone. *)
Lemma wrapLoop_greedy (maxChars : Js.num) (rest pre : list string) :
  Str.truthy (hd EmptyString pre) = true ->
  (tooLong maxChars (Str.join " " pre) = false \/ length pre = 1%nat) ->
  let breakIndex :=
    Combiner.wrapLoop maxChars rest (length pre) (Str.join " " pre) (length pre) in
  (breakIndex = length (pre ++ rest)
   /\ (tooLong maxChars (Str.join " " (pre ++ rest)) = false
       \/ length (pre ++ rest) = 1%nat))
  \/ ((0 < breakIndex < length (pre ++ rest))%nat
      /\ (tooLong maxChars (Str.join " " (take breakIndex (pre ++ rest))) = false
          \/ breakIndex = 1%nat)
      /\ exists w,
           (pre ++ rest) !! breakIndex = Some w
           /\ tooLong maxChars
                (Str.join " " (take breakIndex (pre ++ rest)) +:+ " " +:+ w) = true).
Proof.
  revert pre. induction rest as [|w rest IH]; intros pre Hhd Hinv.
  - left. cbn [Combiner.wrapLoop]. rewrite app_nil_r. split; [reflexivity | exact Hinv].
  - assert (pre <> []) as Hpre by (intros ->; discriminate).
    cbn [Combiner.wrapLoop]. rewrite (join_truthy pre Hhd), andb_true_r.
    rewrite <- string_app_assoc, string_app_assoc, <- (join_snoc pre w Hpre).
    fold (tooLong maxChars (Str.join " " (pre ++ [w]))).
    destruct (tooLong maxChars (Str.join " " (pre ++ [w]))) eqn:Hlong.
    + right. cbv zeta. rewrite length_app. split; [destruct pre; simpl in *; [congruence | lia]|].
      rewrite take_app_length. split; [exact Hinv|].
      exists w. split; [apply list_lookup_middle; reflexivity|].
      rewrite <- (join_snoc pre w Hpre). exact Hlong.
    + specialize (IH (pre ++ [w])).
      rewrite <- app_assoc in IH. cbn [app] in IH.
      replace (length (pre ++ [w])) with (S (length pre)) in IH
        by (rewrite length_app; simpl; lia).
      apply IH.
      * destruct pre; [congruence | exact Hhd].
      * left. exact Hlong.
Qed.

Lemma escaped_first_word (c : ascii) (s : string) :
  Ascii.eqb c " " = false ->
  exists w ws,
    Str.split " " (Str.escapeXml (String c s)) = w :: ws /\ Str.truthy w = true.
Proof.
  intros Hc.
  assert (exists c' s', Str.escapeXml (String c s) = String c' s'
                        /\ Ascii.eqb c' " " = false) as (c' & s' & -> & Hc').
  { simpl. destruct (Ascii.eqb c "&"); [eexists _, _; split; reflexivity|].
    destruct (Ascii.eqb c "<"); [eexists _, _; split; reflexivity|].
    destruct (Ascii.eqb c ">"); [eexists _, _; split; reflexivity|].
    eexists _, _. split; [reflexivity | exact Hc]. }
  simpl. rewrite Hc'. destruct (Str.split " " s'); eexists _, _; split; reflexivity.
Qed.

(** X12. The word wrap is greedy. For a text without explicit break that
    does not start with a space, and two allowed lines: either the first
    line is the whole escaped text, which then fits the line limit or is
    a single word; or the text is broken between two words, the first
    line fits the limit or is a single word, and the first line with the
    next word added would exceed the limit. *)
Theorem title_wrap_is_greedy :
  forall (text : string) (fontSize shadowOffset width : Z),
    hasExplicitBreak text = false ->
    startsWithSpace text = false ->
    let maxChars := Js.floor_div (inject_Z width) (inject_Z fontSize * (6 # 10)) in
    let svg := Combiner.generateTitleSvg text fontSize shadowOffset width Combiner.Lines2 in
    let escaped := Str.escapeXml text in
    (Combiner.line1 svg = escaped
     /\ Combiner.line2 svg = EmptyString
     /\ (tooLong maxChars escaped = false \/ noSpace escaped = true))
    \/ (Combiner.line1 svg +:+ " " +:+ Combiner.line2 svg = escaped
        /\ (tooLong maxChars (Combiner.line1 svg) = false
            \/ noSpace (Combiner.line1 svg) = true)
        /\ tooLong maxChars
             (Combiner.line1 svg +:+ " "
              +:+ hd EmptyString (Str.split " " (Combiner.line2 svg))) = true).
Proof.
  intros text fontSize shadowOffset width Hno Hstart maxChars svg escaped.
  destruct (generateTitleSvg_fields text fontSize shadowOffset width Combiner.Lines2)
    as (Hline1 & Hline2 & _).
  fold svg in Hline1, Hline2. cbv zeta in Hline2. cbn [isSingleLine] in Hline2.
  rewrite Hline1, Hline2, (titleLines_no_break text fontSize width Hno).
  cbv zeta. fold maxChars escaped. fold (tooLong maxChars escaped).
  destruct (tooLong maxChars escaped) eqn:Hlong; [|left; repeat split; left; reflexivity].
  destruct text as [|c s].
  { subst escaped.
    cbn [Str.escapeXml Str.split Combiner.wrapLoop Str.truthy]. rewrite andb_false_r.
    cbn. left. split; [reflexivity|]. split; [reflexivity|]. right. reflexivity. }
  destruct (escaped_first_word c s Hstart) as (w0 & ws & Hsplit & Hw0).
  fold escaped in Hsplit.
  pose proof (split_words_noSpace escaped) as Hwords.
  pose proof (join_split escaped) as Hjoin.
  rewrite Hsplit in Hwords, Hjoin |- *.
  assert (Combiner.wrapLoop maxChars (w0 :: ws) 0 EmptyString 0
          = Combiner.wrapLoop maxChars ws 1 w0 1) as ->.
  { cbn [Combiner.wrapLoop Str.truthy]. rewrite andb_false_r. reflexivity. }
  destruct (wrapLoop_greedy maxChars ws [w0] Hw0 (or_intror eq_refl))
    as [[Hend Hall]|(Hrange & Hfit & w & Hw & Hover)];
    cbn [length app] in *; change (Str.join " " [w0]) with w0 in *.
  - rewrite Hend.
    assert ((S (length ws) <? S (length ws))%nat = false) as -> by (apply Nat.ltb_ge; lia).
    rewrite andb_false_r. left. repeat split.
    destruct Hall as [Hfits|Hone].
    + rewrite Hjoin, Hlong in Hfits. discriminate.
    + right. destruct ws; [|simpl in Hone; lia].
      inversion Hwords; subst. simpl in Hjoin. rewrite <- Hjoin. assumption.
  - set (breakIndex := Combiner.wrapLoop maxChars ws 1 w0 1) in *.
    assert (((0 <? breakIndex)%nat && (breakIndex <? S (length ws))%nat)%bool = true) as ->.
    { apply andb_true_iff. split; apply Nat.ltb_lt; lia. }
    right. cbn [fst snd].
    destruct (break_words escaped breakIndex) as [Hwhole Hsplits].
    { rewrite Hsplit. simpl. lia. }
    rewrite Hsplit in Hwhole, Hsplits. split; [exact Hwhole|]. split.
    + destruct Hfit as [Hfit| ->]; [left; exact Hfit | right].
      inversion Hwords; subst. assumption.
    + assert (Str.split " " (Str.join " " (drop breakIndex (w0 :: ws)))
              = drop breakIndex (w0 :: ws)) as ->.
      { apply split_join.
        - intros Hnil. apply (f_equal length) in Hnil. rewrite length_drop in Hnil.
          simpl in Hnil. lia.
        - apply Forall_drop. exact Hwords. }
      rewrite (drop_S _ _ _ Hw). exact Hover.
Qed.

(** The title [Plan Meals in Seconds] at 15 characters per line: the
    first line fits and adding [Seconds] would not. *)
Lemma title_wrap_is_greedy_witness :
  tooLong (Js.Fin 15)
    (Combiner.line1
       (Combiner.generateTitleSvg "Plan Meals in Seconds" 130 1 1230 Combiner.Lines2))
  = false
  /\ tooLong (Js.Fin 15) "Plan Meals in Seconds" = true.
Proof.
  destruct (title_wrap_is_greedy "Plan Meals in Seconds" 130 1 1230 eq_refl eq_refl)
    as [(_ & Hempty & _)|(_ & _ & Hover)].
  - vm_compute in Hempty. discriminate.
  - split; [reflexivity | exact Hover].
Defined.


(** ** Combiner: success and failure *)

(** X13. [combineScreenshots] writes all or nothing. It succeeds, and
    writes exactly one composite, when the background can be read, a
    framed screenshot is found, every framed file found loads to an image
    of positive size no larger than the canvas, the offset of the image
    row is an integer, the title of every slot in use is a string whose
    image parses, has a positive height and is no larger than the canvas,
    and the canvas is within the library's pixel limit; in every other
    case it throws and has written nothing. *)
Theorem combineScreenshots_all_or_nothing :
  forall (disk : Combiner.Disk) (options : Combiner.CombineOptions),
    (combinable disk options
     /\ exists composite,
          Combiner.combineScreenshots disk options = ([composite], inr tt)
          /\ Combiner.c_deviceType composite = Combiner.deviceType options
          /\ Combiner.c_locale composite = Combiner.locale options)
    \/ (~ combinable disk options
        /\ exists msg, Combiner.combineScreenshots disk options = ([], inl msg)).
Proof.
  intros disk options.
  destruct (combineScreenshots_verdict disk options) as [[Hok [composite Hrun]]|Hfail];
    [left | right; exact Hfail].
  split; [exact Hok|]. exists composite. split; [exact Hrun|].
  destruct (combineScreenshots_written disk options composite)
    as (bgWidth & bgHeight & images & dims & titleOps & _ & _ & _ & _ & _ & _ & _ & -> & _).
  { rewrite Hrun. left. reflexivity. }
  split; reflexivity.
Qed.

(** A title font size of 28 puts the image row at [50 + 67.2 + 100], not
    an integer, and a second framed image larger than the canvas sized
    from the first does not fit: both runs throw and write nothing. *)
Lemma combineScreenshots_all_or_nothing_witness :
  (~ combinable (diskWith 4) (fontSize28 iphone "en")
   /\ exists msg,
        Combiner.combineScreenshots (diskWith 4) (fontSize28 iphone "en") = ([], inl msg))
  /\ (~ combinable laterImageLarger (Combiner.defaultOptions iphone "en")
      /\ exists msg,
           Combiner.combineScreenshots laterImageLarger
             (Combiner.defaultOptions iphone "en") = ([], inl msg)).
Proof.
  split.
  - destruct (combineScreenshots_all_or_nothing (diskWith 4) (fontSize28 iphone "en"))
      as [[_ (composite & Hrun & _)]|Hfail]; [|exact Hfail].
    vm_compute in Hrun. discriminate.
  - destruct (combineScreenshots_all_or_nothing laterImageLarger
                (Combiner.defaultOptions iphone "en"))
      as [[_ (composite & Hrun & _)]|Hfail]; [|exact Hfail].
    vm_compute in Hrun. discriminate.
Defined.

Lemma filter_all {A} (f : A -> bool) (l : list A) :
  (forall x, f x = true) -> List.filter f l = l.
Proof.
  intros Hf. induction l as [|x l IH]; simpl; [reflexivity|].
  rewrite Hf, IH. reflexivity.
Qed.

Lemma combiner_attempt_iff (disk : Combiner.Disk) (targetDevice : option DeviceType)
    (locale : string) :
  Combiner.attempt disk targetDevice locale = true
  <-> combinable disk (Combiner.defaultOptions (default iphone targetDevice) locale).
Proof.
  unfold Combiner.attempt, Eff.succeeded.
  destruct (combineScreenshots_verdict disk
              (Combiner.defaultOptions (default iphone targetDevice) locale))
    as [[Hok [composite ->]]|[Hnot [msg ->]]]; simpl.
  - tauto.
  - split; [discriminate | tauto].
Qed.

(** X14. The combiner's batch run ends with status 0 exactly when every
    locale can be combined with the default settings for the device type
    (iPhone when none is given): the background is readable, the locale
    has a framed screenshot, every framed file found loads and none is
    larger than the canvas sized from the first, the titles loaded for
    its slots are strings whose images parse and fit, and the canvas is
    within the library's pixel limit. Every locale is counted once; with
    an unreadable background every locale fails. *)
Theorem combiner_main_status :
  forall (disk : Combiner.Disk) (locales : list string)
         (targetDevice : option DeviceType),
    (Batch.exitCode (Combiner.main disk locales targetDevice) = 0
     <-> forall l,
           In l locales ->
           combinable disk (Combiner.defaultOptions (default iphone targetDevice) l))
    /\ (Batch.processed (Batch.tally (Combiner.main disk locales targetDevice))
        + Batch.failed (Batch.tally (Combiner.main disk locales targetDevice))
        = length locales)%nat
    /\ (Combiner.background disk = None ->
        Batch.failed (Batch.tally (Combiner.main disk locales targetDevice))
        = length locales).
Proof.
  intros disk locales targetDevice.
  destruct (combiner_main_exit disk locales targetDevice) as (_ & _ & Hzero).
  split; [|split].
  - rewrite Hzero. split.
    + intros Hnone l Hl. apply combiner_attempt_iff.
      destruct (Combiner.attempt disk targetDevice l) eqn:Ha; [reflexivity|].
      exfalso. apply Hnone. apply in_map_iff. exists l. auto.
    + intros Hall Hin. apply in_map_iff in Hin. destruct Hin as (l & Ha & Hl).
      apply Hall, combiner_attempt_iff in Hl. congruence.
  - unfold Combiner.main. rewrite run_spec. cbn [Batch.tally Batch.processed Batch.failed].
    rewrite successes_failures, length_map. reflexivity.
  - intros Hbg. unfold Combiner.main. rewrite run_spec. cbn [Batch.tally Batch.failed].
    rewrite failures_map.
    rewrite filter_all; [reflexivity|].
    intros l. apply negb_true_iff.
    destruct (Combiner.attempt disk targetDevice l) eqn:Ha; [|reflexivity].
    apply combiner_attempt_iff in Ha.
    destruct Ha as (bgWidth & bgHeight & images & dims & Hsome & _). congruence.
Qed.

(** On the example disk a translation file with a number in [slot_1]
    makes every locale fail: the run over [en] and [fr] ends with
    status 1, as does the run over a locale whose second framed image is
    larger than the first; with titles for slots 1 and 3 only the run
    ends with status 0. *)
Lemma combiner_main_status_witness :
  Batch.exitCode (Combiner.main (diskWithTitles numberInSlot1) ["en"; "fr"] None) <> 0
  /\ Batch.exitCode (Combiner.main laterImageLarger ["en"] None) <> 0
  /\ Batch.exitCode (Combiner.main (diskWithTitles onlySlots1And3) ["en"; "fr"] None) = 0.
Proof.
  split; [|split].
  - intros Hzero.
    destruct (combiner_main_status (diskWithTitles numberInSlot1) ["en"; "fr"] None)
      as [[Hall _] _].
    specialize (Hall Hzero "en" ltac:(simpl; auto)).
    destruct (combineScreenshots_verdict (diskWithTitles numberInSlot1)
                (Combiner.defaultOptions iphone "en")) as [[_ [c Hrun]]|[Hnot _]].
    + vm_compute in Hrun. discriminate.
    + exact (Hnot Hall).
  - intros Hzero.
    destruct (combiner_main_status laterImageLarger ["en"] None) as [[Hall _] _].
    specialize (Hall Hzero "en" ltac:(simpl; auto)).
    destruct (combineScreenshots_verdict laterImageLarger
                (Combiner.defaultOptions iphone "en")) as [[_ [c Hrun]]|[Hnot _]].
    + vm_compute in Hrun. discriminate.
    + exact (Hnot Hall).
  - apply (combiner_main_status (diskWithTitles onlySlots1And3) ["en"; "fr"] None).
    intros l [<-|[<-|[]]].
    + destruct (combineScreenshots_verdict (diskWithTitles onlySlots1And3)
                  (Combiner.defaultOptions iphone "en")) as [[Hok _]|[_ [msg Hrun]]].
      * exact Hok.
      * vm_compute in Hrun. discriminate.
    + destruct (combineScreenshots_verdict (diskWithTitles onlySlots1And3)
                  (Combiner.defaultOptions iphone "fr")) as [[Hok _]|[_ [msg Hrun]]].
      * exact Hok.
      * vm_compute in Hrun. discriminate.
Defined.

(** ** Sorting *)

Lemma insertBy_perm {A} (before : A -> A -> bool) (x : A) (sorted : list A) :
  Permutation (Sorting.insertBy before x sorted) (x :: sorted).
Proof.
  induction sorted as [|y rest IH]; simpl; [reflexivity|].
  destruct (before x y); [reflexivity|]. rewrite IH. apply perm_swap.
Qed.

Lemma sortBy_perm {A} (before : A -> A -> bool) (items : list A) :
  Permutation (Sorting.sortBy before items) items.
Proof.
  unfold Sorting.sortBy.
  assert (forall acc,
            Permutation
              (fold_left (fun sorted x => Sorting.insertBy before x sorted) items acc)
              (items ++ acc)) as Hgen.
  { induction items as [|x items IH]; intros acc; simpl; [reflexivity|].
    rewrite IH, insertBy_perm. symmetry. apply Permutation_middle. }
  rewrite Hgen, app_nil_r. reflexivity.
Qed.

Section InsertionSort.
Context {A : Type} (before : A -> A -> bool) (le : A -> A -> Prop) (P : A -> Prop).
Hypothesis le_trans : forall a b c, le a b -> le b c -> le a c.
Hypothesis before_le : forall a b, P a -> P b -> before a b = true -> le a b.
Hypothesis not_before_le : forall a b, P a -> P b -> before a b = false -> le b a.

Lemma insertBy_sorted (x : A) (sorted : list A) :
  P x -> Forall P sorted -> StronglySorted le sorted ->
  StronglySorted le (Sorting.insertBy before x sorted).
Proof.
  intros Hx HP Hsorted. induction Hsorted as [|y rest Hrest IH Hy]; simpl.
  - repeat constructor.
  - inversion HP as [|? ? HPy HPrest]; subst.
    destruct (before x y) eqn:Hb.
    + constructor; [constructor; assumption|].
      constructor; [apply before_le; assumption|].
      eapply Forall_impl; [exact Hy|]. intros z Hz.
      eapply le_trans; [apply before_le; eassumption | exact Hz].
    + constructor; [apply IH; exact HPrest|].
      rewrite insertBy_perm. constructor; [apply not_before_le; assumption | exact Hy].
Qed.

Lemma sortBy_sorted (items : list A) :
  Forall P items -> StronglySorted le (Sorting.sortBy before items).
Proof.
  unfold Sorting.sortBy. intros HP.
  assert (forall acc,
            Forall P acc -> StronglySorted le acc ->
            StronglySorted le
              (fold_left (fun sorted x => Sorting.insertBy before x sorted) items acc)
            ) as Hgen.
  { induction HP as [|x items Hx HP IH]; intros acc Hacc Hsorted; simpl; [exact Hsorted|].
    apply IH.
    - rewrite insertBy_perm. constructor; assumption.
    - apply insertBy_sorted; assumption. }
  apply Hgen; constructor.
Qed.
End InsertionSort.

Lemma sortBySlot_sortBy (paths : list Combiner.DirEntry) :
  Combiner.sortBySlot paths
  = Sorting.sortBy (fun x y => Combiner.compareSlots x y <? 0) paths.
Proof.
  unfold Combiner.sortBySlot, Sorting.sortBy.
  assert (forall x sorted,
            Combiner.insertSorted x sorted
            = Sorting.insertBy (fun x y => Combiner.compareSlots x y <? 0) x sorted)
    as Hins.
  { intros x sorted. induction sorted as [|y rest IH]; simpl; [reflexivity|].
    rewrite IH. reflexivity. }
  generalize (@nil Combiner.DirEntry) as acc.
  induction paths as [|x paths IH]; intros acc; simpl; [reflexivity|].
  rewrite Hins. apply IH.
Qed.

(** ** Combiner: the framed screenshots found *)

(** X15. [findFramedScreenshots] returns the empty list when the locale
    directory cannot be read, and also when [fs.stat] rejects for any one
    of its entries (a dangling link), whatever the other entries hold.
    When every [fs.stat] resolves it returns, without loss or
    duplication, the entries that are directories named [slot_...]
    holding a [framed.png]; when their names all carry a number the
    result is in ascending order of slot number (so [slot_10] follows
    [slot_2]). *)
Theorem findFramedScreenshots_sorted :
  forall (tree : Combiner.FramedTree) (deviceType : DeviceType) (locale : string),
    (tree deviceType locale = None ->
     Combiner.findFramedScreenshots tree deviceType locale = [])
    /\ forall slotDirs,
         tree deviceType locale = Some slotDirs ->
         (~ allStatsResolve slotDirs ->
          Combiner.findFramedScreenshots tree deviceType locale = [])
         /\ (allStatsResolve slotDirs ->
             Permutation (Combiner.findFramedScreenshots tree deviceType locale)
                         (List.filter qualifies slotDirs)
             /\ (Forall (fun e => is_Some (Combiner.slotOf e))
                   (List.filter qualifies slotDirs) ->
                 StronglySorted (fun a b => slotNumberOf a <= slotNumberOf b)
                   (Combiner.findFramedScreenshots tree deviceType locale))).
Proof.
  intros tree deviceType locale.
  destruct (findFramedScreenshots_cases tree deviceType locale)
    as [(slotDirs & Htree & Hall & Hfound)|[Hwhy Hfound]].
  - split; [intros Hnone; congruence|].
    intros slotDirs' Htree'. rewrite Htree in Htree'. injection Htree' as <-.
    split; [intros Hnot; contradiction|]. intros _. rewrite Hfound.
    split; [apply sortBySlot_perm|].
    intros Hparse. rewrite sortBySlot_sortBy.
    apply (sortBy_sorted _ _ (fun e => is_Some (Combiner.slotOf e))); [| | |exact Hparse].
    + intros a b c. lia.
    + intros a b [ka Ha] [kb Hb]. unfold Combiner.compareSlots, slotNumberOf.
      rewrite Ha, Hb. simpl. lia.
    + intros a b [ka Ha] [kb Hb]. unfold Combiner.compareSlots, slotNumberOf.
      rewrite Ha, Hb. simpl. lia.
  - split; [intros _; exact Hfound|].
    intros slotDirs Htree. split; [intros _; exact Hfound|].
    intros Hall. exfalso.
    destruct Hwhy as [Hnone|(slotDirs' & Htree' & Hnot)]; [congruence|].
    rewrite Htree in Htree'. injection Htree' as <-. contradiction.
Qed.

(** Slots 2, 10 and 1 on disk come out as 1, 2, 10; with a dangling link
    next to them nothing is found. *)
Lemma findFramedScreenshots_sorted_witness :
  map Combiner.entryName
    (Combiner.findFramedScreenshots
       (fun _ _ =>
          Some [Combiner.mkDirEntry "slot_2" (Some true) (Combiner.Image 1230 2592);
                Combiner.mkDirEntry "slot_10" (Some true) (Combiner.Image 1230 2592);
                Combiner.mkDirEntry "notes" (Some true) Combiner.NoFile;
                Combiner.mkDirEntry "slot_1" (Some true) (Combiner.Image 1230 2592)])
       iphone "en")
  = ["slot_1"; "slot_2"; "slot_10"]
  /\ StronglySorted (fun a b => slotNumberOf a <= slotNumberOf b)
       (Combiner.findFramedScreenshots
          (fun _ _ =>
             Some [Combiner.mkDirEntry "slot_2" (Some true) (Combiner.Image 1230 2592);
                   Combiner.mkDirEntry "slot_10" (Some true) (Combiner.Image 1230 2592);
                   Combiner.mkDirEntry "notes" (Some true) Combiner.NoFile;
                   Combiner.mkDirEntry "slot_1" (Some true) (Combiner.Image 1230 2592)])
          iphone "en")
  /\ Combiner.findFramedScreenshots
       (fun _ _ =>
          Some [Combiner.mkDirEntry "slot_1" (Some true) (Combiner.Image 1230 2592);
                Combiner.mkDirEntry "dangling" None Combiner.NoFile;
                Combiner.mkDirEntry "slot_2" (Some true) (Combiner.Image 1230 2592)])
       iphone "en"
     = [].
Proof.
  split; [vm_compute; reflexivity|]. split.
  - eapply (findFramedScreenshots_sorted _ iphone "en"); [reflexivity| |].
    + repeat constructor; eexists; reflexivity.
    + apply List.Forall_forall. intros e Hin. apply filter_In in Hin.
      destruct Hin as [Hin Hq]. simpl in Hin.
      destruct Hin as [<-|[<-|[<-|[<-|[]]]]];
        first [ vm_compute in Hq; discriminate Hq
              | apply is_Some_alt; vm_compute; exact I ].
  - eapply (findFramedScreenshots_sorted _ iphone "en"); [reflexivity|].
    intros Hall. inversion Hall as [|? ? _ Hrest]; subst.
    inversion Hrest as [|? ? Hstat _]; subst.
    destruct Hstat as [b Hb]. discriminate.
Defined.


(** ** The available locales *)

Lemma string_leb_trans (a b c : string) :
  String.leb a b = true -> String.leb b c = true -> String.leb a c = true.
Proof.
  unfold String.leb. revert b c.
  induction a as [|x a IH]; intros [|y b] [|z c]; simpl; try congruence.
  unfold Ascii.compare.
  destruct (N.compare_spec (N_of_ascii x) (N_of_ascii y)) as [Hxy|Hxy|Hxy];
    destruct (N.compare_spec (N_of_ascii y) (N_of_ascii z)) as [Hyz|Hyz|Hyz];
    destruct (N.compare_spec (N_of_ascii x) (N_of_ascii z)) as [Hxz|Hxz|Hxz];
    try congruence; try lia.
  apply IH.
Qed.

Lemma substring_whole (b : string) :
  String.substring 0 (String.length b) b = b.
Proof. induction b as [|c b IH]; simpl; [reflexivity | rewrite IH; reflexivity]. Qed.

Lemma substring_app_r (a b : string) :
  String.substring (String.length a) (String.length b) (a +:+ b) = b.
Proof.
  induction a as [|c a IH]; [apply substring_whole|].
  change (String.substring (String.length a) (String.length b) (a +:+ b) = b).
  exact IH.
Qed.

Lemma endsWith_app (a suffix : string) :
  Locales.endsWith suffix (a +:+ suffix) = true.
Proof.
  unfold Locales.endsWith. rewrite string_length_app.
  replace (String.length a + String.length suffix - String.length suffix)%nat
    with (String.length a) by lia.
  rewrite substring_app_r, String.eqb_refl, andb_true_r.
  apply Nat.leb_le. lia.
Qed.

Lemma removeFirst_json (base : string) :
  dotFree base = true -> Str.removeFirst ".json" (base +:+ ".json") = base.
Proof.
  induction base as [|c base IH]; [reflexivity|].
  intros H. simpl in H. apply andb_true_iff in H. destruct H as [Hc Hbase].
  apply negb_true_iff, Ascii.eqb_neq in Hc.
  change (Str.removeFirst ".json" (String c (base +:+ ".json")) = String c base).
  cbn [Str.removeFirst String.prefix].
  destruct (ascii_dec "." c) as [Heq|_]; [congruence|].
  rewrite (IH Hbase). reflexivity.
Qed.

(** X16. [getAvailableLocales] falls back to [en] alone when the
    translations directory cannot be read. Otherwise it returns, in
    ascending order of character codes, one locale for each file whose
    name ends in [.json], as the name without its first [.json]. A file
    [<base>.json] with a dot-free [base] yields the locale [base]; when
    all translation files are named so, every locale returned is the base
    name of a translation file that exists. *)
Theorem getAvailableLocales_spec :
  Locales.getAvailableLocales None = ["en"]
  /\ forall entries : list Locales.Dirent,
       StronglySorted (fun a b => String.leb a b = true)
         (Locales.getAvailableLocales (Some entries))
       /\ Permutation (Locales.getAvailableLocales (Some entries))
            (map (fun entry => Str.removeFirst ".json" (Locales.name entry))
                 (List.filter
                    (fun entry =>
                       Locales.isFile entry
                       && Locales.endsWith ".json" (Locales.name entry))
                    entries))
       /\ (forall base,
             dotFree base = true ->
             In (Locales.mkDirent (base +:+ ".json") true) entries ->
             In base (Locales.getAvailableLocales (Some entries)))
       /\ (plainTranslationNames entries ->
           forall locale,
             In locale (Locales.getAvailableLocales (Some entries)) ->
             In (Locales.mkDirent (locale +:+ ".json") true) entries).
Proof.
  split; [reflexivity|]. intros entries. unfold Locales.getAvailableLocales.
  set (files := List.filter _ entries).
  split; [|split; [|split]].
  - apply (sortBy_sorted _ _ (fun _ => True)).
    + intros a b c. apply string_leb_trans.
    + intros a b _ _. unfold String.ltb, String.leb.
      destruct (String.compare a b); congruence.
    + intros a b _ _. unfold String.ltb, String.leb.
      rewrite (String.compare_antisym a b).
      destruct (String.compare b a); simpl; congruence.
    + apply Forall_forall. intros; exact I.
  - apply sortBy_perm.
  - intros base Hbase Hin.
    apply list_elem_of_In. rewrite sortBy_perm. apply list_elem_of_In.
    apply in_map_iff. exists (Locales.mkDirent (base +:+ ".json") true).
    split; [apply removeFirst_json; exact Hbase|].
    subst files. apply filter_In. split; [exact Hin|].
    simpl. apply endsWith_app.
  - intros Hplain locale Hin.
    apply list_elem_of_In in Hin. rewrite sortBy_perm in Hin. apply list_elem_of_In in Hin.
    apply in_map_iff in Hin. destruct Hin as (e & <- & He).
    subst files. apply filter_In in He. destruct He as [He Hkeep].
    apply andb_true_iff in Hkeep. destruct Hkeep as [Hfile Hjson].
    destruct (Hplain e He Hfile Hjson) as (base & Hname & Hbase).
    rewrite Hname, (removeFirst_json base Hbase), <- Hname.
    destruct e as [n f]. simpl in *. subst f. exact He.
Qed.

(** A directory with [fr.json], [en.json], a text file and a
    sub-directory named like a translation file gives [en], [fr]. *)
Lemma getAvailableLocales_spec_witness :
  Locales.getAvailableLocales
    (Some [Locales.mkDirent "fr.json" true; Locales.mkDirent "notes.txt" true;
           Locales.mkDirent "de.json" false; Locales.mkDirent "en.json" true])
  = ["en"; "fr"]
  /\ In "fr"
       (Locales.getAvailableLocales
          (Some [Locales.mkDirent "fr.json" true; Locales.mkDirent "notes.txt" true;
                 Locales.mkDirent "de.json" false; Locales.mkDirent "en.json" true])).
Proof.
  split; [vm_compute; reflexivity|].
  destruct getAvailableLocales_spec as [_ Hspec].
  destruct (Hspec [Locales.mkDirent "fr.json" true; Locales.mkDirent "notes.txt" true;
                   Locales.mkDirent "de.json" false; Locales.mkDirent "en.json" true])
    as (_ & _ & Hin & _).
  apply (Hin "fr"); [reflexivity | simpl; auto].
Defined.


(** ** Framer: the scan for PNG files *)

Lemma Dir_induction (P : Scan.Dir -> Prop) :
  P Scan.Unreadable ->
  (forall entries,
     (forall name d, In (name, Scan.Sub d) entries -> P d) ->
     P (Scan.Listing entries)) ->
  forall dir, P dir.
Proof.
  intros HU HL. fix IH 1. intros [|entries]; [exact HU|].
  apply HL. induction entries as [|[n e] es IHes]; intros name d Hin.
  - destruct Hin.
  - destruct Hin as [Heq|Hin]; [|exact (IHes name d Hin)].
    destruct e as [|d0|]; try discriminate.
    injection Heq as _ <-. apply IH.
Qed.

Lemma in_gather_pngFiles (q : Scan.Path) (results : list Scan.Scanned) :
  In q (Scan.pngFiles (Scan.gather results))
  <-> exists r, In r results /\ In q (Scan.pngFiles r).
Proof.
  unfold Scan.gather. simpl. rewrite in_concat. split.
  - intros (l & Hl & Hq). apply in_map_iff in Hl. destruct Hl as (r & <- & Hr). eauto.
  - intros (r & Hr & Hq). exists (Scan.pngFiles r). split; [apply in_map; exact Hr | exact Hq].
Qed.

Lemma in_gather_warnings (q : Scan.Path) (results : list Scan.Scanned) :
  In q (Scan.warnings (Scan.gather results))
  <-> exists r, In r results /\ In q (Scan.warnings r).
Proof.
  unfold Scan.gather. simpl. rewrite in_concat. split.
  - intros (l & Hl & Hq). apply in_map_iff in Hl. destruct Hl as (r & <- & Hr). eauto.
  - intros (r & Hr & Hq). exists (Scan.warnings r). split; [apply in_map; exact Hr | exact Hq].
Qed.

Lemma scanDirectory_pngFiles (dir : Scan.Dir) :
  forall (currentPath q : Scan.Path),
    In q (Scan.pngFiles (Scan.scanDirectory currentPath dir))
    <-> exists p name d,
          q = currentPath ++ p ++ [name]
          /\ descends dir p d
          /\ child d name Scan.File
          /\ isPngName name = true.
Proof.
  induction dir as [|entries IH] using Dir_induction; intros cur q.
  - simpl. split; [intros []|].
    intros (p & name & d & _ & Hd & Hc & _).
    destruct p as [|x p]; simpl in Hd.
    + subst d. exact Hc.
    + destruct Hd as (_ & d0 & Hc0 & _). exact Hc0.
  - cbn [Scan.scanDirectory]. rewrite in_gather_pngFiles. split.
    + intros (r & Hr & Hq). apply in_map_iff in Hr.
      destruct Hr as ([name entry] & <- & Hin).
      destruct entry as [|d|].
      * fold (isPngName name) in Hq. destruct (isPngName name) eqn:Hpng; simpl in Hq;
          [|destruct Hq].
        destruct Hq as [<-|[]].
        exists [], name, (Scan.Listing entries). simpl. auto.
      * destruct (String.eqb name "output") eqn:Hout; simpl in Hq; [destruct Hq|].
        apply (IH name d Hin) in Hq.
        destruct Hq as (p & nm & d' & -> & Hd & Hc & Hpng).
        exists (name :: p), nm, d'. split; [|split; [|auto]].
        -- rewrite <- !List.app_assoc. reflexivity.
        -- simpl. split; [apply String.eqb_neq; exact Hout|]. exists d. auto.
      * destruct Hq.
    + intros (p & nm & d' & -> & Hd & Hc & Hpng). destruct p as [|name rest].
      * simpl in Hd. subst d'. simpl in Hc.
        exists (Scan.mkScanned [cur ++ [nm]] []). split; [|simpl; auto].
        apply in_map_iff. exists (nm, Scan.File). split; [|exact Hc].
        fold (isPngName nm). rewrite Hpng. reflexivity.
      * destruct Hd as (Hne & d & Hchild & Hrest). simpl in Hchild.
        exists (Scan.scanDirectory (cur ++ [name]) d). split.
        -- apply in_map_iff. exists (name, Scan.Sub d). split; [|exact Hchild].
           apply String.eqb_neq in Hne. rewrite Hne. reflexivity.
        -- apply (IH name d Hchild). exists rest, nm, d'.
           split; [|auto]. rewrite <- !List.app_assoc. reflexivity.
Qed.

Lemma scanDirectory_warnings (dir : Scan.Dir) :
  forall (currentPath q : Scan.Path),
    In q (Scan.warnings (Scan.scanDirectory currentPath dir))
    <-> exists p, q = currentPath ++ p /\ descends dir p Scan.Unreadable.
Proof.
  induction dir as [|entries IH] using Dir_induction; intros cur q.
  - simpl. split.
    + intros [<-|[]]. exists []. split; [symmetry; apply List.app_nil_r | reflexivity].
    + intros (p & -> & Hd). destruct p as [|x p]; simpl in Hd.
      * rewrite List.app_nil_r. auto.
      * destruct Hd as (_ & d0 & Hc0 & _). destruct Hc0.
  - cbn [Scan.scanDirectory]. rewrite in_gather_warnings. split.
    + intros (r & Hr & Hq). apply in_map_iff in Hr.
      destruct Hr as ([name entry] & <- & Hin).
      destruct entry as [|d|].
      * destruct (Locales.endsWith _ _); destruct Hq.
      * destruct (String.eqb name "output") eqn:Hout; simpl in Hq; [destruct Hq|].
        apply (IH name d Hin) in Hq.
        destruct Hq as (p & -> & Hd).
        exists (name :: p). split.
        -- rewrite <- !List.app_assoc. reflexivity.
        -- simpl. split; [apply String.eqb_neq; exact Hout|]. exists d. auto.
      * destruct Hq.
    + intros (p & -> & Hd). destruct p as [|name rest].
      * simpl in Hd. discriminate.
      * destruct Hd as (Hne & d & Hchild & Hrest). simpl in Hchild.
        exists (Scan.scanDirectory (cur ++ [name]) d). split.
        -- apply in_map_iff. exists (name, Scan.Sub d). split; [|exact Hchild].
           apply String.eqb_neq in Hne. rewrite Hne. reflexivity.
        -- apply (IH name d Hchild). exists rest.
           split; [|auto]. rewrite <- !List.app_assoc. reflexivity.
Qed.

Lemma descends_no_output (p : Scan.Path) :
  forall dir target, descends dir p target -> ~ In "output" p.
Proof.
  induction p as [|name rest IH]; intros dir target Hd; [intros []|].
  destruct Hd as (Hne & d & _ & Hrest).
  intros [Heq|Hin]; [congruence | exact (IH d target Hrest Hin)].
Qed.

(** X17. [findPngFiles] returns exactly the paths [dirPath/p/name] where
    [p] leads from the scanned directory through readable directories,
    none of them named [output], to a directory that lists the regular
    file [name], and [name] in lower case ends in [.png]. *)
Theorem findPngFiles_spec (dirPath : Scan.Path) (dir : Scan.Dir) (q : Scan.Path) :
  In q (Scan.findPngFiles dirPath dir)
  <-> exists p name d,
        q = dirPath ++ p ++ [name]
        /\ descends dir p d
        /\ child d name Scan.File
        /\ isPngName name = true.
Proof. apply scanDirectory_pngFiles. Qed.

(** X18. No path [findPngFiles] returns passes through a directory named
    [output] below the scanned directory, and each ends in a name that in
    lower case ends in [.png]. *)
Theorem findPngFiles_skips_output (dirPath : Scan.Path) (dir : Scan.Dir) (q : Scan.Path) :
  In q (Scan.findPngFiles dirPath dir) ->
  exists p name,
    q = dirPath ++ p ++ [name]
    /\ ~ In "output" p
    /\ isPngName name = true.
Proof.
  intros Hq. apply scanDirectory_pngFiles in Hq.
  destruct Hq as (p & name & d & Heq & Hd & _ & Hpng).
  exists p, name. split; [exact Heq|]. split; [|exact Hpng].
  exact (descends_no_output p dir d Hd).
Qed.

(** In the example tree only [iphone/en/Home.PNG] is found: the earlier
    result under [output] is not. *)
Lemma findPngFiles_skips_output_witness :
  Scan.findPngFiles ["screenshots"] inputTree
    = [["screenshots"; "iphone"; "en"; "Home.PNG"]]
  /\ exists p name,
       ["screenshots"; "iphone"; "en"; "Home.PNG"] = ["screenshots"] ++ p ++ [name]
       /\ ~ In "output" p
       /\ isPngName name = true.
Proof.
  split; [vm_compute; reflexivity|].
  apply (findPngFiles_skips_output ["screenshots"] inputTree).
  vm_compute. left. reflexivity.
Defined.

(** X19. The scan warns exactly about the directories it reaches and
    cannot read: the paths [dirPath/p] where [p] leads through readable
    directories, none of them named [output], to an unreadable one. *)
Theorem scan_warns_unreadable (dirPath : Scan.Path) (dir : Scan.Dir) (q : Scan.Path) :
  In q (Scan.warnings (Scan.scanDirectory dirPath dir))
  <-> exists p, q = dirPath ++ p /\ descends dir p Scan.Unreadable.
Proof. apply scanDirectory_warnings. Qed.

(** ** The cleanup script *)

Lemma deleteDirectory_succeeds (fs : string -> Cleanup.Directory) (dir : string) :
  Eff.succeeded (Cleanup.deleteDirectory fs dir) = true <-> cleanable (fs dir).
Proof.
  unfold Cleanup.deleteDirectory, cleanable, gone.
  destruct (Cleanup.access (fs dir)) as [|code].
  - destruct (Cleanup.rm (fs dir)) as [|code].
    + simpl. intuition.
    + destruct (String.eqb code "ENOENT") eqn:Hcode.
      * apply String.eqb_eq in Hcode. subst code. simpl. intuition.
      * apply String.eqb_neq in Hcode. simpl. split; [discriminate|].
        intros [_ H]. destruct (H eq_refl) as [H'|H']; congruence.
  - destruct (String.eqb code "ENOENT") eqn:Hcode.
    + apply String.eqb_eq in Hcode. subst code. simpl. split; [|reflexivity].
      intros _. split; [auto | discriminate].
    + apply String.eqb_neq in Hcode. simpl. split; [discriminate|].
      intros [[H|H] _]; congruence.
Qed.

Lemma deleteDirectory_line (fs : string -> Cleanup.Directory) (dir : string) :
  map lineDir (Eff.written (Cleanup.deleteDirectory fs dir)) = [dir].
Proof.
  unfold Cleanup.deleteDirectory.
  destruct (Cleanup.access (fs dir)) as [|code];
    [destruct (Cleanup.rm (fs dir)) as [|code]|];
    try destruct (String.eqb code "ENOENT"); reflexivity.
Qed.

Lemma turn_spec (fs : string -> Cleanup.Directory) (c : Cleanup.Counters) (dir : string) :
  let c' := Cleanup.turn fs c dir in
  Cleanup.cleaned c' + Cleanup.errors c' = Cleanup.cleaned c + Cleanup.errors c + 1
  /\ Cleanup.errors c <= Cleanup.errors c'
  /\ (Cleanup.errors c' = Cleanup.errors c <-> cleanable (fs dir))
  /\ map lineDir (Cleanup.lines c') = map lineDir (Cleanup.lines c) ++ [dir].
Proof.
  pose proof (deleteDirectory_succeeds fs dir) as Hok.
  pose proof (deleteDirectory_line fs dir) as Hline.
  unfold Cleanup.turn, Eff.succeeded, Eff.outcome in *.
  destruct (snd (Cleanup.deleteDirectory fs dir)); simpl;
    rewrite List.map_app, Hline; (split; [lia|]); (split; [lia|]); (split; [|reflexivity]).
  - split; [lia|]. intros H. apply Hok in H. discriminate.
  - split; [intros _; apply Hok; reflexivity | reflexivity].
Qed.

Lemma fold_turn_spec (fs : string -> Cleanup.Directory) (dirs : list string) :
  forall c : Cleanup.Counters,
    let c' := fold_left (Cleanup.turn fs) dirs c in
    Cleanup.cleaned c' + Cleanup.errors c'
      = Cleanup.cleaned c + Cleanup.errors c + Z.of_nat (length dirs)
    /\ Cleanup.errors c <= Cleanup.errors c'
    /\ (Cleanup.errors c' = Cleanup.errors c
        <-> forall dir, In dir dirs -> cleanable (fs dir))
    /\ map lineDir (Cleanup.lines c') = map lineDir (Cleanup.lines c) ++ dirs.
Proof.
  induction dirs as [|dir dirs IH]; intros c.
  - simpl. rewrite List.app_nil_r.
    split; [lia|]. split; [lia|]. split; [|reflexivity].
    split; [intros _ dir [] | reflexivity].
  - cbn [fold_left]. set (c' := fold_left _ _ _). cbv zeta.
    destruct (turn_spec fs c dir) as (Hsum & Hle & Hiff & Hlines).
    destruct (IH (Cleanup.turn fs c dir)) as (Hsum' & Hle' & Hiff' & Hlines').
    fold c' in Hsum', Hle', Hiff', Hlines'.
    split; [|split; [|split]].
    + rewrite Hsum', Hsum. cbn [length]. lia.
    + lia.
    + split.
      * intros Heq. assert (Cleanup.errors (Cleanup.turn fs c dir) = Cleanup.errors c) as H1 by lia.
        assert (Cleanup.errors c' = Cleanup.errors (Cleanup.turn fs c dir)) as H2 by lia.
        intros d [<-|Hin]; [apply Hiff; exact H1 | apply Hiff'; assumption].
      * intros Hall.
        assert (Cleanup.errors (Cleanup.turn fs c dir) = Cleanup.errors c) as H1
          by (apply Hiff, Hall; left; reflexivity).
        assert (Cleanup.errors c' = Cleanup.errors (Cleanup.turn fs c dir)) as H2
          by (apply Hiff'; intros d Hd; apply Hall; right; exact Hd).
        lia.
    + rewrite Hlines', Hlines, <- List.app_assoc. reflexivity.
Qed.

(** X20. [cleanup] tries the three directories in order, also after one
    of them failed: it prints one line for each, and the two counters add
    up to three. The process ends with status 0 when for every directory
    [fs.access] and [fs.rm] resolve or reject with [ENOENT], and with
    status 1 otherwise. *)
Theorem cleanup_status (fs : string -> Cleanup.Directory) :
  let c := fst (Cleanup.cleanup fs) in
  Cleanup.cleaned c + Cleanup.errors c = 3
  /\ 0 <= Cleanup.errors c
  /\ map lineDir (Cleanup.lines c) = Cleanup.directoriesToClean
  /\ (Cleanup.main fs = 0 \/ Cleanup.main fs = 1)
  /\ (Cleanup.main fs = 0
      <-> forall dir, In dir Cleanup.directoriesToClean -> cleanable (fs dir)).
Proof.
  unfold Cleanup.main, Cleanup.cleanup, Cleanup.loop. cbn [fst snd].
  destruct (fold_turn_spec fs Cleanup.directoriesToClean (Cleanup.mkCounters 0 0 []))
    as (Hsum & Hle & Hiff & Hlines).
  cbn [Cleanup.cleaned Cleanup.errors Cleanup.lines] in *.
  set (c := fold_left _ _ _) in *.
  split; [exact Hsum|]. split; [exact Hle|]. split; [exact Hlines|].
  destruct (0 <? Cleanup.errors c) eqn:Herr.
  - apply Z.ltb_lt in Herr. split; [right; reflexivity|].
    split; [discriminate|]. intros H. apply Hiff in H. lia.
  - apply Z.ltb_ge in Herr. split; [left; reflexivity|].
    split; [intros _; apply Hiff; lia | reflexivity].
Qed.
